(** * CDC: the USB serial ring buffers of cores/stm32l4/CDC.cpp

    A shallow embedding of the [CDC] class: the receive and transmit ring
    buffers, the foreground calls ([read], [write], ...) as small-step
    machines whose steps hold one access to a shared field each, and the
    event callback as an atomic function run by the device stack. *)

From Stdlib Require Import ZArith List Bool Lia.
From Stdlib Require Import Strings.Byte.
Import ListNotations.
Local Open Scope Z_scope.

(** ** Machine integers *)

(** [unsigned int], [uint32_t] and [size_t] are 32 bits wide on the
    Cortex-M4; every arithmetic result is reduced modulo 2^32. *)
Definition u32 (z : Z) : Z := z mod 2 ^ 32.

(** Conversion of an unsigned 32-bit value to [int] (the return type of
    [available], [availableForWrite], [peek] and [read]). *)
Definition to_int (z : Z) : Z := if z <? 2 ^ 31 then z else z - 2 ^ 32.

(** [x & (size - 1)], the index wrap of both rings. *)
Definition mask (size x : Z) : Z := Z.land x (size - 1).

(** Value of a byte as the C expression sees it. *)
Definition byte_val (b : byte) : Z := Z.of_N (Byte.to_N b).

(** ** Constants of the headers

    CDC.h, Uart.h and the device stack's header are not part of the
    sources at hand; their constants are parameters of the development. *)
Class Config : Type := {
  CDC_RX_BUFFER_SIZE : Z;
  CDC_TX_BUFFER_SIZE : Z;
  UART_RX_BUFFER_SIZE : Z;
  USBD_CDC_FIFO_SIZE : Z;
  USBD_CDC_STATE_READY : Z;
  USBD_CDC_EVENT_RECEIVE : Z;
  USBD_CDC_EVENT_TRANSMIT : Z
}.

(** ** The CDC object *)

Record CDC : Type := mkCDC {
  _blocking : bool;
  _rx_data : list byte;
  _rx_read : Z;
  _rx_write : Z;
  _rx_count : Z;
  _tx_data : list byte;
  _tx_read : Z;
  _tx_write : Z;
  _tx_size : Z;
  _tx_count : Z;
  _tx_total : Z;
  _transmitCallback : bool;   (* a callback is registered (not NULL) *)
  _receiveCallback : bool
}.

(** ** The device stack *)

(** Modelled from the spec: the state of the USB device stack behind the
    stm32l4_usbd_cdc functions, whose source is not at hand.  It holds the
    device state and the line state it reports (read-only for the CDC
    object), the received bytes it has buffered, whether a packet is in
    flight, and a record of every transmit call. *)
Record usbd_cdc_t : Type := mkUsbd {
  usbd_state : Z;                  (* _usbd_cdc->state *)
  lineState : Z;                   (* stm32l4_usbd_cdc_info.lineState *)
  rx_fifo : list byte;             (* received bytes the stack holds *)
  tx_busy : bool;                  (* a packet is in flight *)
  tx_log : list (Z * list byte)    (* every transmit call: length, bytes *)
}.

(** The object, the stack, and what the outside observes: the arguments
    of every receive notification and the number of transmit
    notifications, and the calls of [armv7m_core_yield]. *)
Record World : Type := mkWorld {
  cdc : CDC;
  usbd : usbd_cdc_t;
  receive_calls : list Z;
  transmit_calls : nat;
  yield_calls : nat
}.

(** *** Field updates *)

Definition set_blocking (v : bool) (c : CDC) : CDC :=
  mkCDC v (_rx_data c) (_rx_read c) (_rx_write c) (_rx_count c)
        (_tx_data c) (_tx_read c) (_tx_write c) (_tx_size c) (_tx_count c)
        (_tx_total c) (_transmitCallback c) (_receiveCallback c).
Definition set_rx_data (v : list byte) (c : CDC) : CDC :=
  mkCDC (_blocking c) v (_rx_read c) (_rx_write c) (_rx_count c)
        (_tx_data c) (_tx_read c) (_tx_write c) (_tx_size c) (_tx_count c)
        (_tx_total c) (_transmitCallback c) (_receiveCallback c).
Definition set_rx_read (v : Z) (c : CDC) : CDC :=
  mkCDC (_blocking c) (_rx_data c) v (_rx_write c) (_rx_count c)
        (_tx_data c) (_tx_read c) (_tx_write c) (_tx_size c) (_tx_count c)
        (_tx_total c) (_transmitCallback c) (_receiveCallback c).
Definition set_rx_write (v : Z) (c : CDC) : CDC :=
  mkCDC (_blocking c) (_rx_data c) (_rx_read c) v (_rx_count c)
        (_tx_data c) (_tx_read c) (_tx_write c) (_tx_size c) (_tx_count c)
        (_tx_total c) (_transmitCallback c) (_receiveCallback c).
Definition set_rx_count (v : Z) (c : CDC) : CDC :=
  mkCDC (_blocking c) (_rx_data c) (_rx_read c) (_rx_write c) v
        (_tx_data c) (_tx_read c) (_tx_write c) (_tx_size c) (_tx_count c)
        (_tx_total c) (_transmitCallback c) (_receiveCallback c).
Definition set_tx_data (v : list byte) (c : CDC) : CDC :=
  mkCDC (_blocking c) (_rx_data c) (_rx_read c) (_rx_write c) (_rx_count c)
        v (_tx_read c) (_tx_write c) (_tx_size c) (_tx_count c)
        (_tx_total c) (_transmitCallback c) (_receiveCallback c).
Definition set_tx_read (v : Z) (c : CDC) : CDC :=
  mkCDC (_blocking c) (_rx_data c) (_rx_read c) (_rx_write c) (_rx_count c)
        (_tx_data c) v (_tx_write c) (_tx_size c) (_tx_count c)
        (_tx_total c) (_transmitCallback c) (_receiveCallback c).
Definition set_tx_write (v : Z) (c : CDC) : CDC :=
  mkCDC (_blocking c) (_rx_data c) (_rx_read c) (_rx_write c) (_rx_count c)
        (_tx_data c) (_tx_read c) v (_tx_size c) (_tx_count c)
        (_tx_total c) (_transmitCallback c) (_receiveCallback c).
Definition set_tx_size (v : Z) (c : CDC) : CDC :=
  mkCDC (_blocking c) (_rx_data c) (_rx_read c) (_rx_write c) (_rx_count c)
        (_tx_data c) (_tx_read c) (_tx_write c) v (_tx_count c)
        (_tx_total c) (_transmitCallback c) (_receiveCallback c).
Definition set_tx_count (v : Z) (c : CDC) : CDC :=
  mkCDC (_blocking c) (_rx_data c) (_rx_read c) (_rx_write c) (_rx_count c)
        (_tx_data c) (_tx_read c) (_tx_write c) (_tx_size c) v
        (_tx_total c) (_transmitCallback c) (_receiveCallback c).
Definition set_tx_total (v : Z) (c : CDC) : CDC :=
  mkCDC (_blocking c) (_rx_data c) (_rx_read c) (_rx_write c) (_rx_count c)
        (_tx_data c) (_tx_read c) (_tx_write c) (_tx_size c) (_tx_count c)
        v (_transmitCallback c) (_receiveCallback c).
Definition set_transmitCallback (v : bool) (c : CDC) : CDC :=
  mkCDC (_blocking c) (_rx_data c) (_rx_read c) (_rx_write c) (_rx_count c)
        (_tx_data c) (_tx_read c) (_tx_write c) (_tx_size c) (_tx_count c)
        (_tx_total c) v (_receiveCallback c).
Definition set_receiveCallback (v : bool) (c : CDC) : CDC :=
  mkCDC (_blocking c) (_rx_data c) (_rx_read c) (_rx_write c) (_rx_count c)
        (_tx_data c) (_tx_read c) (_tx_write c) (_tx_size c) (_tx_count c)
        (_tx_total c) (_transmitCallback c) v.

Definition with_cdc (f : CDC -> CDC) (w : World) : World :=
  mkWorld (f (cdc w)) (usbd w) (receive_calls w) (transmit_calls w)
          (yield_calls w).
Definition with_usbd (f : usbd_cdc_t -> usbd_cdc_t) (w : World) : World :=
  mkWorld (cdc w) (f (usbd w)) (receive_calls w) (transmit_calls w)
          (yield_calls w).

(** ** Copies in and out of the arrays *)

(** [memcpy(&dst[off], src, |src|)].  A copy that runs past the end of the
    array is undefined in C; this list grows instead, and the bounds of
    [ring_ok] below keep every copy of the code inside the array. *)
Definition memcpy_to (dst : list byte) (off : Z) (src : list byte) : list byte :=
  firstn (Z.to_nat off) dst ++ src
    ++ skipn (Z.to_nat off + length src)%nat dst.

(** The [n] bytes at [&src[off]]; short when the array ends before. *)
Definition memcpy_from (src : list byte) (off n : Z) : list byte :=
  firstn (Z.to_nat n) (skipn (Z.to_nat off) src).

(** ** Device stack operations *)

(** Modelled from the spec: receive(handle, pointer, capacity) pulls up to
    [capacity] bytes already buffered by the stack; it returns fewer when
    fewer are buffered and none when nothing is.  The result is the bytes
    stored at the pointer; their number is the length returned. *)
Definition stm32l4_usbd_cdc_receive (u : usbd_cdc_t) (capacity : Z)
  : list byte * usbd_cdc_t :=
  (firstn (Z.to_nat capacity) (rx_fifo u),
   mkUsbd (usbd_state u) (lineState u)
          (skipn (Z.to_nat capacity) (rx_fifo u)) (tx_busy u) (tx_log u)).

(** Modelled from the spec: transmit(handle, pointer, length) hands one
    packet to the device; its completion is reported later through the
    event callback.  [data] is what lies at the pointer. *)
Definition stm32l4_usbd_cdc_transmit (data : list byte) (len : Z)
    (u : usbd_cdc_t) : usbd_cdc_t :=
  mkUsbd (usbd_state u) (lineState u) (rx_fifo u) true
         (tx_log u ++ [(len, data)]).

(** Modelled from the spec: done(handle) is true if no transmission is in
    flight at the device stack. *)
Definition stm32l4_usbd_cdc_done (u : usbd_cdc_t) : bool := negb (tx_busy u).

Section Model.
Context {cfg : Config}.

(** [CDC_TX_PACKET_SIZE]: one byte less than the FIFO size rounded up to
    64-byte packets. *)
Definition CDC_TX_PACKET_SIZE : Z :=
  Z.land (USBD_CDC_FIFO_SIZE + 63) (Z.lnot 63) - 1.

(** ** Queries *)

Definition available (w : World) : Z := to_int (_rx_count (cdc w)).

Definition availableForWrite (w : World) : Z :=
  if usbd_state (usbd w) <? USBD_CDC_STATE_READY then 0
  else to_int (u32 (CDC_TX_BUFFER_SIZE - _tx_count (cdc w))).

Definition peek (w : World) : Z :=
  if _rx_count (cdc w) =? 0 then -1
  else byte_val (nth (Z.to_nat (_rx_read (cdc w))) (_rx_data (cdc w)) x00).

Definition done (w : World) : bool :=
  if negb (_tx_count (cdc w) =? 0) then false
  else if negb (stm32l4_usbd_cdc_done (usbd w)) then false
  else true.

Definition isEnabled (w : World) : bool :=
  USBD_CDC_STATE_READY <=? usbd_state (usbd w).

Definition blockOnOverrun (block : bool) (w : World) : World :=
  with_cdc (set_blocking block) w.

Definition onTransmit (callback : bool) (w : World) : World :=
  with_cdc (set_transmitCallback callback) w.

Definition onReceive (callback : bool) (w : World) : World :=
  with_cdc (set_receiveCallback callback) w.

(** ** The event callback

    [EventCallback] runs in the context of the device stack's interrupt and
    is atomic for the foreground.  Its loops take fuel; [Spinning] is the
    outcome of a run that is still inside a loop when the fuel is gone. *)
Inductive outcome : Type := Returned | Spinning.

(** Lines 330-340: one pull from the stack into the free span at the write
    index, of at most [rx_count] bytes; the result is [rx_size]. *)
Definition rx_pull (rx_count : Z) (w : World) : Z * World :=
  let c := cdc w in
  let rx_write := _rx_write c in
  let rx_count :=
    if rx_count >? u32 (CDC_RX_BUFFER_SIZE - rx_write)
    then u32 (CDC_RX_BUFFER_SIZE - rx_write) else rx_count in
  let (bytes, u') := stm32l4_usbd_cdc_receive (usbd w) rx_count in
  let rx_size := Z.of_nat (length bytes) in
  let c1 := set_rx_data (memcpy_to (_rx_data c) rx_write bytes) c in
  let c2 :=
    set_rx_write (mask CDC_RX_BUFFER_SIZE (u32 (rx_write + rx_size))) c1 in
  let c3 := set_rx_count (u32 (_rx_count c2 + rx_size)) c2 in
  (rx_size,
   mkWorld c3 u' (receive_calls w) (transmit_calls w) (yield_calls w)).

(** The [do ... while (rx_size)] loop of lines 323-344, from its first
    statement, with the running [count]. *)
Fixpoint rx_drain (fuel : nat) (count : Z) (w : World) : option (Z * World) :=
  match fuel with
  | O => None
  | S fuel' =>
      let rx_count := u32 (CDC_RX_BUFFER_SIZE - _rx_count (cdc w)) in
      if rx_count =? 0 then Some (count, w)
      else
        let (rx_size, w') := rx_pull rx_count w in
        let count := u32 (count + rx_size) in
        if rx_size =? 0 then Some (count, w') else rx_drain fuel' count w'
  end.

(** A call of [_receiveCallback] with [count]: the call is recorded. *)
Definition call_receiveCallback (count : Z) (w : World) : World :=
  mkWorld (cdc w) (usbd w) (receive_calls w ++ [count]) (transmit_calls w)
          (yield_calls w).

Definition call_transmitCallback (w : World) : World :=
  mkWorld (cdc w) (usbd w) (receive_calls w) (S (transmit_calls w))
          (yield_calls w).

(** The [while (_rx_count != CDC_RX_BUFFER_SIZE)] loop of lines 318-349. *)
Fixpoint rx_round (fuel : nat) (w : World) : outcome * World :=
  match fuel with
  | O => (Spinning, w)
  | S fuel' =>
      if _rx_count (cdc w) =? CDC_RX_BUFFER_SIZE then (Returned, w)
      else
        let empty := _rx_count (cdc w) =? 0 in
        match rx_drain fuel' 0 w with
        | None => (Spinning, w)
        | Some (count, w1) =>
            let w2 :=
              if empty && _receiveCallback (cdc w1)
              then call_receiveCallback count w1 else w1 in
            rx_round fuel' w2
        end
  end.

(** The packet handed to the stack: the bytes from the read index, no
    further than the end of the array, no more than the packet size. *)
Definition tx_clamp (tx_size tx_read : Z) : Z :=
  let tx_size :=
    if tx_size >? u32 (CDC_TX_BUFFER_SIZE - tx_read)
    then u32 (CDC_TX_BUFFER_SIZE - tx_read) else tx_size in
  if tx_size >? u32 CDC_TX_PACKET_SIZE then u32 CDC_TX_PACKET_SIZE
  else tx_size.

Definition transmit_from (tx_read tx_size : Z) (w : World) : World :=
  with_usbd
    (stm32l4_usbd_cdc_transmit
       (memcpy_from (_tx_data (cdc w)) tx_read tx_size) tx_size) w.

(** Lines 353-360: the packet in flight has left; its bytes leave the ring
    and the outstanding total. *)
Definition tx_ack (w : World) : World :=
  let c := cdc w in
  let tx_size := _tx_size c in
  let c := set_tx_read (mask CDC_TX_BUFFER_SIZE (u32 (_tx_read c + tx_size))) c in
  let c := set_tx_count (u32 (_tx_count c - tx_size)) c in
  let c := set_tx_total (u32 (_tx_total c - tx_size)) c in
  let c := set_tx_size 0 c in
  with_cdc (fun _ => c) w.

(** Lines 362-377: the next packet, if bytes are queued. *)
Definition tx_next (w : World) : World :=
  let c := cdc w in
  if negb (_tx_count c =? 0) then
    let tx_size := tx_clamp (_tx_count c) (_tx_read c) in
    transmit_from (_tx_read c) tx_size (with_cdc (set_tx_size tx_size) w)
  else w.

(** Lines 379-381: the all-sent notification. *)
Definition tx_notify (w : World) : World :=
  if (_tx_total (cdc w) =? 0) && _transmitCallback (cdc w)
  then call_transmitCallback w else w.

(** Lines 352-382: the transmit-complete branch. *)
Definition tx_complete (w : World) : World := tx_notify (tx_next (tx_ack w)).

Definition EventCallback (fuel : nat) (events : Z) (w : World)
  : outcome * World :=
  let (o, w1) :=
    if negb (Z.land events USBD_CDC_EVENT_RECEIVE =? 0)
    then rx_round fuel w else (Returned, w) in
  match o with
  | Spinning => (Spinning, w1)
  | Returned =>
      (Returned,
       if negb (Z.land events USBD_CDC_EVENT_TRANSMIT =? 0)
       then tx_complete w1 else w1)
  end.

(** ** read() *)

(** Program points are named by the source line they stand at. *)
Inductive rd1_pc : Type := R118 | R122 | R128 | R130.

Record rd1_frame : Type := mkRd1 {
  r1_pc : rd1_pc;
  r1_data : Z            (* the value returned at R130 *)
}.

Definition read1_call : rd1_frame := mkRd1 R118 0.

Definition read1_step (f : rd1_frame) (w : World) : rd1_frame * World :=
  let c := cdc w in
  match r1_pc f with
  | R118 =>
      if _rx_count c =? 0 then (mkRd1 R130 (-1), w) else (mkRd1 R122 0, w)
  | R122 =>
      let rx_read := _rx_read c in
      let data := nth (Z.to_nat rx_read) (_rx_data c) x00 in
      (mkRd1 R128 (byte_val data),
       with_cdc (set_rx_read (mask CDC_RX_BUFFER_SIZE (u32 (rx_read + 1)))) w)
  | R128 =>
      (mkRd1 R130 (r1_data f),
       with_cdc (set_rx_count (u32 (_rx_count c - 1))) w)
  | R130 => (f, w)
  end.

(** ** read(buffer, size) *)

Inductive rd_pc : Type := R140 | R142 | R148 | R159 | R162.

Record rd_frame : Type := mkRd {
  r_pc : rd_pc;
  r_size : Z;
  r_count : Z;
  r_rx_count : Z;
  r_buffer : list byte     (* what has been copied to buffer[0..count) *)
}.

Definition read_call (size : Z) : rd_frame := mkRd R140 size 0 0 [].

Definition read_step (f : rd_frame) (w : World) : rd_frame * World :=
  let c := cdc w in
  match r_pc f with
  | R140 =>
      if r_count f <? r_size f
      then (mkRd R142 (r_size f) (r_count f) (r_rx_count f) (r_buffer f), w)
      else (mkRd R162 (r_size f) (r_count f) (r_rx_count f) (r_buffer f), w)
  | R142 =>
      let rx_count := _rx_count c in
      if rx_count =? 0
      then (mkRd R162 (r_size f) (r_count f) rx_count (r_buffer f), w)
      else (mkRd R148 (r_size f) (r_count f) rx_count (r_buffer f), w)
  | R148 =>
      let rx_read := _rx_read c in
      let rx_count :=
        if r_rx_count f >? u32 (UART_RX_BUFFER_SIZE - rx_read)
        then u32 (UART_RX_BUFFER_SIZE - rx_read) else r_rx_count f in
      let bytes := memcpy_from (_rx_data c) rx_read rx_count in
      (mkRd R159 (r_size f) (u32 (r_count f + rx_count)) rx_count
            (r_buffer f ++ bytes),
       with_cdc
         (set_rx_read (mask CDC_RX_BUFFER_SIZE (u32 (rx_read + rx_count)))) w)
  | R159 =>
      (mkRd R140 (r_size f) (r_count f) (r_rx_count f) (r_buffer f),
       with_cdc (set_rx_count (u32 (_rx_count c - r_rx_count f))) w)
  | R162 => (f, w)
  end.

(** ** write(buffer, size) *)

Inductive wr_pc : Type :=
  | W188 | W189 | W193 | W201 | W205 | W207 | W212 | W213 | W214 | W224 | W226
  | W229 | W233 | W236 | W251 | W254 | W255 | W256 | W257 | W268 | W270
  | W275.

Record wr_frame : Type := mkWr {
  w_pc : wr_pc;
  w_ipsr : Z;              (* __get_IPSR(): 0 in thread mode *)
  w_buffer : list byte;
  w_size : Z;
  w_count : Z;
  w_tx_count : Z;
  w_tx_size : Z;
  w_tx_read : Z
}.

Definition wr_goto (pc : wr_pc) (f : wr_frame) : wr_frame :=
  mkWr pc (w_ipsr f) (w_buffer f) (w_size f) (w_count f) (w_tx_count f)
       (w_tx_size f) (w_tx_read f).
Definition wr_size (pc : wr_pc) (v : Z) (f : wr_frame) : wr_frame :=
  mkWr pc (w_ipsr f) (w_buffer f) v (w_count f) (w_tx_count f)
       (w_tx_size f) (w_tx_read f).
Definition wr_count (pc : wr_pc) (v : Z) (f : wr_frame) : wr_frame :=
  mkWr pc (w_ipsr f) (w_buffer f) (w_size f) v (w_tx_count f)
       (w_tx_size f) (w_tx_read f).
Definition wr_tx_count (pc : wr_pc) (v : Z) (f : wr_frame) : wr_frame :=
  mkWr pc (w_ipsr f) (w_buffer f) (w_size f) (w_count f) v
       (w_tx_size f) (w_tx_read f).
Definition wr_tx_size (pc : wr_pc) (v : Z) (f : wr_frame) : wr_frame :=
  mkWr pc (w_ipsr f) (w_buffer f) (w_size f) (w_count f) (w_tx_count f)
       v (w_tx_read f).
Definition wr_tx_read (pc : wr_pc) (v : Z) (f : wr_frame) : wr_frame :=
  mkWr pc (w_ipsr f) (w_buffer f) (w_size f) (w_count f) (w_tx_count f)
       (w_tx_size f) v.

Definition write_call (ipsr : Z) (buffer : list byte) : wr_frame :=
  mkWr W188 ipsr buffer (Z.of_nat (length buffer)) 0 0 0 0.

Definition call_yield (w : World) : World :=
  mkWorld (cdc w) (usbd w) (receive_calls w) (transmit_calls w)
          (S (yield_calls w)).

Definition write_step (f : wr_frame) (w : World) : wr_frame * World :=
  let c := cdc w in
  match w_pc f with
  | W188 =>
      if (usbd_state (usbd w) <? USBD_CDC_STATE_READY)
         || (Z.land (lineState (usbd w)) 2 =? 0)
      then (wr_goto W189 f, w)
      else (wr_goto W193 f, w)
  | W189 => (f, w)
  | W193 =>
      if negb (_blocking c) || negb (w_ipsr f =? 0) then
        let tx_count := _tx_count c in
        if w_size f >? u32 (CDC_TX_BUFFER_SIZE - tx_count)
        then (wr_size W201 (u32 (CDC_TX_BUFFER_SIZE - tx_count))
                (wr_tx_count W201 tx_count f), w)
        else (wr_tx_count W201 tx_count f, w)
      else (wr_goto W201 f, w)
  | W201 =>
      (wr_count W205 0 f,
       with_cdc (set_tx_total (u32 (_tx_total c + w_size f))) w)
  | W205 =>
      if w_count f <? w_size f then (wr_goto W207 f, w)
      else (wr_goto W254 f, w)
  | W207 =>
      let tx_count := u32 (CDC_TX_BUFFER_SIZE - _tx_count c) in
      if tx_count =? 0 then (wr_tx_count W212 tx_count f, w)
      else (wr_tx_count W236 tx_count f, w)
  | W212 =>
      if stm32l4_usbd_cdc_done (usbd w) then (wr_goto W213 f, w)
      else (wr_goto W229 f, w)
  | W213 => (wr_tx_size W214 (_tx_count c) f, w)
  | W214 =>
      let tx_read := _tx_read c in
      (wr_tx_size W224 (tx_clamp (w_tx_size f) tx_read)
         (wr_tx_read W224 tx_read f), w)
  | W224 => (wr_goto W226 f, with_cdc (set_tx_size (w_tx_size f)) w)
  | W226 => (wr_goto W229 f, transmit_from (w_tx_read f) (w_tx_size f) w)
  | W229 =>
      if CDC_TX_BUFFER_SIZE =? _tx_count c then (f, call_yield w)
      else (wr_goto W233 f, w)
  | W233 => (wr_tx_count W236 (u32 (CDC_TX_BUFFER_SIZE - _tx_count c)) f, w)
  | W236 =>
      let tx_write := _tx_write c in
      let tx_count := w_tx_count f in
      let tx_count :=
        if tx_count >? u32 (CDC_TX_BUFFER_SIZE - tx_write)
        then u32 (CDC_TX_BUFFER_SIZE - tx_write) else tx_count in
      let tx_count :=
        if tx_count >? u32 (w_size f - w_count f)
        then u32 (w_size f - w_count f) else tx_count in
      let bytes := memcpy_from (w_buffer f) (w_count f) tx_count in
      let c1 := set_tx_data (memcpy_to (_tx_data c) tx_write bytes) c in
      let c2 :=
        set_tx_write (mask CDC_TX_BUFFER_SIZE (u32 (tx_write + tx_count))) c1 in
      (wr_count W251 (u32 (w_count f + tx_count)) (wr_tx_count W251 tx_count f),
       with_cdc (fun _ => c2) w)
  | W251 =>
      (wr_goto W205 f,
       with_cdc (set_tx_count (u32 (_tx_count c + w_tx_count f))) w)
  | W254 =>
      if w_ipsr f =? 0 then (wr_goto W255 f, w) else (wr_goto W275 f, w)
  | W255 =>
      if stm32l4_usbd_cdc_done (usbd w) then (wr_goto W256 f, w)
      else (wr_goto W275 f, w)
  | W256 => (wr_tx_size W257 (_tx_count c) f, w)
  | W257 =>
      let tx_read := _tx_read c in
      if negb (w_tx_size f =? 0)
      then (wr_tx_size W268 (tx_clamp (w_tx_size f) tx_read)
              (wr_tx_read W268 tx_read f), w)
      else (wr_tx_read W275 tx_read f, w)
  | W268 => (wr_goto W270 f, with_cdc (set_tx_size (w_tx_size f)) w)
  | W270 => (wr_goto W275 f, transmit_from (w_tx_read f) (w_tx_size f) w)
  | W275 => (f, w)
  end.

(** ** Calls run without interruption

    [n] steps of a call, and a call run until it returns.  An interrupt
    handler that calls [write] runs it this way, and so does the foreground
    while no event arrives. *)
Fixpoint write_steps (n : nat) (f : wr_frame) (w : World)
  : wr_frame * World :=
  match n with
  | O => (f, w)
  | S n' => let (f', w') := write_step f w in write_steps n' f' w'
  end.

(** The two return statements: [return 0] of line 189 and [return count]
    of line 275. *)
Definition wr_returned (f : wr_frame) : bool :=
  match w_pc f with W189 | W275 => true | _ => false end.

Definition wr_result (f : wr_frame) : Z :=
  match w_pc f with W189 => 0 | _ => w_count f end.

Fixpoint write_run (fuel : nat) (f : wr_frame) (w : World)
  : option (Z * World) :=
  if wr_returned f then Some (wr_result f, w)
  else match fuel with
       | O => None
       | S fuel' => let (f', w') := write_step f w in write_run fuel' f' w'
       end.

Definition write (fuel : nat) (ipsr : Z) (buffer : list byte) (w : World)
  : option (Z * World) :=
  write_run fuel (write_call ipsr buffer) w.

(** [write(const uint8_t data)] is [write(&data, 1)]. *)
Definition write1 (fuel : nat) (ipsr : Z) (data : byte) (w : World)
  : option (Z * World) :=
  write fuel ipsr [data] w.

Definition rd_returned (f : rd_frame) : bool :=
  match r_pc f with R162 => true | _ => false end.

(** The result of the bulk read: the count returned and the bytes stored
    through [buffer]. *)
Fixpoint read_run (fuel : nat) (f : rd_frame) (w : World)
  : option (Z * list byte * World) :=
  if rd_returned f then Some (r_count f, r_buffer f, w)
  else match fuel with
       | O => None
       | S fuel' => let (f', w') := read_step f w in read_run fuel' f' w'
       end.

Definition read (fuel : nat) (size : Z) (w : World)
  : option (Z * list byte * World) :=
  read_run fuel (read_call size) w.

Definition rd1_returned (f : rd1_frame) : bool :=
  match r1_pc f with R130 => true | _ => false end.

Fixpoint read1_run (fuel : nat) (f : rd1_frame) (w : World)
  : option (Z * World) :=
  if rd1_returned f then Some (r1_data f, w)
  else match fuel with
       | O => None
       | S fuel' => let (f', w') := read1_step f w in read1_run fuel' f' w'
       end.

Definition read1 (fuel : nat) (w : World) : option (Z * World) :=
  read1_run fuel read1_call w.

(** ** Construction *)

(** The constructor: indices and counters zero, blocking on, no callback.
    The arrays are not initialised by the code; they start as zeroes here. *)
Definition CDC_new : CDC :=
  mkCDC true
        (repeat x00 (Z.to_nat CDC_RX_BUFFER_SIZE)) 0 0 0
        (repeat x00 (Z.to_nat CDC_TX_BUFFER_SIZE)) 0 0 0 0 0
        false false.

(** A stack in state [st] with line state [ls], nothing buffered, nothing
    in flight. *)
Definition usbd_idle (st ls : Z) : usbd_cdc_t := mkUsbd st ls [] false [].

Definition World_new (st ls : Z) : World :=
  mkWorld CDC_new (usbd_idle st ls) [] 0 0.

(** ** The foreground and the device stack together

    One foreground thread makes the calls, so that each ring has one
    producer and one consumer; the stack interrupts it between any two
    steps, queues what it received, reports a completed packet, and runs
    the event callback to its end.  An event carries the transmit bit only
    when a packet in flight has completed. *)
Inductive frame : Type :=
  | Idle
  | InWrite (f : wr_frame)
  | InRead (f : rd_frame)
  | InRead1 (f : rd1_frame).

Record System : Type := mkSys {
  world : World;
  fg : frame;
  write_returns : list Z     (* what the calls of write returned so far *)
}.

(** Modelled from the spec: what the stack does before it invokes the
    callback.  Received bytes join its buffer; an event that carries the
    transmit bit reports the packet in flight as complete. *)
Definition usbd_event (data : list byte) (events : Z) (u : usbd_cdc_t)
  : usbd_cdc_t :=
  mkUsbd (usbd_state u) (lineState u) (rx_fifo u ++ data)
         (if negb (Z.land events USBD_CDC_EVENT_TRANSMIT =? 0) then false
          else tx_busy u)
         (tx_log u).

Definition usbd_line (st ls : Z) (u : usbd_cdc_t) : usbd_cdc_t :=
  mkUsbd st ls (rx_fifo u) (tx_busy u) (tx_log u).

(** A caller's buffer and the transmit ring both lie in the 32-bit address
    space. *)
Definition buffer_ok (buffer : list byte) : Prop :=
  Z.of_nat (length buffer) + CDC_TX_BUFFER_SIZE < 2 ^ 32.

Inductive step : System -> System -> Prop :=
  | step_call_write w rets buffer :
      buffer_ok buffer ->
      step (mkSys w Idle rets) (mkSys w (InWrite (write_call 0 buffer)) rets)
  | step_write w f rets :
      wr_returned f = false ->
      step (mkSys w (InWrite f) rets)
           (mkSys (snd (write_step f w)) (InWrite (fst (write_step f w))) rets)
  | step_ret_write w f rets :
      wr_returned f = true ->
      step (mkSys w (InWrite f) rets) (mkSys w Idle (rets ++ [wr_result f]))
  | step_call_read w rets size :
      0 <= size < 2 ^ 32 ->
      step (mkSys w Idle rets) (mkSys w (InRead (read_call size)) rets)
  | step_read w f rets :
      rd_returned f = false ->
      step (mkSys w (InRead f) rets)
           (mkSys (snd (read_step f w)) (InRead (fst (read_step f w))) rets)
  | step_ret_read w f rets :
      rd_returned f = true ->
      step (mkSys w (InRead f) rets) (mkSys w Idle rets)
  | step_call_read1 w rets :
      step (mkSys w Idle rets) (mkSys w (InRead1 read1_call) rets)
  | step_read1 w f rets :
      rd1_returned f = false ->
      step (mkSys w (InRead1 f) rets)
           (mkSys (snd (read1_step f w)) (InRead1 (fst (read1_step f w))) rets)
  | step_ret_read1 w f rets :
      rd1_returned f = true ->
      step (mkSys w (InRead1 f) rets) (mkSys w Idle rets)
  | step_blockOnOverrun w rets block :
      step (mkSys w Idle rets) (mkSys (blockOnOverrun block w) Idle rets)
  | step_onReceive w rets callback :
      step (mkSys w Idle rets) (mkSys (onReceive callback w) Idle rets)
  | step_onTransmit w rets callback :
      step (mkSys w Idle rets) (mkSys (onTransmit callback w) Idle rets)
  | step_line w f rets st ls :
      step (mkSys w f rets) (mkSys (with_usbd (usbd_line st ls) w) f rets)
  | step_event w f rets data events fuel w' :
      (Z.land events USBD_CDC_EVENT_TRANSMIT <> 0 -> tx_busy (usbd w) = true) ->
      EventCallback fuel events (with_usbd (usbd_event data events) w)
        = (Returned, w') ->
      step (mkSys w f rets) (mkSys w' f rets).

Inductive reachable : System -> Prop :=
  | reach_new st ls : reachable (mkSys (World_new st ls) Idle [])
  | reach_step s s' : reachable s -> step s s' -> reachable s'.

(** ** Invariants *)

Definition config_ok : Prop :=
  0 < CDC_RX_BUFFER_SIZE < 2 ^ 31 /\ 0 < CDC_TX_BUFFER_SIZE < 2 ^ 31.

Definition rx_ok (c : CDC) : Prop :=
  0 <= _rx_read c < CDC_RX_BUFFER_SIZE
  /\ 0 <= _rx_write c < CDC_RX_BUFFER_SIZE
  /\ 0 <= _rx_count c <= CDC_RX_BUFFER_SIZE.

(** What a read in progress knows about the receive count. *)
Definition rd_ok (c : CDC) (f : frame) : Prop :=
  match f with
  | InRead f =>
      match r_pc f with
      | R148 | R159 => 0 <= r_rx_count f <= _rx_count c
      | _ => True
      end
  | InRead1 f =>
      match r1_pc f with
      | R122 | R128 => 1 <= _rx_count c
      | _ => True
      end
  | _ => True
  end.

Definition tx_ok (c : CDC) : Prop :=
  0 <= _tx_read c < CDC_TX_BUFFER_SIZE
  /\ 0 <= _tx_write c < CDC_TX_BUFFER_SIZE
  /\ 0 <= _tx_size c <= _tx_count c
  /\ _tx_count c <= CDC_TX_BUFFER_SIZE.

(** Bytes of the call in progress that [_tx_total] counts and [_tx_count]
    does not yet. *)
Definition pending (f : frame) : Z :=
  match f with
  | InWrite f =>
      match w_pc f with
      | W188 | W189 | W193 | W201 => 0
      | W251 => w_size f - w_count f + w_tx_count f
      | _ => w_size f - w_count f
      end
  | _ => 0
  end.

(** Bytes the call in progress has added to [_tx_count]. *)
Definition queued (f : frame) : Z :=
  match f with
  | InWrite f =>
      match w_pc f with
      | W251 => w_count f - w_tx_count f
      | W189 => 0
      | _ => w_count f
      end
  | _ => 0
  end.

(** What a write in progress knows, by program point. *)
Definition wr_ok (c : CDC) (u : usbd_cdc_t) (f : wr_frame) : Prop :=
  w_ipsr f = 0
  /\ 0 <= w_size f <= Z.of_nat (length (w_buffer f))
  /\ buffer_ok (w_buffer f)
  /\ match w_pc f with
     | W188 | W189 | W193 | W201 => w_count f = 0
     | W205 => 0 <= w_count f <= w_size f
     | W207 | W212 => 0 <= w_count f < w_size f
     | W229 =>
         0 <= w_count f < w_size f
         /\ (tx_busy u = true \/ _tx_count c < CDC_TX_BUFFER_SIZE)
     | W233 => 0 <= w_count f < w_size f /\ _tx_count c < CDC_TX_BUFFER_SIZE
     | W213 => 0 <= w_count f < w_size f /\ tx_busy u = false
     | W214 =>
         0 <= w_count f < w_size f /\ tx_busy u = false
         /\ w_tx_size f = _tx_count c
     | W224 =>
         0 <= w_count f < w_size f /\ tx_busy u = false
         /\ 0 <= w_tx_size f <= _tx_count c
         /\ w_tx_size f <= u32 CDC_TX_PACKET_SIZE
     | W226 =>
         0 <= w_count f < w_size f /\ tx_busy u = false
         /\ w_tx_size f = _tx_size c
         /\ w_tx_size f <= u32 CDC_TX_PACKET_SIZE
     | W236 =>
         0 <= w_count f < w_size f
         /\ 1 <= w_tx_count f <= CDC_TX_BUFFER_SIZE - _tx_count c
     | W251 =>
         1 <= w_tx_count f <= CDC_TX_BUFFER_SIZE - _tx_count c
         /\ w_tx_count f <= w_count f <= w_size f
     | W254 | W255 | W275 => w_count f = w_size f
     | W256 => w_count f = w_size f /\ tx_busy u = false
     | W257 =>
         w_count f = w_size f /\ tx_busy u = false
         /\ w_tx_size f = _tx_count c
     | W268 =>
         w_count f = w_size f /\ tx_busy u = false
         /\ 0 <= w_tx_size f <= _tx_count c
         /\ w_tx_size f <= u32 CDC_TX_PACKET_SIZE
         /\ 1 <= _tx_count c
     | W270 =>
         w_count f = w_size f /\ tx_busy u = false
         /\ w_tx_size f = _tx_size c
         /\ w_tx_size f <= u32 CDC_TX_PACKET_SIZE
         /\ 1 <= _tx_count c
     end.

Definition fg_ok (c : CDC) (u : usbd_cdc_t) (f : frame) : Prop :=
  match f with InWrite f => wr_ok c u f | _ => True end.

(** The call in progress will still look whether a packet must be
    started (lines 212 and 255 lie ahead, or the packet is being built). *)
Definition kick_ahead (f : frame) : bool :=
  match f with
  | InWrite f =>
      match w_pc f with
      | W188 | W189 | W193 | W201 | W275 => false
      | _ => true
      end
  | _ => false
  end.

Definition sum_Z (l : list Z) : Z := fold_right Z.add 0 l.

(** The lengths passed to the transmit calls so far. *)
Definition tx_lens (u : usbd_cdc_t) : list Z := map fst (tx_log u).

(** The length of the packet in flight. *)
Definition in_flight (c : CDC) (u : usbd_cdc_t) : Z :=
  if tx_busy u then _tx_size c else 0.

Definition sys_inv (s : System) : Prop :=
  let c := cdc (world s) in
  let u := usbd (world s) in
  rx_ok c /\ rd_ok c (fg s)
  /\ tx_ok c /\ fg_ok c u (fg s)
  /\ _tx_total c = _tx_count c + pending (fg s)
  /\ Forall (fun n => 0 <= n <= u32 CDC_TX_PACKET_SIZE) (tx_lens u)
  /\ sum_Z (tx_lens u) + _tx_count c - in_flight c u
     = sum_Z (write_returns s) + queued (fg s)
  /\ (tx_busy u = true -> 1 <= _tx_total c)
  /\ (tx_busy u = true \/ _tx_count c = 0 \/ kick_ahead (fg s) = true).

(** Both occupancy counts lie within the capacity of their ring. *)
Definition counts_ok (w : World) : Prop :=
  0 <= _rx_count (cdc w) <= CDC_RX_BUFFER_SIZE
  /\ 0 <= _tx_count (cdc w) <= CDC_TX_BUFFER_SIZE.

(** Everything the receive branch of the callback leaves alone. *)
Definition tx_part (w : World) :=
  let c := cdc w in
  let u := usbd w in
  (_blocking c, _tx_data c, _tx_read c, _tx_write c, _tx_size c, _tx_count c,
   _tx_total c, _transmitCallback c, _receiveCallback c,
   (usbd_state u, lineState u, tx_busy u, tx_log u, transmit_calls w,
    yield_calls w)).

(** [w'] differs from [w] by received bytes only. *)
Definition rx_only (w w' : World) : Prop :=
  tx_part w' = tx_part w
  /\ _rx_read (cdc w') = _rx_read (cdc w)
  /\ _rx_count (cdc w) <= _rx_count (cdc w')
  /\ rx_ok (cdc w').

(** ** A write that may not block

    Lines 209-234: the branch taken when the ring is full, which holds the
    yield loop. *)
Definition in_full_branch (pc : wr_pc) : bool :=
  match pc with
  | W212 | W213 | W214 | W224 | W226 | W229 | W233 => true
  | _ => false
  end.

(** The rings wrap by a mask: their size is a power of two. *)
Definition tx_pow2 : Prop :=
  CDC_TX_BUFFER_SIZE = 2 ^ Z.log2 CDC_TX_BUFFER_SIZE.

(** What holds along a write with blocking off, or made from an interrupt
    handler, that found [free0] bytes of room and is not interrupted. *)
Definition nb_ok (free0 : Z) (w : World) (f : wr_frame) : Prop :=
  let c := cdc w in
  let size0 := Z.of_nat (length (w_buffer f)) in
  let room := CDC_TX_BUFFER_SIZE - _tx_count c in
  (_blocking c = false \/ w_ipsr f <> 0)
  /\ buffer_ok (w_buffer f)
  /\ 0 <= _tx_write c < CDC_TX_BUFFER_SIZE
  /\ 0 <= free0 <= CDC_TX_BUFFER_SIZE
  /\ match w_pc f with
     | W188 =>
         w_size f = size0 /\ room = free0
         /\ USBD_CDC_STATE_READY <= usbd_state (usbd w)
         /\ Z.land (lineState (usbd w)) 2 <> 0
     | W193 => w_size f = size0 /\ room = free0
     | W201 => w_size f = Z.min size0 free0 /\ room = free0
     | W205 =>
         w_size f = Z.min size0 free0
         /\ 0 <= w_count f <= w_size f /\ room = free0 - w_count f
     | W207 =>
         w_size f = Z.min size0 free0
         /\ 0 <= w_count f < w_size f /\ room = free0 - w_count f
     | W236 =>
         w_size f = Z.min size0 free0
         /\ 0 <= w_count f < w_size f /\ room = free0 - w_count f
         /\ w_tx_count f = room
     | W251 =>
         w_size f = Z.min size0 free0
         /\ 1 <= w_tx_count f <= w_count f /\ w_count f <= w_size f
         /\ room = free0 - w_count f + w_tx_count f
     | W254 | W255 | W256 | W257 | W268 | W270 | W275 =>
         w_size f = Z.min size0 free0 /\ w_count f = w_size f
     | W189 | W212 | W213 | W214 | W224 | W226 | W229 | W233 => False
     end.

(** Rounds of the copy loop still to run: the bytes left fit before the
    end of the array, or take one more round after the wrap. *)
Definition wr_rounds (w : World) (f : wr_frame) : Z :=
  if w_size f <=? w_count f then 0
  else if w_size f - w_count f <=? CDC_TX_BUFFER_SIZE - _tx_write (cdc w)
       then 1 else 2.

(** A bound on the steps left to the return. *)
Definition wr_rank (w : World) (f : wr_frame) : Z :=
  match w_pc f with
  | W188 => 30 | W193 => 29 | W201 => 28
  | W205 => 8 + 4 * wr_rounds w f
  | W207 => 7 + 4 * wr_rounds w f
  | W236 => 6 + 4 * wr_rounds w f
  | W251 => 9 + 4 * wr_rounds w f
  | W254 => 7 | W255 => 6 | W256 => 5 | W257 => 4 | W268 => 3 | W270 => 2
  | W189 | W275 => 0
  | W212 | W213 | W214 | W224 | W226 | W229 | W233 => 0
  end.

(** The stack invokes the callback: [data] has arrived, and the packet in
    flight is complete if [events] says so. *)
Definition usbd_callback (fuel : nat) (data : list byte) (events : Z)
    (w : World) : outcome * World :=
  EventCallback fuel events (with_usbd (usbd_event data events) w).

(** ** A write driven to its end

    The device-stack stub of the spec: the packet in flight completes while
    the writer yields in the loop of line 229, and after the write has
    returned, until nothing is in flight. *)

(** The two event bits are distinct. *)
Definition events_ok : Prop :=
  USBD_CDC_EVENT_TRANSMIT <> 0
  /\ Z.land USBD_CDC_EVENT_TRANSMIT USBD_CDC_EVENT_RECEIVE = 0.

(** The FIFO size is a positive [int] that can be rounded up. *)
Definition fifo_ok : Prop := 0 < USBD_CDC_FIFO_SIZE < 2 ^ 31 - 64.

(** The stack reports the packet in flight as complete. *)
Definition device_completes (w : World) : World :=
  snd (usbd_callback 0 [] USBD_CDC_EVENT_TRANSMIT w).

(** The write is in the yield loop and the ring is still full. *)
Definition spinning (f : wr_frame) (w : World) : bool :=
  match w_pc f with
  | W229 => CDC_TX_BUFFER_SIZE =? _tx_count (cdc w)
  | _ => false
  end.

Definition drive_step (s : System) : System :=
  let w := world s in
  match fg s with
  | InWrite f =>
      if wr_returned f
      then mkSys w Idle (write_returns s ++ [wr_result f])
      else if spinning f w && tx_busy (usbd w)
      then mkSys (device_completes w) (InWrite f) (write_returns s)
      else mkSys (snd (write_step f w)) (InWrite (fst (write_step f w)))
                 (write_returns s)
  | Idle =>
      if tx_busy (usbd w)
      then mkSys (device_completes w) Idle (write_returns s)
      else s
  | _ => s
  end.

Fixpoint drive (n : nat) (s : System) : System :=
  match n with
  | O => s
  | S n' => drive n' (drive_step s)
  end.

(** The call has returned and the stack has nothing in flight. *)
Definition settled (s : System) : bool :=
  match fg s with
  | Idle => negb (tx_busy (usbd (world s)))
  | _ => false
  end.

(** What holds along a driven write of [buffer], begun with blocking
    [bl0], the returns [rets0] and the transmitted lengths [lens0]. *)
Definition drive_ok (bl0 : bool) (buffer : list byte) (rets0 lens0 : list Z)
    (s : System) : Prop :=
  let c := cdc (world s) in
  let u := usbd (world s) in
  let len := Z.of_nat (length buffer) in
  sys_inv s
  /\ _blocking c = bl0
  /\ (tx_busy u = true -> 1 <= _tx_size c)
  /\ (exists chunks, tx_lens u = lens0 ++ chunks)
  /\ match fg s with
     | Idle =>
         exists r, write_returns s = rets0 ++ [r] /\ (bl0 = true -> r = len)
     | InWrite f =>
         write_returns s = rets0 /\ w_buffer f = buffer
         /\ match w_pc f with
            | W188 =>
                w_size f = len
                /\ USBD_CDC_STATE_READY <= usbd_state u
                /\ Z.land (lineState u) 2 <> 0
            | W189 => False
            | W193 => w_size f = len
            | W212 | W213 | W214 =>
                (bl0 = true -> w_size f = len)
                /\ _tx_count c = CDC_TX_BUFFER_SIZE
            | W224 | W226 | W268 | W270 =>
                (bl0 = true -> w_size f = len) /\ 1 <= w_tx_size f
            | _ => bl0 = true -> w_size f = len
            end
     | _ => False
     end.

(** Bytes of the driven write that are not yet in the ring. *)
Definition to_queue (f : frame) : Z :=
  match f with
  | InWrite f =>
      match w_pc f with
      | W188 | W193 | W201 => w_size f
      | W189 => 0
      | _ => pending (InWrite f)
      end
  | _ => 0
  end.

Definition pc_rank (f : frame) : Z :=
  match f with
  | InWrite f =>
      match w_pc f with
      | W188 => 40 | W193 => 39 | W201 => 38 | W205 => 37 | W207 => 36
      | W212 => 35 | W213 => 34 | W214 => 33 | W224 => 32 | W226 => 31
      | W229 => 30 | W233 => 29 | W236 => 28 | W251 => 27
      | W254 => 20 | W255 => 19 | W256 => 18 | W257 => 17 | W268 => 16
      | W270 => 15 | W189 | W275 => 1
      end
  | _ => 0
  end.

(** A bound on the steps of the drive that are left. *)
Definition drive_measure (s : System) : Z :=
  64 * (2 * to_queue (fg s) + _tx_count (cdc (world s))) + pc_rank (fg s).

(** Bytes received and not yet read: in the ring or still with the
    stack. *)
Definition rx_backlog (w : World) : Z :=
  Z.of_nat (length (rx_fifo (usbd w))) + _rx_count (cdc w).

(** ** Line state and emptiness *)

Definition dtr (w : World) : bool := negb (Z.land (lineState (usbd w)) 1 =? 0).

Definition rts (w : World) : bool := negb (Z.land (lineState (usbd w)) 2 =? 0).

(** [SerialUSB_empty]: the negation of [available]. *)
Definition SerialUSB_empty (w : World) : bool := available w =? 0.

(** ** flush() *)

Inductive fl_pc : Type := F167 | F168 | F172 | F176.

Record fl_frame : Type := mkFl {
  f_pc : fl_pc;
  f_ipsr : Z               (* __get_IPSR(): 0 in thread mode *)
}.

Definition flush_call (ipsr : Z) : fl_frame := mkFl F167 ipsr.

Definition flush_step (f : fl_frame) (w : World) : fl_frame * World :=
  match f_pc f with
  | F167 =>
      if f_ipsr f =? 0 then (mkFl F168 (f_ipsr f), w)
      else (mkFl F176 (f_ipsr f), w)
  | F168 =>
      if negb (_tx_count (cdc w) =? 0) then (f, call_yield w)
      else (mkFl F172 (f_ipsr f), w)
  | F172 =>
      if negb (stm32l4_usbd_cdc_done (usbd w)) then (f, call_yield w)
      else (mkFl F176 (f_ipsr f), w)
  | F176 => (f, w)
  end.

Definition fl_returned (f : fl_frame) : bool :=
  match f_pc f with F176 => true | _ => false end.

Fixpoint flush_run (fuel : nat) (f : fl_frame) (w : World) : option World :=
  if fl_returned f then Some w
  else match fuel with
       | O => None
       | S fuel' => let (f', w') := flush_step f w in flush_run fuel' f' w'
       end.

Definition flush (fuel : nat) (ipsr : Z) (w : World) : option World :=
  flush_run fuel (flush_call ipsr) w.

(** The next step of the flush is a yield. *)
Definition fl_waiting (f : fl_frame) (w : World) : bool :=
  match f_pc f with
  | F168 => negb (_tx_count (cdc w) =? 0)
  | F172 => negb (stm32l4_usbd_cdc_done (usbd w))
  | _ => false
  end.

(** A flush driven by the device: the packet in flight completes while
    the flush yields. *)
Fixpoint flush_drive (fuel : nat) (f : fl_frame) (w : World) : option World :=
  if fl_returned f then Some w
  else match fuel with
       | O => None
       | S fuel' =>
           let (f', w') := flush_step f w in
           flush_drive fuel' f'
             (if fl_waiting f w && tx_busy (usbd w)
              then device_completes w' else w')
       end.

(** A bound on the steps of a driven flush. *)
Definition flush_measure (f : fl_frame) (w : World) : Z :=
  3 * _tx_count (cdc w)
  + (if tx_busy (usbd w) then if _tx_size (cdc w) =? 0 then 2 else 1 else 0)
  + match f_pc f with F167 => 3 | F168 => 2 | F172 => 1 | F176 => 0 end.

(** ** A blocking write without the device

    What holds along a write with blocking on, made from thread mode, that
    is larger than the room in the ring, while no event arrives. *)
Definition bl_ok (w : World) (f : wr_frame) : Prop :=
  let c := cdc w in
  _blocking c = true /\ w_ipsr f = 0
  /\ buffer_ok (w_buffer f)
  /\ w_size f = Z.of_nat (length (w_buffer f))
  /\ 0 <= _tx_write c < CDC_TX_BUFFER_SIZE
  /\ 0 <= _tx_count c <= CDC_TX_BUFFER_SIZE
  /\ CDC_TX_BUFFER_SIZE - _tx_count c < to_queue (InWrite f)
  /\ match w_pc f with
     | W188 =>
         USBD_CDC_STATE_READY <= usbd_state (usbd w)
         /\ Z.land (lineState (usbd w)) 2 <> 0
     | W193 | W201 => True
     | W205 | W207 | W212 | W213 | W214 | W224 | W226 | W229 | W233 =>
         0 <= w_count f <= w_size f
     | W236 =>
         0 <= w_count f <= w_size f
         /\ 0 <= w_tx_count f <= CDC_TX_BUFFER_SIZE - _tx_count c
     | W251 =>
         0 <= w_tx_count f <= w_count f /\ w_count f <= w_size f
         /\ w_tx_count f <= CDC_TX_BUFFER_SIZE - _tx_count c
     | W189 | W254 | W255 | W256 | W257 | W268 | W270 | W275 => False
     end.

(** ** What a write that may not block changes

    The state [w] of such a write begun in [w0], by program point. *)
Definition nb_effect (w0 w : World) (f : wr_frame) : Prop :=
  let c := cdc w in
  _tx_count c = _tx_count (cdc w0) + queued (InWrite f)
  /\ _tx_total c
     = _tx_total (cdc w0)
       + match w_pc f with W188 | W189 | W193 | W201 => 0 | _ => w_size f end
  /\ usbd_state (usbd w) = usbd_state (usbd w0)
  /\ (w_ipsr f <> 0 -> usbd w = usbd w0)
  /\ match w_pc f with
     | W255 | W256 | W268 | W270 => w_ipsr f = 0
     | W257 => w_ipsr f = 0 /\ w_tx_size f = _tx_count c
     | W275 => w_ipsr f = 0 -> 1 <= w_count f -> tx_busy (usbd w) = true
     | _ => True
     end.

(** ** The size of a write in progress

    The size is that of the buffer until it is clamped at line 193, and
    stays so when blocking is on. *)
Definition size_inv (s : System) : Prop :=
  match fg s with
  | InWrite f =>
      let len := Z.of_nat (length (w_buffer f)) in
      match w_pc f with
      | W188 | W189 | W193 => w_size f = len
      | _ => _blocking (cdc (world s)) = true -> w_size f = len
      end
  | _ => True
  end.

(** ** A flush driven to its end

    What holds along a flush in thread mode that the device drives, when
    the lengths handed to the device and the bytes queued and not in
    flight sum to [total]. *)
Definition flush_ok (total : Z) (f : fl_frame) (w : World) : Prop :=
  f_ipsr f = 0
  /\ tx_ok (cdc w)
  /\ (tx_busy (usbd w) = true \/ _tx_count (cdc w) = 0)
  /\ sum_Z (tx_lens (usbd w)) + _tx_count (cdc w) - in_flight (cdc w) (usbd w)
     = total
  /\ match f_pc f with
     | F172 => _tx_count (cdc w) = 0
     | F176 => done w = true
     | _ => True
     end.

(** ** The contents of the rings *)

(** The [count] bytes of a ring of [size] slots from the index [read] on,
    oldest first; the index wraps at the end of the array. *)
Definition ring (size : Z) (data : list byte) (read count : Z) : list byte :=
  map (fun i => nth (Z.to_nat ((read + Z.of_nat i) mod size)) data x00)
      (seq 0 (Z.to_nat count)).

(** Received and not yet read. *)
Definition rx_ring (w : World) : list byte :=
  ring CDC_RX_BUFFER_SIZE (_rx_data (cdc w)) (_rx_read (cdc w))
       (_rx_count (cdc w)).

(** Written and not yet acknowledged by the device. *)
Definition tx_ring (w : World) : list byte :=
  ring CDC_TX_BUFFER_SIZE (_tx_data (cdc w)) (_tx_read (cdc w))
       (_tx_count (cdc w)).

Definition rx_pow2 : Prop :=
  CDC_RX_BUFFER_SIZE = 2 ^ Z.log2 CDC_RX_BUFFER_SIZE.

(** The receive ring between two calls: the array has its size and the
    write index lies [_rx_count] slots after the read index. *)
Definition rx_wf (w : World) : Prop :=
  rx_ok (cdc w)
  /\ length (_rx_data (cdc w)) = Z.to_nat CDC_RX_BUFFER_SIZE
  /\ _rx_write (cdc w)
     = (_rx_read (cdc w) + _rx_count (cdc w)) mod CDC_RX_BUFFER_SIZE.

(** Received and not yet read, in the ring or still with the stack. *)
Definition rx_stream (w : World) : list byte := rx_ring w ++ rx_fifo (usbd w).

(** Pulls left until the receive ring is full, when the stack holds
    enough: the free span reaches the end of the array or wraps once. *)
Definition rx_rounds (w : World) : Z :=
  if CDC_RX_BUFFER_SIZE - _rx_count (cdc w) =? 0 then 0
  else if CDC_RX_BUFFER_SIZE - _rx_count (cdc w)
          <=? CDC_RX_BUFFER_SIZE - _rx_write (cdc w) then 1 else 2.

(** Every byte handed to the device, in order. *)
Definition wire (u : usbd_cdc_t) : list byte := concat (map snd (tx_log u)).

(** ** The arrays through the interleavings *)

(** Bytes the call in progress has copied to the ring and not yet added
    to [_tx_count]. *)
Definition unqueued (f : frame) : Z :=
  match f with
  | InWrite f => match w_pc f with W251 => w_tx_count f | _ => 0 end
  | _ => 0
  end.

(** What a write in progress knows about the transmit array: the packet
    it is about to hand over starts at the read index and ends inside the
    array; the chunk it has just copied lies behind the ring. *)
Definition wr_data_ok (c : CDC) (f : frame) : Prop :=
  match f with
  | InWrite f =>
      match w_pc f with
      | W224 | W226 | W268 | W270 =>
          w_tx_read f = _tx_read c
          /\ w_tx_size f <= CDC_TX_BUFFER_SIZE - _tx_read c
      | W251 =>
          let off := (_tx_read c + _tx_count c) mod CDC_TX_BUFFER_SIZE in
          off + w_tx_count f <= CDC_TX_BUFFER_SIZE
          /\ memcpy_from (_tx_data c) off (w_tx_count f)
             = memcpy_from (w_buffer f) (w_count f - w_tx_count f)
                           (w_tx_count f)
      | _ => True
      end
  | _ => True
  end.

Definition data_inv (s : System) : Prop :=
  let c := cdc (world s) in
  let u := usbd (world s) in
  length (_rx_data c) = Z.to_nat CDC_RX_BUFFER_SIZE
  /\ length (_tx_data c) = Z.to_nat CDC_TX_BUFFER_SIZE
  /\ _tx_write c
     = (_tx_read c + _tx_count c + unqueued (fg s)) mod CDC_TX_BUFFER_SIZE
  /\ Forall (fun e => Z.of_nat (length (snd e)) = fst e) (tx_log u)
  /\ wr_data_ok c (fg s).

(** Bytes the read in progress has stepped the read index over and not
    yet taken off [_rx_count]. *)
Definition rx_adj (f : frame) : Z :=
  match f with
  | InRead f => match r_pc f with R159 => r_rx_count f | _ => 0 end
  | InRead1 f => match r1_pc f with R128 => 1 | _ => 0 end
  | _ => 0
  end.

(** The receive ring through the interleavings: the array has its size,
    and the write index lies [_rx_count] slots after the read index, less
    what a read in progress has stepped over. *)
Definition rx_inv (s : System) : Prop :=
  let c := cdc (world s) in
  length (_rx_data c) = Z.to_nat CDC_RX_BUFFER_SIZE
  /\ _rx_write c
     = (_rx_read c + _rx_count c - rx_adj (fg s)) mod CDC_RX_BUFFER_SIZE.

(** The bytes handed to the device, followed by those of the ring that
    are not in flight. *)
Definition tx_stream (w : World) : list byte :=
  wire (usbd w)
  ++ skipn (Z.to_nat (in_flight (cdc w) (usbd w))) (tx_ring w).

(** The bytes of its buffer that the call in progress has added to the
    ring. *)
Definition tx_queued (f : frame) : list byte :=
  match f with
  | InWrite f => firstn (Z.to_nat (queued (InWrite f))) (w_buffer f)
  | _ => []
  end.

(** The bytes a returning write has accepted. *)
Definition returned_bytes (s s' : System) : list byte :=
  match fg s, fg s' with
  | InWrite f, Idle => firstn (Z.to_nat (wr_result f)) (w_buffer f)
  | _, _ => []
  end.

(** A reachable state, with the bytes accepted by the writes that have
    returned, in the order of the calls. *)
Inductive history : System -> list byte -> Prop :=
  | hist_new st ls : history (mkSys (World_new st ls) Idle []) []
  | hist_step s s' h :
      history s h -> step s s' -> history s' (h ++ returned_bytes s s').

End Model.

(** ** A concrete configuration

    Both rings of 64 bytes, a FIFO of one 64-byte packet (so a packet
    ceiling of 63), the receive clamp of [read] at the ring size. *)
Definition cfg64 : Config := {|
  CDC_RX_BUFFER_SIZE := 64;
  CDC_TX_BUFFER_SIZE := 64;
  UART_RX_BUFFER_SIZE := 64;
  USBD_CDC_FIFO_SIZE := 64;
  USBD_CDC_STATE_READY := 3;
  USBD_CDC_EVENT_RECEIVE := 1;
  USBD_CDC_EVENT_TRANSMIT := 2
|}.

(** The bytes [n, n+1, ..., n+k-1] (modulo 256). *)
Definition bytes_from (n k : nat) : list byte :=
  map (fun i => match Byte.of_N (N.of_nat (i mod 256)) with
                | Some b => b | None => x00 end) (seq n k).


(** ** Worlds of [cfg64] *)

(** Constructed; device ready, DTR and RTS asserted. *)
Definition ready64 : World := World_new (cfg := cfg64) 3 3.

(** Constructed; device still below ready. *)
Definition init64 : World := World_new (cfg := cfg64) 1 3.

(** Five bytes have arrived for an empty receive ring. *)
Definition starved64 : World :=
  with_usbd (usbd_event (cfg := cfg64) (bytes_from 1 5) 1) ready64.

(** A receive callback is registered; nothing has arrived. *)
Definition notify64 : World := onReceive true ready64.

(** The receive ring after an event that delivered 64 bytes: full. *)
Definition rx_full64 : World :=
  snd (usbd_callback (cfg := cfg64) 3 (bytes_from 1 64) 1 ready64).

(** Three bytes written, ... *)
Definition written64 : World :=
  match write (cfg := cfg64) 30 0 (bytes_from 1 3) ready64 with
  | Some (_, w) => w
  | None => ready64
  end.

(** ... sent by the stack, ... *)
Definition sent64 : World :=
  snd (usbd_callback (cfg := cfg64) 0 [] 2 written64).

(** ... and echoed back by the peer. *)
Definition echoed64 : World :=
  with_usbd
    (usbd_event (cfg := cfg64) (concat (map snd (tx_log (usbd sent64)))) 1)
    sent64.

(** Ready, with blocking switched off. *)
Definition nonblocking64 : World := blockOnOverrun false ready64.

(** A write of ten bytes, one step in. *)
Definition in_write64 : System :=
  mkSys ready64 (InWrite (wr_goto W193 (write_call 0 (bytes_from 0 10)))) [].

(** A write of a hundred bytes, about to start, with blocking on. *)
Definition blocking_write64 : System :=
  mkSys ready64 (InWrite (write_call 0 (bytes_from 0 100))) [].


(** The receive ring of [notify64] after an event that delivered 64
    bytes. *)
Definition notified64 : World :=
  snd (usbd_callback (cfg := cfg64) 3 (bytes_from 1 64) 1 notify64).

(** A read of one byte, about to start. *)
Definition in_read64 : System := mkSys ready64 (InRead1 read1_call) [].

(** A write of three bytes with a transmit callback registered, driven
    until it has returned and its packet is in flight, ... *)
Definition in_flight64 : System :=
  drive (cfg := cfg64) 15
    (mkSys (onTransmit true ready64)
           (InWrite (write_call 0 (bytes_from 1 3))) []).

(** ... and the state after the device has completed the packet. *)
Definition completed64 : System := drive_step (cfg := cfg64) in_flight64.

(** The same write one step earlier, at its return statement. *)
Definition returned64 : System :=
  drive (cfg := cfg64) 14
    (mkSys (onTransmit true ready64)
           (InWrite (write_call 0 (bytes_from 1 3))) []).

Definition returned_frame64 : wr_frame :=
  match fg returned64 with
  | InWrite f => f
  | _ => write_call 0 []
  end.

(** ** A configuration with a smaller read clamp

    As [cfg64], with [UART_RX_BUFFER_SIZE] at 16. *)
Definition cfg_uart16 : Config := {|
  CDC_RX_BUFFER_SIZE := 64;
  CDC_TX_BUFFER_SIZE := 64;
  UART_RX_BUFFER_SIZE := 16;
  USBD_CDC_FIFO_SIZE := 64;
  USBD_CDC_STATE_READY := 3;
  USBD_CDC_EVENT_RECEIVE := 1;
  USBD_CDC_EVENT_TRANSMIT := 2
|}.

(** The receive ring after an event that delivered 64 bytes, ... *)
Definition rx_full16 : World :=
  snd (usbd_callback (cfg := cfg_uart16) 3 (bytes_from 1 64) 1
         (World_new (cfg := cfg_uart16) 3 3)).

(** ... and after a bulk read for 16 bytes: the read index stands at 16. *)
Definition rx_at16 : World :=
  match read (cfg := cfg_uart16) 8 16 rx_full16 with
  | Some (_, _, w) => w
  | None => rx_full16
  end.

(** * Properties *)

(** ** Arithmetic of the machine integers *)

Lemma u32_small (z : Z) : 0 <= z < 2 ^ 32 -> u32 z = z.
Proof. intros H. unfold u32. apply Z.mod_small. exact H. Qed.

Lemma u32_range (z : Z) : 0 <= u32 z < 2 ^ 32.
Proof. unfold u32. apply Z.mod_pos_bound. reflexivity. Qed.

Lemma land_le_r (a b : Z) : 0 <= a -> 0 <= b -> Z.land a b <= b.
Proof.
  intros Ha Hb.
  destruct a as [|p|p]; [rewrite Z.land_0_l; exact Hb | | lia].
  destruct b as [|q|q]; [rewrite Z.land_0_r; lia | | lia].
  change (Z.land (Z.pos p) (Z.pos q)) with (Z.of_N (N.land (N.pos p) (N.pos q))).
  pose proof (N.land_le_r (N.pos p) (N.pos q)) as H.
  lia.
Qed.

Lemma mask_range (size x : Z) : 0 < size -> 0 <= x -> 0 <= mask size x < size.
Proof.
  intros Hs Hx. unfold mask. split.
  - apply Z.land_nonneg. left. exact Hx.
  - pose proof (land_le_r x (size - 1) Hx ltac:(lia)). lia.
Qed.

Local Arguments Z.pow : simpl never.
Local Arguments Z.of_nat : simpl never.
Local Arguments Z.land : simpl never.
Local Arguments Z.sub : simpl nomatch.
Local Arguments u32 : simpl never.
Local Arguments rx_pull : simpl never.
Local Arguments mask : simpl never.
Local Arguments tx_clamp : simpl never.
Local Arguments memcpy_to : simpl never.
Local Arguments memcpy_from : simpl never.
(** ** Proof automation *)

(** Unsigned results that stay in range lose their reduction; the others
    are kept as unknowns below 2^32. *)
Ltac u32_elim :=
  repeat match goal with
  | |- context [u32 ?x] => rewrite (u32_small x) in * by lia
  | H : context [u32 ?x] |- _ => rewrite (u32_small x) in * by lia
  end;
  repeat match goal with
  | |- context [u32 ?x] =>
      let H := fresh "Hu" in
      pose proof (u32_range x) as H;
      let v := fresh "v" in set (v := u32 x) in *; clearbody v
  | H : context [u32 ?x] |- _ =>
      let H := fresh "Hu" in
      pose proof (u32_range x) as H;
      let v := fresh "v" in set (v := u32 x) in *; clearbody v
  end.

(** Case analysis on the tests of a computed step. *)
Ltac split_ifs_in E :=
  repeat match type of E with
  | context [if ?a <? ?b then _ else _] => destruct (Z.ltb_spec a b)
  | context [if ?a =? ?b then _ else _] => destruct (Z.eqb_spec a b)
  | context [if ?b then _ else _] => destruct b eqn:?
  end.

Ltac open_world w :=
  let c := fresh "c" in let u := fresh "u" in
  destruct w as [c u ? ? ?]; destruct c; destruct u.

(** A masked index is some index of the ring. *)
Ltac mask_elim :=
  repeat match goal with
  | |- context [mask ?n (u32 ?x)] =>
      let H := fresh "Hm" in
      pose proof (mask_range n (u32 x) ltac:(lia) ltac:(apply u32_range)) as H;
      let v := fresh "m" in set (v := mask n (u32 x)) in *; clearbody v
  end.

(** Conjunctions of linear facts. *)
Ltac finish :=
  repeat match goal with
  | |- _ /\ _ => split
  | |- Forall _ (_ ++ _) => apply Forall_app; split
  | |- Forall _ (_ :: _) => constructor
  | |- Forall _ [] => constructor
  end; first [assumption | exact I | reflexivity | lia].

Section Invariants.
Context {cfg : Config}.
Hypothesis Hcfg : config_ok.

Lemma tx_clamp_bounds (s r : Z) :
  0 <= s -> 0 <= tx_clamp s r <= s /\ tx_clamp s r <= u32 CDC_TX_PACKET_SIZE.
Proof.
  intros Hs. unfold tx_clamp.
  pose proof (u32_range (CDC_TX_BUFFER_SIZE - r)).
  pose proof (u32_range CDC_TX_PACKET_SIZE).
  rewrite !Z.gtb_ltb.
  destruct (Z.ltb_spec (u32 (CDC_TX_BUFFER_SIZE - r)) s);
    match goal with |- context [if ?a <? ?b then _ else _] =>
      destruct (Z.ltb_spec a b) end; lia.
Qed.

Lemma sum_Z_app (l1 l2 : list Z) : sum_Z (l1 ++ l2) = sum_Z l1 + sum_Z l2.
Proof. induction l1 as [|x l1 IH]; simpl; [reflexivity | rewrite IH; lia]. Qed.

Lemma write_step_inv (w : World) (f : wr_frame) (rets : list Z) :
  sys_inv (mkSys w (InWrite f) rets) ->
  wr_returned f = false ->
  sys_inv (mkSys (snd (write_step f w)) (InWrite (fst (write_step f w))) rets).
Proof.
  destruct Hcfg as [Hrx Htx].
  destruct (write_step f w) as [f' w'] eqn:E.
  destruct w as [c u rc tc yc].
  destruct c as [bl rxd rr rw rcn txd tr tw ts tcn tt tcb rcb].
  destruct u as [st ls fifo busy log].
  destruct f as [pc ipsr buf size count ltc lts ltr].
  unfold sys_inv, rx_ok, rd_ok, tx_ok, fg_ok, wr_ok, in_flight, tx_lens, buffer_ok. simpl.
  intros (Hr & _ & Ht & (Hip & Hsz & Hbuf & Hpc) & Htot & Hlens & Hbal & Hq & Hk) Hret.
  destruct pc; try discriminate; unfold write_step, stm32l4_usbd_cdc_done in E; simpl in *.
  all: rewrite ?Z.gtb_ltb in E.
  all: split_ifs_in E; simpl in E; injection E as <- <-; simpl.
  all: unfold transmit_from, stm32l4_usbd_cdc_transmit; simpl.
  all: rewrite ?map_app, ?sum_Z_app; simpl.
  all: try (pose proof (tx_clamp_bounds lts tr ltac:(lia)) as Hclamp).
  all: mask_elim.
  all: repeat match goal with H : _ /\ _ |- _ => destruct H end; subst; simpl in *.
  all: repeat match goal with
       | H : context [if ?a <? ?b then _ else _] |- _ => destruct (Z.ltb_spec a b)
       | |- context [if ?b then _ else _] => destruct b
       end.
  all: try discriminate.
  all: u32_elim.
  all: try finish.
Qed.

Lemma rx_only_refl (w : World) : rx_ok (cdc w) -> rx_only w w.
Proof. intros H. unfold rx_only. repeat split; try apply H; lia. Qed.

Lemma rx_only_trans (w1 w2 w3 : World) :
  rx_only w1 w2 -> rx_only w2 w3 -> rx_only w1 w3.
Proof.
  unfold rx_only. intros (A1 & B1 & C1 & D1) (A2 & B2 & C2 & D2).
  repeat split; try apply D2; try congruence; lia.
Qed.

Lemma rx_pull_only (n : Z) (w : World) :
  rx_ok (cdc w) ->
  0 <= n <= CDC_RX_BUFFER_SIZE - _rx_count (cdc w) ->
  rx_only w (snd (rx_pull n w)) /\ 0 <= fst (rx_pull n w) <= n.
Proof.
  destruct Hcfg as [Hrx Htx]. intros Hok Hn.
  unfold rx_pull, stm32l4_usbd_cdc_receive.
  match goal with
  | |- context [firstn (Z.to_nat ?k) ?l] =>
      set (cap := k) in *; set (bytes := firstn (Z.to_nat cap) l) in *
  end.
  destruct w as [c u rc tc yc].
  destruct c as [bl rxd rr rw rcn txd tr tw ts tcn tt tcb rcb].
  destruct u as [st ls fifo busy log].
  destruct Hok as (Hr & Hw & Hc). unfold rx_only, rx_ok. simpl in *.
  assert (Hcap : 0 <= cap <= n).
  { subst cap. rewrite Z.gtb_ltb. rewrite (u32_small (CDC_RX_BUFFER_SIZE - rw)) by lia.
    destruct (Z.ltb_spec (CDC_RX_BUFFER_SIZE - rw) n); lia. }
  assert (Hlen : 0 <= Z.of_nat (length bytes) <= cap).
  { subst bytes. pose proof (firstn_le_length (Z.to_nat cap) fifo). lia. }
  clearbody bytes. clearbody cap.
  unfold tx_part; simpl. mask_elim. u32_elim. finish.
Qed.

Lemma rx_drain_S (fuel : nat) (count : Z) (w : World) :
  rx_drain (S fuel) count w =
  let rx_count := u32 (CDC_RX_BUFFER_SIZE - _rx_count (cdc w)) in
  if rx_count =? 0 then Some (count, w)
  else
    let (rx_size, w') := rx_pull rx_count w in
    let count := u32 (count + rx_size) in
    if rx_size =? 0 then Some (count, w') else rx_drain fuel count w'.
Proof. reflexivity. Qed.

Lemma rx_drain_only (fuel : nat) :
  forall (count : Z) (w : World) (count' : Z) (w' : World),
    rx_ok (cdc w) ->
    rx_drain fuel count w = Some (count', w') ->
    rx_only w w'.
Proof.
  destruct Hcfg as [Hrx Htx].
  induction fuel as [|fuel IH]; intros count w count' w' Hok E; [discriminate|].
  rewrite rx_drain_S in E. cbv zeta in E.
  destruct (Z.eqb_spec (u32 (CDC_RX_BUFFER_SIZE - _rx_count (cdc w))) 0).
  { injection E as <- <-. apply rx_only_refl, Hok. }
  assert (Hn : 0 <= u32 (CDC_RX_BUFFER_SIZE - _rx_count (cdc w))
               <= CDC_RX_BUFFER_SIZE - _rx_count (cdc w)).
  { destruct Hok as (_ & _ & Hc). rewrite u32_small; lia. }
  destruct (rx_pull_only _ w Hok Hn) as [Hstep _].
  destruct (rx_pull (u32 (CDC_RX_BUFFER_SIZE - _rx_count (cdc w))) w)
    as [rx_size w1]. simpl in Hstep.
  destruct (rx_size =? 0).
  - injection E as <- <-. exact Hstep.
  - eapply rx_only_trans; [exact Hstep|]. eapply IH; [apply Hstep | exact E].
Qed.

Lemma rx_round_only (fuel : nat) :
  forall (w : World) (o : outcome) (w' : World),
    rx_ok (cdc w) ->
    rx_round fuel w = (o, w') ->
    rx_only w w'.
Proof.
  induction fuel as [|fuel IH]; intros w o w' Hok E; simpl in E.
  { injection E as <- <-. apply rx_only_refl, Hok. }
  destruct (_rx_count (cdc w) =? CDC_RX_BUFFER_SIZE).
  { injection E as <- <-. apply rx_only_refl, Hok. }
  destruct (rx_drain fuel 0 w) as [[count w1]|] eqn:D.
  2:{ injection E as <- <-. apply rx_only_refl, Hok. }
  pose proof (rx_drain_only _ _ _ _ _ Hok D) as H1.
  eapply rx_only_trans; [|eapply IH; [|exact E]].
  - destruct (_ && _); [|exact H1].
    destruct H1 as (A & B & C & D'). unfold rx_only. destruct w1; simpl in *. auto.
  - destruct (_ && _); [|apply H1]. destruct w1; simpl. apply H1.
Qed.

Lemma event_inv (w : World) (f : frame) (rets : list Z) (data : list byte)
    (events : Z) (w1 : World) :
  sys_inv (mkSys w f rets) ->
  (Z.land events USBD_CDC_EVENT_TRANSMIT <> 0 -> tx_busy (usbd w) = true) ->
  rx_only (with_usbd (usbd_event data events) w) w1 ->
  sys_inv (mkSys (if negb (Z.land events USBD_CDC_EVENT_TRANSMIT =? 0)
                  then tx_complete w1 else w1) f rets).
Proof.
  destruct Hcfg as [Hrx Htx].
  destruct w as [c u rc tc yc].
  destruct c as [bl rxd rr rw rcn txd tr tw ts tcn tt tcb rcb].
  destruct u as [st ls fifo busy log].
  destruct w1 as [c1 u1 rc1 tc1 yc1].
  destruct c1 as [bl1 rxd1 rr1 rw1 rcn1 txd1 tr1 tw1 ts1 tcn1 tt1 tcb1 rcb1].
  destruct u1 as [st1 ls1 fifo1 busy1 log1].
  unfold rx_only, tx_part, rx_ok. simpl.
  intros Hinv Hbusy (Epart & Er & Hc & Hok1).
  injection Epart as -> -> -> -> -> -> -> -> -> -> -> -> -> -> ->.
  subst rr1.
  revert Hinv.
  unfold sys_inv, rx_ok, rd_ok, tx_ok, fg_ok, wr_ok, in_flight, tx_lens, buffer_ok. simpl.
  intros (Hr & Hrd & Ht & Hfg & Htot & Hlens & Hbal & Hq & Hk).
  destruct (Z.eqb_spec (Z.land events USBD_CDC_EVENT_TRANSMIT) 0) as [Hz|Hnz]; simpl.
  - (* no transmit bit *)
    repeat split; try assumption; try lia.
    destruct f as [|wf|rf|rf]; try exact I.
    + destruct (r_pc rf); try exact I; lia.
    + destruct (r1_pc rf); try exact I; lia.
  - specialize (Hbusy Hnz). subst busy.
    unfold tx_complete, tx_ack. simpl.
    match goal with |- context [tx_next ?x] => remember (tx_next x) as w2 eqn:E2 end.
    unfold tx_next in E2. simpl in E2.
    match goal with |- context [tx_notify ?x] => remember (tx_notify x) as w3 eqn:E3 end.
    rewrite (u32_small (tcn - ts)) in E2 by lia.
    rewrite (u32_small (tt - ts)) in E2 by (destruct f as [|[[] ? ? ? ? ? ? ?]| |]; simpl in *; lia).
    assert (Hm : 0 <= mask CDC_TX_BUFFER_SIZE (u32 (tr + ts)) < CDC_TX_BUFFER_SIZE)
      by (apply mask_range; [lia | apply u32_range]).
    set (m := mask CDC_TX_BUFFER_SIZE (u32 (tr + ts))) in *. clearbody m.
    pose proof (tx_clamp_bounds (tcn - ts) m ltac:(lia)) as Hclamp.
    set (k := tx_clamp (tcn - ts) m) in *. clearbody k.
    assert (H3 : exists n, w3 = mkWorld (cdc w2) (usbd w2) (receive_calls w2) n (yield_calls w2)).
    { subst w3. unfold tx_notify. destruct (_ && _); [eexists; reflexivity|].
      destruct w2; eexists; reflexivity. }
    destruct H3 as [n ->]. clear E3.
    destruct (Z.eqb_spec (tcn - ts) 0) as [Hz|Hz]; simpl in E2; subst w2;
      unfold transmit_from, stm32l4_usbd_cdc_transmit; simpl;
      rewrite ?map_app, ?sum_Z_app; simpl.
    all: destruct f as [|[pc ipsr buf size count ltc lts ltr]|rf|rf]; simpl in *.
    all: try (destruct pc; simpl in * ).
    all: try (destruct (r_pc rf)).
    all: try (destruct (r1_pc rf)).
    all: try finish.
Qed.

Lemma read_step_inv (w : World) (f : rd_frame) (rets : list Z) :
  sys_inv (mkSys w (InRead f) rets) ->
  sys_inv (mkSys (snd (read_step f w)) (InRead (fst (read_step f w))) rets).
Proof.
  destruct Hcfg as [Hrx Htx].
  destruct (read_step f w) as [f' w'] eqn:E.
  open_world w. destruct f as [pc size count lrc buf].
  unfold sys_inv, rx_ok, rd_ok, tx_ok, fg_ok, in_flight, tx_lens. simpl.
  intros (Hr & Hrd & Ht & _ & Htot & Hlens & Hbal & Hq & Hk).
  destruct pc; unfold read_step in E; simpl in *; rewrite ?Z.gtb_ltb in E.
  all: split_ifs_in E; simpl in E; injection E as <- <-; simpl.
  all: mask_elim.
  all: repeat match goal with H : _ /\ _ |- _ => destruct H end.
  all: u32_elim.
  all: try finish.
Qed.

Lemma read1_step_inv (w : World) (f : rd1_frame) (rets : list Z) :
  sys_inv (mkSys w (InRead1 f) rets) ->
  sys_inv (mkSys (snd (read1_step f w)) (InRead1 (fst (read1_step f w))) rets).
Proof.
  destruct Hcfg as [Hrx Htx].
  destruct (read1_step f w) as [f' w'] eqn:E.
  open_world w. destruct f as [pc data].
  unfold sys_inv, rx_ok, rd_ok, tx_ok, fg_ok, in_flight, tx_lens. simpl.
  intros (Hr & Hrd & Ht & _ & Htot & Hlens & Hbal & Hq & Hk).
  destruct pc; unfold read1_step in E; simpl in *.
  all: split_ifs_in E; simpl in E; injection E as <- <-; simpl.
  all: mask_elim.
  all: repeat match goal with H : _ /\ _ |- _ => destruct H end.
  all: u32_elim.
  all: try finish.
Qed.

Lemma sys_inv_new (st ls : Z) : sys_inv (mkSys (World_new st ls) Idle []).
Proof.
  destruct Hcfg as [Hrx Htx].
  unfold sys_inv, rx_ok, rd_ok, tx_ok, fg_ok, in_flight, tx_lens. simpl.
  finish.
Qed.

Lemma sys_inv_step (s s' : System) : sys_inv s -> step s s' -> sys_inv s'.
Proof.
  destruct Hcfg as [Hrx Htx].
  intros Hinv Hstep. destruct Hstep.
  - (* call of write *)
    revert Hinv. open_world w.
    unfold sys_inv, rx_ok, rd_ok, tx_ok, fg_ok, wr_ok, in_flight, tx_lens. simpl.
    intros (Hr & Hrd & Ht & _ & Htot & Hlens & Hbal & Hq & Hk).
    unfold buffer_ok in *. finish.
  - apply write_step_inv; assumption.
  - (* return of write *)
    revert Hinv. open_world w. destruct f as [pc ipsr buf size count ltc lts ltr].
    unfold sys_inv, rx_ok, rd_ok, tx_ok, fg_ok, wr_ok, in_flight, tx_lens. simpl.
    intros (Hr & Hrd & Ht & Hw & Htot & Hlens & Hbal & Hq & Hk).
    rewrite sum_Z_app. unfold wr_result. simpl.
    destruct pc; try discriminate; simpl in *; finish.
  - revert Hinv. open_world w.
    unfold sys_inv, rx_ok, rd_ok, tx_ok, fg_ok, in_flight, tx_lens. simpl. tauto.
  - apply read_step_inv; assumption.
  - revert Hinv. open_world w.
    unfold sys_inv, rx_ok, rd_ok, tx_ok, fg_ok, in_flight, tx_lens. simpl. tauto.
  - revert Hinv. open_world w.
    unfold sys_inv, rx_ok, rd_ok, tx_ok, fg_ok, in_flight, tx_lens. simpl. tauto.
  - apply read1_step_inv; assumption.
  - revert Hinv. open_world w.
    unfold sys_inv, rx_ok, rd_ok, tx_ok, fg_ok, in_flight, tx_lens. simpl. tauto.
  - revert Hinv. open_world w.
    unfold sys_inv, rx_ok, rd_ok, tx_ok, fg_ok, in_flight, tx_lens. simpl. tauto.
  - revert Hinv. open_world w.
    unfold sys_inv, rx_ok, rd_ok, tx_ok, fg_ok, in_flight, tx_lens. simpl. tauto.
  - revert Hinv. open_world w.
    unfold sys_inv, rx_ok, rd_ok, tx_ok, fg_ok, in_flight, tx_lens. simpl. tauto.
  - (* line state *)
    revert Hinv. open_world w.
    unfold sys_inv, rx_ok, rd_ok, tx_ok, fg_ok, in_flight, tx_lens. simpl.
    destruct f as [|wf| |]; simpl; tauto.
  - (* event *)
    rename H into Hbusy. rename H0 into E.
    unfold EventCallback in E.
    set (w0 := with_usbd (usbd_event data events) w) in *.
    assert (Hok0 : rx_ok (cdc w0)).
    { subst w0. destruct Hinv as (Hr & _). destruct w; simpl in *. exact Hr. }
    destruct (negb (Z.land events USBD_CDC_EVENT_RECEIVE =? 0)).
    + destruct (rx_round fuel w0) as [o w1] eqn:R.
      pose proof (rx_round_only _ _ _ _ Hok0 R) as Honly.
      destruct o; [|discriminate].
      injection E as <-.
      apply (event_inv w f rets data events w1 Hinv Hbusy Honly).
    + injection E as <-.
      apply (event_inv w f rets data events w0 Hinv Hbusy (rx_only_refl _ Hok0)).
Qed.

Lemma reachable_inv (s : System) : reachable s -> sys_inv s.
Proof.
  induction 1 as [st ls|s s' _ IH Hstep].
  - apply sys_inv_new.
  - exact (sys_inv_step s s' IH Hstep).
Qed.

(** ** The occupancy counts *)

Lemma sys_inv_counts (s : System) : sys_inv s -> counts_ok (world s).
Proof.
  intros (Hrx & _ & Htx & _). destruct Hrx as (_ & _ & Hrx).
  destruct Htx as (_ & _ & Hs & Hc). split; [exact Hrx | lia].
Qed.

(** C1. Through every interleaving of the foreground calls (write, read of
    one byte or of many) with the event callback, at every program point,
    the receive count and the transmit count lie between zero and the
    capacity of their ring; and so they do inside an event callback,
    however far it has run and whether or not it returns. *)
Theorem count_within_capacity (s : System) :
  reachable s ->
  counts_ok (world s)
  /\ forall (fuel : nat) (data : list byte) (events : Z),
       (Z.land events USBD_CDC_EVENT_TRANSMIT <> 0 ->
        tx_busy (usbd (world s)) = true) ->
       counts_ok (snd (usbd_callback fuel data events (world s))).
Proof.
  intros Hr. pose proof (reachable_inv s Hr) as Hinv.
  split; [apply sys_inv_counts; exact Hinv|].
  intros fuel data events Hbusy.
  destruct s as [w f rets]. simpl in *.
  unfold usbd_callback, EventCallback.
  set (w0 := with_usbd (usbd_event data events) w).
  assert (Hok0 : rx_ok (cdc w0)).
  { subst w0. destruct Hinv as (Hrx & _). destruct w; simpl in *. exact Hrx. }
  destruct (negb (Z.land events USBD_CDC_EVENT_RECEIVE =? 0)).
  - destruct (rx_round fuel w0) as [o w1] eqn:R.
    pose proof (rx_round_only _ _ _ _ Hok0 R) as Honly.
    destruct o; simpl.
    + apply (sys_inv_counts (mkSys _ f rets)).
      apply (event_inv w f rets data events w1 Hinv Hbusy Honly).
    + destruct Honly as (Epart & _ & _ & Hok1).
      destruct Hinv as (_ & _ & Htx & _).
      split; [apply Hok1|].
      assert (E : _tx_count (cdc w1) = _tx_count (cdc w)).
      { subst w0. unfold tx_part in Epart. destruct w; simpl in *. congruence. }
      rewrite E. destruct Htx as (_ & _ & Hs & Hc). simpl in *. lia.
  - simpl. apply (sys_inv_counts (mkSys _ f rets)).
    apply (event_inv w f rets data events w0 Hinv Hbusy (rx_only_refl _ Hok0)).
Qed.

(** C10. In every reachable state [_tx_size <= _tx_count <= _tx_total];
    so when [_tx_total] is zero the transmit ring is empty and no packet
    is in flight. *)
Theorem tx_size_count_total (s : System) :
  reachable s ->
  let c := cdc (world s) in
  0 <= _tx_size c <= _tx_count c
  /\ _tx_count c <= _tx_total c
  /\ (_tx_total c = 0 ->
      _tx_count c = 0 /\ _tx_size c = 0 /\ tx_busy (usbd (world s)) = false).
Proof.
  intros Hr c. destruct (reachable_inv s Hr)
    as (_ & _ & Htx & Hfg & Htot & _ & _ & Hq & _).
  fold c in Htx, Htot, Hq, Hfg. destruct Htx as (_ & _ & Hs & Hc).
  assert (Hp : 0 <= pending (fg s)).
  { unfold fg_ok, wr_ok in Hfg. unfold pending.
    destruct (fg s) as [|f| |]; try lia.
    destruct Hfg as (_ & _ & _ & Hpc). destruct (w_pc f); lia. }
  repeat split; try lia.
  destruct (tx_busy (usbd (world s))); [|reflexivity].
  specialize (Hq eq_refl). lia.
Qed.

(** Every length passed to the transmit call, by the write path or by the
    callback, is at most the packet ceiling. *)
Lemma tx_lens_bounded (s : System) :
  reachable s ->
  Forall (fun n => 0 <= n <= u32 CDC_TX_PACKET_SIZE)
         (tx_lens (usbd (world s))).
Proof. intros Hr. apply (reachable_inv s Hr). Qed.

(** ** Queries *)

(** C9 as amended. [available] is the receive count whatever the device
    state; [availableForWrite] is the capacity less the transmit count when
    the device is ready, and zero while it is below ready. *)
Theorem available_counts (w : World) :
  0 <= _rx_count (cdc w) <= CDC_RX_BUFFER_SIZE ->
  0 <= _tx_count (cdc w) <= CDC_TX_BUFFER_SIZE ->
  available w = _rx_count (cdc w)
  /\ availableForWrite w =
     if usbd_state (usbd w) <? USBD_CDC_STATE_READY then 0
     else CDC_TX_BUFFER_SIZE - _tx_count (cdc w).
Proof.
  destruct Hcfg as [Hrx Htx]. intros Hr Ht.
  unfold available, availableForWrite, to_int. split.
  - destruct (Z.ltb_spec (_rx_count (cdc w)) (2 ^ 31)); lia.
  - destruct (usbd_state (usbd w) <? USBD_CDC_STATE_READY); [reflexivity|].
    rewrite u32_small by lia.
    destruct (Z.ltb_spec (CDC_TX_BUFFER_SIZE - _tx_count (cdc w)) (2 ^ 31)); lia.
Qed.

End Invariants.

(** ** Rejected writes *)

Section Write.
Context {cfg : Config}.

(** C6. A write on a device below ready, or whose peer does not assert
    RTS, returns 0 and leaves the whole state as it was. *)
Theorem write_rejected (fuel : nat) (ipsr : Z) (buffer : list byte)
    (w : World) :
  usbd_state (usbd w) < USBD_CDC_STATE_READY
  \/ Z.land (lineState (usbd w)) 2 = 0 ->
  write (S fuel) ipsr buffer w = Some (0, w).
Proof.
  intros H. unfold write, write_call.
  assert (E : (usbd_state (usbd w) <? USBD_CDC_STATE_READY)
              || (Z.land (lineState (usbd w)) 2 =? 0) = true).
  { apply orb_true_iff. destruct H as [H|H]; [left | right].
    - apply Z.ltb_lt, H.
    - apply Z.eqb_eq, H. }
  cbn [write_run wr_returned w_pc]. unfold write_step. cbn [w_pc].
  rewrite E. destruct fuel; reflexivity.
Qed.

End Write.

(** ** The receive branch of the callback *)

Section Receive.
Context {cfg : Config}.
Hypothesis Hcfg : config_ok.

Lemma rx_pull_backlog (n : Z) (w : World) :
  rx_ok (cdc w) ->
  0 <= n <= CDC_RX_BUFFER_SIZE - _rx_count (cdc w) ->
  rx_backlog (snd (rx_pull n w)) = rx_backlog w.
Proof.
  destruct Hcfg as [Hrx Htx]. intros Hok Hn.
  unfold rx_pull, stm32l4_usbd_cdc_receive, rx_backlog.
  match goal with
  | |- context [firstn (Z.to_nat ?k) ?l] => set (cap := k) in *
  end.
  destruct w as [c u rc tc yc].
  destruct c as [bl rxd rr rw rcn txd tr tw ts tcn tt tcb rcb].
  destruct u as [st ls fifo busy log].
  destruct Hok as (Hr & Hw & Hc). simpl in *.
  assert (Hcap : 0 <= cap <= n).
  { subst cap. rewrite Z.gtb_ltb.
    rewrite (u32_small (CDC_RX_BUFFER_SIZE - rw)) by lia.
    destruct (Z.ltb_spec (CDC_RX_BUFFER_SIZE - rw) n); lia. }
  pose proof (firstn_le_length (Z.to_nat cap) fifo) as Hle.
  pose proof (f_equal (@length byte) (firstn_skipn (Z.to_nat cap) fifo)) as Hsum.
  rewrite length_app in Hsum.
  rewrite u32_small by lia. lia.
Qed.

Lemma rx_drain_backlog (fuel : nat) :
  forall (count : Z) (w : World) (count' : Z) (w' : World),
    rx_ok (cdc w) ->
    rx_drain fuel count w = Some (count', w') ->
    rx_backlog w' = rx_backlog w.
Proof.
  induction fuel as [|fuel IH]; intros count w count' w' Hok E; [discriminate|].
  rewrite rx_drain_S in E. cbv zeta in E.
  destruct (Z.eqb_spec (u32 (CDC_RX_BUFFER_SIZE - _rx_count (cdc w))) 0).
  { injection E as <- <-. reflexivity. }
  assert (Hn : 0 <= u32 (CDC_RX_BUFFER_SIZE - _rx_count (cdc w))
               <= CDC_RX_BUFFER_SIZE - _rx_count (cdc w)).
  { destruct Hcfg, Hok as (_ & _ & Hc). rewrite u32_small; lia. }
  destruct (rx_pull_only Hcfg _ w Hok Hn) as [Hstep _].
  pose proof (rx_pull_backlog _ w Hok Hn) as Hb.
  destruct (rx_pull (u32 (CDC_RX_BUFFER_SIZE - _rx_count (cdc w))) w)
    as [rx_size w1]. simpl in Hstep, Hb.
  destruct (rx_size =? 0).
  - injection E as <- <-. exact Hb.
  - rewrite <- Hb. eapply IH; [apply Hstep | exact E].
Qed.

(** When the stack holds fewer bytes than the ring has room for, the
    receive loop of the callback never comes to its end: whatever the fuel,
    the run is still inside the loop. *)
Lemma rx_round_starved (fuel : nat) :
  forall w : World,
    rx_ok (cdc w) ->
    rx_backlog w < CDC_RX_BUFFER_SIZE ->
    fst (rx_round fuel w) = Spinning.
Proof.
  induction fuel as [|fuel IH]; intros w Hok Hb; [reflexivity|].
  simpl.
  destruct (Z.eqb_spec (_rx_count (cdc w)) CDC_RX_BUFFER_SIZE) as [Hfull|_].
  { unfold rx_backlog in Hb. lia. }
  destruct (rx_drain fuel 0 w) as [[count w1]|] eqn:D; [|reflexivity].
  pose proof (rx_drain_only Hcfg _ _ _ _ _ Hok D) as (_ & _ & _ & Hok1).
  pose proof (rx_drain_backlog _ _ _ _ _ Hok D) as Hb1.
  apply IH.
  - destruct (_ && _); [destruct w1|]; exact Hok1.
  - destruct (_ && _); [destruct w1|]; unfold rx_backlog in *; simpl in *; lia.
Qed.

Lemma EventCallback_starved (fuel : nat) (events : Z) (w : World) :
  Z.land events USBD_CDC_EVENT_RECEIVE <> 0 ->
  rx_ok (cdc w) ->
  rx_backlog w < CDC_RX_BUFFER_SIZE ->
  fst (EventCallback fuel events w) = Spinning.
Proof.
  intros Hev Hok Hb. unfold EventCallback.
  destruct (Z.eqb_spec (Z.land events USBD_CDC_EVENT_RECEIVE) 0); [contradiction|].
  simpl. pose proof (rx_round_starved fuel w Hok Hb) as H.
  destruct (rx_round fuel w) as [o w1]. simpl in H. subst o. reflexivity.
Qed.

End Receive.

Lemma config_ok_cfg64 : config_ok (cfg := cfg64).
Proof. unfold config_ok. simpl. lia. Qed.

(** C2, on the code: five bytes arrive for an empty ring of 64.  The
    callback queues them, the stack then delivers a zero-length chunk, and
    the callback goes round its outer loop for ever: no amount of fuel lets
    it return. *)
Theorem EventCallback_never_returns :
  forall fuel : nat,
    fst (EventCallback (cfg := cfg64) fuel 1 starved64) = Spinning.
Proof.
  intros fuel. apply (EventCallback_starved config_ok_cfg64).
  - discriminate.
  - unfold rx_ok. simpl. lia.
  - vm_compute. reflexivity.
Qed.

(** C3, on the code: the receive ring holds 64 bytes and [read] is asked
    for 3.  It copies all 64 through [buffer] and returns 64. *)
Theorem read_exceeds_size :
  option_map fst (read (cfg := cfg64) 8 3 rx_full64)
  = Some (64, bytes_from 1 64).
Proof. vm_compute. reflexivity. Qed.

Lemma rx_round_notify64 (n : nat) :
  forall calls : list Z,
    rx_round (cfg := cfg64) (S n)
      (mkWorld (cdc notify64) (usbd notify64) calls 0 0)
    = (Spinning,
       mkWorld (cdc notify64) (usbd notify64) (calls ++ repeat 0 n) 0 0).
Proof.
  induction n as [|n IH]; intros calls.
  - simpl. rewrite app_nil_r. reflexivity.
  - change (rx_round (S (S n)) ?w) with
      (let w2 := call_receiveCallback 0 w in rx_round (cfg := cfg64) (S n) w2).
    cbv zeta. unfold call_receiveCallback. cbn [cdc usbd receive_calls transmit_calls yield_calls].
    rewrite IH. rewrite <- app_assoc. reflexivity.
Qed.

(** C7, on the code: a receive event reaches an empty ring with a callback
    registered and nothing to deliver.  Each round of the outer loop calls
    the callback again with 0: after [n] rounds of one invocation it has
    been called [n] times, and the invocation has not returned. *)
Theorem receive_callback_repeats :
  forall n : nat,
    EventCallback (cfg := cfg64) (S n) 1 notify64
    = (Spinning,
       mkWorld (cdc notify64) (usbd notify64) (repeat 0 n) 0 0).
Proof.
  intros n. unfold EventCallback.
  change (negb (Z.land 1 USBD_CDC_EVENT_RECEIVE =? 0)) with true. cbv iota.
  change notify64 with (mkWorld (cdc notify64) (usbd notify64) [] 0 0) at 1.
  rewrite rx_round_notify64. reflexivity.
Qed.

(** C8, on the code: three bytes are written, the stack sends them and
    the peer echoes them.  The receive event that brings them back queues
    them and then never returns, so no [read] follows it. *)
Theorem echo_never_read :
  write (cfg := cfg64) 30 0 (bytes_from 1 3) ready64 = Some (3, written64)
  /\ done sent64 = true
  /\ rx_fifo (usbd echoed64) = bytes_from 1 3
  /\ _rx_count (cdc (snd (EventCallback (cfg := cfg64) 4 1 echoed64))) = 3
  /\ forall fuel : nat,
       fst (EventCallback (cfg := cfg64) fuel 1 echoed64) = Spinning.
Proof.
  split; [vm_compute; reflexivity|].
  split; [vm_compute; reflexivity|].
  split; [vm_compute; reflexivity|].
  split; [vm_compute; reflexivity|].
  intros fuel. apply (EventCallback_starved config_ok_cfg64).
  - discriminate.
  - vm_compute. repeat split; discriminate.
  - vm_compute. reflexivity.
Qed.

Local Arguments Z.add : simpl never.
Local Arguments Z.mul : simpl never.
Local Arguments Z.min : simpl never.
Local Arguments Z.leb : simpl never.

(** ** Writes that may not block *)

Section NonBlocking.
Context {cfg : Config}.
Hypothesis Hcfg : config_ok.
Hypothesis Hpow : tx_pow2.

Lemma mask_mod (x : Z) :
  mask CDC_TX_BUFFER_SIZE x = x mod CDC_TX_BUFFER_SIZE.
Proof.
  unfold mask. unfold tx_pow2 in Hpow.
  set (k := Z.log2 CDC_TX_BUFFER_SIZE) in *.
  rewrite Hpow. rewrite Z.sub_1_r, <- Z.ones_equiv.
  apply Z.land_ones. apply Z.log2_nonneg.
Qed.

Lemma mask_size : mask CDC_TX_BUFFER_SIZE CDC_TX_BUFFER_SIZE = 0.
Proof. destruct Hcfg. rewrite mask_mod. apply Z.mod_same. lia. Qed.

Lemma mask_small (x : Z) :
  0 <= x < CDC_TX_BUFFER_SIZE -> mask CDC_TX_BUFFER_SIZE x = x.
Proof. intros Hx. rewrite mask_mod. apply Z.mod_small. exact Hx. Qed.

Lemma nb_step (free0 : Z) (w : World) (f : wr_frame) :
  nb_ok free0 w f ->
  wr_returned f = false ->
  nb_ok free0 (snd (write_step f w)) (fst (write_step f w))
  /\ 0 <= wr_rank (snd (write_step f w)) (fst (write_step f w))
       < wr_rank w f.
Proof.
  destruct Hcfg as [Hrx Htx].
  destruct (write_step f w) as [f' w'] eqn:E.
  destruct w as [c u rc tc yc].
  destruct c as [bl rxd rr rw rcn txd tr tw ts tcn tt tcb rcb].
  destruct u as [st ls fifo busy log].
  destruct f as [pc ipsr buf size count ltc lts ltr].
  unfold nb_ok, wr_rank, wr_rounds, buffer_ok. simpl.
  intros (Hnb & Hbuf & Hw & Hfree & Hpc) Hret.
  destruct pc; try discriminate; try contradiction;
    unfold write_step, stm32l4_usbd_cdc_done in E; simpl in *.
  all: rewrite ?Z.gtb_ltb in E.
  all: split_ifs_in E; simpl in E; injection E as <- <-; simpl.
  all: unfold transmit_from, stm32l4_usbd_cdc_transmit; simpl.
  all: repeat match goal with H : _ /\ _ |- _ => destruct H end; subst; simpl in *.
  all: repeat match goal with
       | H : context [if ?a <? ?b then _ else _] |- _ => destruct (Z.ltb_spec a b)
       end.
  all: try (exfalso; lia).
  all: try (exfalso; destruct bl; destruct (Z.eqb_spec ipsr 0); simpl in *;
            first [discriminate | destruct Hnb; congruence]).
  all: u32_elim.
  all: repeat match goal with
       | |- context [mask ?n ?x] =>
           first [ replace (mask n x) with 0
                     by (replace x with n by lia; symmetry; apply mask_size)
                 | let H := fresh "Hm" in
                   pose proof (mask_range n x ltac:(lia) ltac:(lia)) as H;
                   let v := fresh "m" in set (v := mask n x) in *; clearbody v ]
       end.
  all: repeat match goal with
       | |- context [if ?a <=? ?b then _ else _] => destruct (Z.leb_spec a b)
       end.
  all: try finish.
Qed.

Lemma write_step_returned (f : wr_frame) (w : World) :
  wr_returned f = true -> write_step f w = (f, w).
Proof.
  destruct f as [pc ? ? ? ? ? ? ?]. unfold wr_returned. simpl.
  destruct pc; try discriminate; reflexivity.
Qed.

Lemma write_steps_S (n : nat) (f : wr_frame) (w : World) :
  write_steps (S n) f w
  = write_steps n (fst (write_step f w)) (snd (write_step f w)).
Proof. simpl. destruct (write_step f w). reflexivity. Qed.

Lemma nb_steps (free0 : Z) (n : nat) :
  forall (f : wr_frame) (w : World),
    nb_ok free0 w f ->
    nb_ok free0 (snd (write_steps n f w)) (fst (write_steps n f w)).
Proof.
  induction n as [|n IH]; intros f w Hok; [exact Hok|].
  rewrite write_steps_S. apply IH.
  destruct (wr_returned f) eqn:R.
  - rewrite (write_step_returned f w R). exact Hok.
  - apply nb_step; assumption.
Qed.

Lemma write_step_buffer (f : wr_frame) (w : World) :
  w_buffer (fst (write_step f w)) = w_buffer f.
Proof.
  destruct (write_step f w) as [f' w'] eqn:E.
  destruct f as [pc ? ? ? ? ? ? ?]. unfold write_step in E. simpl in E.
  destruct pc; split_ifs_in E; injection E as <- <-; reflexivity.
Qed.

Lemma write_step_yields (f : wr_frame) (w : World) :
  in_full_branch (w_pc f) = false ->
  yield_calls (snd (write_step f w)) = yield_calls w.
Proof.
  destruct (write_step f w) as [f' w'] eqn:E.
  destruct f as [pc ? ? ? ? ? ? ?]. unfold write_step in E. simpl in E. simpl.
  destruct pc; try discriminate; intros _;
    split_ifs_in E; injection E as <- <-; reflexivity.
Qed.

Lemma nb_not_full (free0 : Z) (w : World) (f : wr_frame) :
  nb_ok free0 w f -> in_full_branch (w_pc f) = false.
Proof.
  unfold nb_ok. intros (_ & _ & _ & _ & Hpc).
  destruct (w_pc f); try reflexivity; contradiction.
Qed.

Lemma nb_buffer (free0 : Z) (n : nat) :
  forall (f : wr_frame) (w : World),
    w_buffer (fst (write_steps n f w)) = w_buffer f.
Proof.
  induction n as [|n IH]; intros f w; [reflexivity|].
  rewrite write_steps_S, IH. apply write_step_buffer.
Qed.

Lemma nb_yields (free0 : Z) (n : nat) :
  forall (f : wr_frame) (w : World),
    nb_ok free0 w f ->
    yield_calls (snd (write_steps n f w)) = yield_calls w.
Proof.
  induction n as [|n IH]; intros f w Hok; [reflexivity|].
  rewrite write_steps_S.
  rewrite IH.
  - apply write_step_yields. apply (nb_not_full free0 w f Hok).
  - destruct (wr_returned f) eqn:R.
    + rewrite (write_step_returned f w R). exact Hok.
    + apply nb_step; assumption.
Qed.

Lemma nb_rank_returned (free0 : Z) (w : World) (f : wr_frame) :
  nb_ok free0 w f -> wr_rank w f <= 0 -> wr_returned f = true.
Proof.
  destruct f as [pc ? ? ? ? ? ? ?]. unfold nb_ok, wr_rank, wr_rounds, wr_returned.
  simpl. intros (_ & _ & _ & _ & Hpc).
  destruct pc; try reflexivity; try contradiction;
    repeat match goal with
    | |- context [if ?a <=? ?b then _ else _] => destruct (Z.leb_spec a b)
    end; lia.
Qed.

Lemma nb_terminates (free0 : Z) (n : nat) :
  forall (f : wr_frame) (w : World),
    nb_ok free0 w f ->
    wr_rank w f <= Z.of_nat n ->
    wr_returned (fst (write_steps n f w)) = true.
Proof.
  induction n as [|n IH]; intros f w Hok Hrank.
  - apply (nb_rank_returned free0 w f Hok). exact Hrank.
  - rewrite write_steps_S.
    destruct (wr_returned f) eqn:R.
    + rewrite (write_step_returned f w R). simpl.
      apply IH; [exact Hok|].
      destruct f as [pc ? ? ? ? ? ? ?]. unfold wr_returned in R. simpl in R.
      unfold wr_rank. simpl. destruct pc; try discriminate; lia.
    + destruct (nb_step free0 w f Hok R) as [Hok' Hr].
      apply IH; [exact Hok' | lia].
Qed.

Lemma write_run_steps (n : nat) :
  forall (f : wr_frame) (w : World),
    wr_returned (fst (write_steps n f w)) = true ->
    write_run n f w
    = Some (wr_result (fst (write_steps n f w)), snd (write_steps n f w)).
Proof.
  induction n as [|n IH]; intros f w Hret.
  - simpl in *. rewrite Hret. reflexivity.
  - rewrite write_steps_S in *. simpl.
    destruct (wr_returned f) eqn:R.
    + rewrite (write_step_returned f w R) in *. simpl in *.
      specialize (IH f w Hret). destruct n; simpl in IH; rewrite R in IH; exact IH.
    + destruct (write_step f w) as [f' w']. simpl in *. apply IH. exact Hret.
Qed.

(** C4. A write with blocking off, or made from an interrupt handler, on
    a ready device with RTS asserted: its size is clamped to the room in
    the ring on entry, no step of it lies in the branch that holds the
    yield loop, and it returns the smaller of the size and the room within
    thirty steps. *)
Theorem write_never_blocks (ipsr : Z) (buffer : list byte) (w : World) :
  buffer_ok buffer ->
  0 <= _tx_write (cdc w) < CDC_TX_BUFFER_SIZE ->
  0 <= _tx_count (cdc w) <= CDC_TX_BUFFER_SIZE ->
  USBD_CDC_STATE_READY <= usbd_state (usbd w) ->
  Z.land (lineState (usbd w)) 2 <> 0 ->
  _blocking (cdc w) = false \/ ipsr <> 0 ->
  let size := Z.of_nat (length buffer) in
  let room := CDC_TX_BUFFER_SIZE - _tx_count (cdc w) in
  w_size (fst (write_steps 2 (write_call ipsr buffer) w)) = Z.min size room
  /\ (forall n : nat,
        in_full_branch
          (w_pc (fst (write_steps n (write_call ipsr buffer) w))) = false)
  /\ exists w' : World,
       write 30 ipsr buffer w = Some (Z.min size room, w')
       /\ yield_calls w' = yield_calls w.
Proof.
  intros Hbuf Hw Hc Hst Hls Hnb size room.
  assert (Hok : nb_ok room w (write_call ipsr buffer)).
  { unfold nb_ok, write_call. simpl. subst room. repeat split; try assumption; lia. }
  split; [|split].
  - pose proof (nb_steps room 2 _ _ Hok) as H2.
    assert (Hpc : w_pc (fst (write_steps 2 (write_call ipsr buffer) w)) = W201).
    { assert (E1 : write_step (write_call ipsr buffer) w
                   = (wr_goto W193 (write_call ipsr buffer), w)).
      { unfold write_step. simpl.
        destruct (Z.ltb_spec (usbd_state (usbd w)) USBD_CDC_STATE_READY); [lia|].
        destruct (Z.eqb_spec (Z.land (lineState (usbd w)) 2) 0); [contradiction|].
        reflexivity. }
      rewrite write_steps_S, E1. cbn [fst snd].
      rewrite write_steps_S. cbn [write_steps].
      unfold write_step. simpl.
      destruct (negb (_blocking (cdc w)) || negb (ipsr =? 0)); [|reflexivity].
      destruct (_ >? _); reflexivity. }
    unfold nb_ok in H2. rewrite Hpc in H2.
    destruct H2 as (_ & Hb & _ & _ & Hsz & _).
    rewrite Hsz, (nb_buffer room 2). reflexivity.
  - intros n. pose proof (nb_steps room n _ _ Hok) as Hn.
    unfold nb_ok in Hn. destruct Hn as (_ & _ & _ & _ & Hpc).
    destruct (w_pc (fst (write_steps n (write_call ipsr buffer) w)));
      try reflexivity; contradiction.
  - assert (Hrank : wr_rank w (write_call ipsr buffer) <= Z.of_nat 30)
      by (change (Z.of_nat 30) with 30; unfold wr_rank; simpl; lia).
    pose proof (nb_terminates room 30 _ _ Hok Hrank) as Hret.
    pose proof (nb_steps room 30 _ _ Hok) as H30.
    exists (snd (write_steps 30 (write_call ipsr buffer) w)).
    unfold write. rewrite (write_run_steps 30 _ _ Hret).
    split.
    + f_equal. f_equal. unfold nb_ok in H30. unfold wr_returned in Hret. unfold wr_result.
      destruct H30 as (_ & _ & _ & _ & Hpc).
      destruct (w_pc (fst (write_steps 30 (write_call ipsr buffer) w)));
        try discriminate; try contradiction.
      destruct Hpc as [Hsz Hcn]. rewrite Hcn, Hsz.
      rewrite (nb_buffer room 30). reflexivity.
    + apply (nb_yields room 30 _ _ Hok).
Qed.
End NonBlocking.

(** ** A write driven to its end *)

Section Drive.
Context {cfg : Config}.
Hypothesis Hcfg : config_ok.
Hypothesis Hev : events_ok.
Hypothesis Hpkt : 1 <= u32 CDC_TX_PACKET_SIZE.

Lemma usbd_callback_transmit (w : World) :
  usbd_callback 0 [] USBD_CDC_EVENT_TRANSMIT w
  = (Returned,
     tx_complete (with_usbd (usbd_event [] USBD_CDC_EVENT_TRANSMIT) w)).
Proof.
  destruct Hev as [Hnz Hdis]. unfold usbd_callback, EventCallback.
  rewrite Hdis. simpl. rewrite Z.land_diag.
  destruct (Z.eqb_spec USBD_CDC_EVENT_TRANSMIT 0); [contradiction|]. reflexivity.
Qed.

Lemma tx_clamp_pos (s r : Z) :
  1 <= s -> 0 <= r < CDC_TX_BUFFER_SIZE -> 1 <= tx_clamp s r.
Proof.
  destruct Hcfg as [_ Htx]. intros Hs Hr. unfold tx_clamp.
  rewrite (u32_small (CDC_TX_BUFFER_SIZE - r)) by lia.
  rewrite !Z.gtb_ltb.
  destruct (Z.ltb_spec (CDC_TX_BUFFER_SIZE - r) s);
    match goal with |- context [if ?a <? ?b then _ else _] =>
      destruct (Z.ltb_spec a b) end; lia.
Qed.

(** What a completed packet changes, as the drive needs it. *)
Lemma device_completes_spec (w : World) :
  tx_ok (cdc w) ->
  let w' := device_completes w in
  let n := _tx_count (cdc w) - _tx_size (cdc w) in
  _blocking (cdc w') = _blocking (cdc w)
  /\ _tx_count (cdc w') = n
  /\ tx_busy (usbd w') = negb (n =? 0)
  /\ (tx_busy (usbd w') = true -> 1 <= _tx_size (cdc w'))
  /\ exists more, tx_lens (usbd w') = tx_lens (usbd w) ++ more.
Proof.
  destruct Hcfg as [Hrx Htx].
  unfold device_completes. rewrite usbd_callback_transmit.
  destruct Hev as [Hnz _].
  destruct w as [c u rc tc yc].
  destruct c as [bl rxd rr rw rcn txd tr tw ts tcn tt tcb rcb].
  destruct u as [st ls fifo busy log].
  unfold tx_ok. simpl. intros (Hr & Hw & Hs & Hc).
  unfold tx_complete, tx_ack. simpl.
  match goal with |- context [tx_next ?x] => remember (tx_next x) as w2 eqn:E2 end.
  unfold tx_next in E2. simpl in E2.
  rewrite (u32_small (tcn - ts)) in E2 by lia.
  assert (Hm : 0 <= mask CDC_TX_BUFFER_SIZE (u32 (tr + ts)) < CDC_TX_BUFFER_SIZE)
    by (apply mask_range; [lia | apply u32_range]).
  set (m := mask CDC_TX_BUFFER_SIZE (u32 (tr + ts))) in *. clearbody m.
  assert (H3 : forall w2, exists k,
             tx_notify w2 = mkWorld (cdc w2) (usbd w2) (receive_calls w2) k (yield_calls w2)).
  { intros w3. unfold tx_notify. destruct (_ && _); [eexists; reflexivity|].
    destruct w3; eexists; reflexivity. }
  destruct (H3 w2) as [k ->]. simpl.
  assert (Hbit : negb (Z.land USBD_CDC_EVENT_TRANSMIT USBD_CDC_EVENT_TRANSMIT =? 0)
                 = true).
  { rewrite Z.land_diag. destruct (Z.eqb_spec USBD_CDC_EVENT_TRANSMIT 0);
      [contradiction | reflexivity]. }
  destruct (Z.eqb_spec (tcn - ts) 0) as [Hz|Hz]; simpl in E2; subst w2;
    unfold transmit_from, stm32l4_usbd_cdc_transmit, tx_lens; simpl;
    rewrite ?Hbit.
  - split; [reflexivity|]. split; [reflexivity|]. split; [reflexivity|].
    split; [intros; discriminate|].
    exists []. rewrite app_nil_r. reflexivity.
  - pose proof (tx_clamp_pos (tcn - ts) m ltac:(lia) Hm).
    split; [reflexivity|]. split; [reflexivity|]. split; [reflexivity|].
    split; [intros; assumption|].
    rewrite map_app. eexists. reflexivity.
Qed.

Lemma device_completes_step (w : World) (f : frame) (rets : list Z) :
  tx_busy (usbd w) = true ->
  step (mkSys w f rets) (mkSys (device_completes w) f rets).
Proof.
  intros Hbusy.
  apply (step_event w f rets [] USBD_CDC_EVENT_TRANSMIT 0).
  - intros _. exact Hbusy.
  - unfold device_completes.
    change (EventCallback 0 USBD_CDC_EVENT_TRANSMIT
              (with_usbd (usbd_event [] USBD_CDC_EVENT_TRANSMIT) w))
      with (usbd_callback 0 [] USBD_CDC_EVENT_TRANSMIT w).
    rewrite usbd_callback_transmit. reflexivity.
Qed.

Lemma drive_step_is_step (s : System) :
  match fg s with Idle | InWrite _ => True | _ => False end ->
  settled s = false ->
  step s (drive_step s).
Proof.
  destruct s as [w f rets]. unfold drive_step, settled. simpl.
  destruct f as [|f|rf|rf]; try contradiction; intros _ Hs.
  - destruct (tx_busy (usbd w)) eqn:B; [|discriminate].
    apply device_completes_step. exact B.
  - destruct (wr_returned f) eqn:R; [apply step_ret_write; exact R|].
    destruct (spinning f w && tx_busy (usbd w)) eqn:Sp.
    + apply andb_true_iff in Sp. apply device_completes_step. apply Sp.
    + apply step_write. exact R.
Qed.

Lemma drive_write_step (bl0 : bool) (buffer : list byte) (lens0 : list Z)
    (w : World) (f : wr_frame) (rets : list Z) :
  drive_ok bl0 buffer rets lens0 (mkSys w (InWrite f) rets) ->
  wr_returned f = false ->
  spinning f w && tx_busy (usbd w) = false ->
  let s' := mkSys (snd (write_step f w)) (InWrite (fst (write_step f w))) rets in
  (sys_inv s' -> drive_ok bl0 buffer rets lens0 s')
  /\ 0 <= drive_measure s'
       < drive_measure (mkSys w (InWrite f) rets).
Proof.
  destruct Hcfg as [Hrx Htx].
  destruct (write_step f w) as [f' w'] eqn:E.
  destruct w as [c u rc tc yc].
  destruct c as [bl rxd rr rw rcn txd tr tw ts tcn tt tcb rcb].
  destruct u as [st ls fifo busy log].
  destruct f as [pc ipsr buf size count ltc lts ltr].
  unfold drive_ok, drive_measure, to_queue, pc_rank, pending, spinning.
  unfold sys_inv at 1.
  unfold rx_ok, rd_ok, tx_ok, fg_ok, wr_ok, in_flight, tx_lens, buffer_ok. simpl.
  intros ((Hr & _ & Ht & (Hip & Hsz & Hbuf & Hpc) & Htot & Hlens & Hbal & Hq & Hk)
          & Hbl & Hbs & (chunks & Hch) & _ & Hb & Hd) Hret Hsp.
  destruct pc; try discriminate Hret; try contradiction;
    unfold write_step, stm32l4_usbd_cdc_done in E; simpl in *.
  all: rewrite ?Z.gtb_ltb in E.
  all: split_ifs_in E; simpl in E; injection E as <- <-; simpl.
  all: unfold transmit_from, stm32l4_usbd_cdc_transmit; simpl.
  all: rewrite ?map_app; simpl.
  all: repeat match goal with H : _ /\ _ |- _ => destruct H end; subst; simpl in *.
  all: try discriminate.
  all: try match goal with
       | H : false = true \/ _ |- _ => destruct H as [H|H]; [discriminate H|]
       end.
  all: try match goal with
       | |- context [tx_clamp ?s ?r] =>
           pose proof (tx_clamp_pos s r ltac:(lia) ltac:(lia)) as Hclamp
       end.
  all: repeat match goal with
       | H : context [if ?a <? ?b then _ else _] |- _ => destruct (Z.ltb_spec a b)
       end.
  all: u32_elim.
  all: mask_elim.
  all: (split; [intros Hinv'; split; [exact Hinv'|]; clear Hinv' |]).
  all: repeat match goal with
            | |- _ /\ _ => split
            | |- exists c, ?l = ?l0 ++ c => exists chunks; assumption
            | |- exists c, ?l ++ ?x = ?l0 ++ c =>
                exists (chunks ++ x); rewrite app_assoc; congruence
            | |- _ -> _ => intro
            end.
  all: try first [assumption | reflexivity | lia | auto; fail
                 | destruct bl0; simpl in *; congruence ].
  all: match goal with
       | Hs : ?b = false, H : ?b = true \/ _ |- _ =>
           destruct H as [H|H]; [congruence | exfalso; lia]
       end.
Qed.

Lemma drive_progress (bl0 : bool) (buffer : list byte) (rets0 lens0 : list Z)
    (s : System) :
  drive_ok bl0 buffer rets0 lens0 s ->
  settled s = false ->
  drive_ok bl0 buffer rets0 lens0 (drive_step s)
  /\ 0 <= drive_measure (drive_step s) < drive_measure s.
Proof.
  destruct Hcfg as [Hrx Htx].
  intros (Hinv & Hbl & Hbs & Hch & Hfg) Hset.
  assert (Hstep : step s (drive_step s)).
  { apply drive_step_is_step; [|exact Hset].
    destruct (fg s); try exact I; contradiction. }
  pose proof (sys_inv_step Hcfg s (drive_step s) Hinv Hstep) as Hinv'.
  clear Hstep. revert Hinv'.
  destruct s as [w f rets]; unfold drive_ok, drive_step, settled, drive_measure in *;
    simpl in *.
  destruct f as [|f|rf|rf]; try contradiction.
  - (* Idle: the packet in flight completes *)
    destruct (tx_busy (usbd w)) eqn:B; [|simpl in Hset; discriminate Hset]. simpl.
    intros Hinv'.
    destruct Hinv as (_ & _ & Hok & _).
    destruct (device_completes_spec w Hok) as (E1 & E2 & E3 & E4 & more & E5).
    destruct Hch as [chunks Hch].
    split; [split; [exact Hinv'|]|].
    + rewrite E1. split; [exact Hbl|]. split; [exact E4|].
      split; [|exact Hfg].
      exists (chunks ++ more). rewrite E5, Hch, app_assoc. reflexivity.
    + rewrite E2. specialize (Hbs eq_refl). destruct Hok as (_ & _ & Hs & _).
      simpl in Hs. lia.
  - (* a write in progress *)
    destruct Hfg as (Hrets & Hbuf & Hpc).
    destruct (wr_returned f) eqn:R.
    { (* it returns *)
      intros Hinv'. split; [split; [exact Hinv'|]|]; clear Hinv'; simpl.
      - split; [exact Hbl|]. split; [exact Hbs|]. split; [exact Hch|].
        exists (wr_result f). split; [rewrite Hrets; reflexivity|].
        destruct Hinv as (_ & _ & _ & Hw & _). simpl in Hw.
        destruct Hw as (_ & _ & _ & Hw).
        unfold wr_returned in R. unfold wr_result.
        destruct (w_pc f); try discriminate R; try contradiction.
        intros Hb. specialize (Hpc Hb). lia.
      - destruct Hinv as (_ & _ & Hok & Hw & _). simpl in Hw.
        destruct Hw as (_ & _ & _ & Hw). destruct Hok as (_ & _ & Hs & _).
        unfold wr_returned in R. unfold pc_rank, to_queue, pending.
        destruct (w_pc f); try discriminate R; try contradiction; simpl in *; lia. }
    destruct (spinning f w && tx_busy (usbd w)) eqn:Sp.
    { (* it yields, and the packet in flight completes *)
      apply andb_true_iff in Sp. destruct Sp as [Sp B].
      intros Hinv'. split; [split; [exact Hinv'|]|]; clear Hinv'; simpl.
      - destruct Hinv as (_ & _ & Hok & _).
        destruct (device_completes_spec w Hok) as (E1 & E2 & E3 & E4 & more & E5).
        destruct Hch as [chunks Hch].
        rewrite E1. split; [exact Hbl|]. split; [exact E4|].
        split; [exists (chunks ++ more); rewrite E5, Hch, app_assoc; reflexivity|].
        split; [exact Hrets|]. split; [exact Hbuf|].
        unfold spinning in Sp. destruct (w_pc f); try discriminate Sp. exact Hpc.
      - destruct Hinv as (_ & _ & Hok & Hw & _). simpl in Hw.
        destruct Hw as (_ & _ & _ & Hw).
        destruct (device_completes_spec w Hok) as (E1 & E2 & E3 & E4 & more & E5).
        rewrite E2. specialize (Hbs B). destruct Hok as (_ & _ & Hs & _).
        unfold spinning in Sp. unfold pc_rank, to_queue, pending.
        destruct (w_pc f); try discriminate Sp. simpl in *. lia. }
    (* it takes a step *)
    intros Hinv'.
    pose proof (drive_write_step bl0 buffer lens0 w f rets) as Hstep.
    simpl in Hstep. subst rets0.
    destruct Hstep as [Hok' Hm]; [|exact R|exact Sp|].
    { unfold drive_ok. simpl.
      split; [exact Hinv|]. split; [exact Hbl|]. split; [exact Hbs|].
      split; [exact Hch|]. split; [reflexivity|]. split; [exact Hbuf|exact Hpc]. }
    split; [apply Hok'; exact Hinv' | exact Hm].
Qed.

Lemma drive_settled (n : nat) (s : System) :
  settled s = true -> drive n s = s.
Proof.
  intros Hs. induction n as [|n IH]; [reflexivity|]. simpl.
  assert (E : drive_step s = s).
  { destruct s as [w f rets]. unfold drive_step, settled in *. simpl in *.
    destruct f; try discriminate Hs.
    destruct (tx_busy (usbd w)); [discriminate Hs | reflexivity]. }
  rewrite E. exact IH.
Qed.

Lemma drive_terminates (bl0 : bool) (buffer : list byte) (rets0 lens0 : list Z)
    (n : nat) :
  forall s : System,
    drive_ok bl0 buffer rets0 lens0 s ->
    drive_measure s <= Z.of_nat n ->
    settled (drive n s) = true
    /\ drive_ok bl0 buffer rets0 lens0 (drive n s).
Proof.
  induction n as [|n IH]; intros s Hok Hm.
  - simpl. destruct (settled s) eqn:Hs; [split; [reflexivity | exact Hok]|].
    destruct (drive_progress bl0 buffer rets0 lens0 s Hok Hs) as [_ Hlt]. lia.
  - destruct (settled s) eqn:Hs.
    + rewrite (drive_settled (S n) s Hs). split; assumption.
    + destruct (drive_progress bl0 buffer rets0 lens0 s Hok Hs) as [Hok' Hlt].
      simpl. apply IH; [exact Hok' | lia].
Qed.

End Drive.

(** ** The packet ceiling *)

Section Packet.
Context {cfg : Config}.
Hypothesis Hfifo : fifo_ok.

(** The ceiling is one byte less than the FIFO size rounded up to a
    multiple of 64. *)
Lemma packet_size_round :
  CDC_TX_PACKET_SIZE = 64 * ((USBD_CDC_FIFO_SIZE + 63) / 64) - 1.
Proof.
  unfold CDC_TX_PACKET_SIZE.
  rewrite <- Z.ldiff_land.
  change 63 with (Z.ones 6) at 2.
  rewrite Z.ldiff_ones_r by lia.
  rewrite Z.shiftl_mul_pow2, Z.shiftr_div_pow2 by lia.
  change (2 ^ 6) with 64. lia.
Qed.

Lemma packet_size_bounds :
  USBD_CDC_FIFO_SIZE <= CDC_TX_PACKET_SIZE + 1 < USBD_CDC_FIFO_SIZE + 64
  /\ (CDC_TX_PACKET_SIZE + 1) mod 64 = 0
  /\ 63 <= CDC_TX_PACKET_SIZE < 2 ^ 31.
Proof.
  unfold fifo_ok in Hfifo. rewrite packet_size_round.
  pose proof (Z.div_mod (USBD_CDC_FIFO_SIZE + 63) 64 ltac:(lia)) as Hdm.
  pose proof (Z.mod_pos_bound (USBD_CDC_FIFO_SIZE + 63) 64 ltac:(lia)) as Hmb.
  replace (64 * ((USBD_CDC_FIFO_SIZE + 63) / 64) - 1 + 1)
    with (((USBD_CDC_FIFO_SIZE + 63) / 64) * 64) by lia.
  rewrite Z.mod_mul by lia.
  repeat split; lia.
Qed.

Lemma packet_size_u32 : u32 CDC_TX_PACKET_SIZE = CDC_TX_PACKET_SIZE.
Proof. apply u32_small. pose proof packet_size_bounds. lia. Qed.

End Packet.

Section Chunks.
Context {cfg : Config}.
Hypothesis Hcfg : config_ok.
Hypothesis Hev : events_ok.
Hypothesis Hfifo : fifo_ok.


End Chunks.

(** ** The theorems at work on [cfg64] *)

Lemma reachable_in_write64 : reachable (cfg := cfg64) in_write64.
Proof.
  apply (reach_step (mkSys ready64 (InWrite (write_call 0 (bytes_from 0 10))) [])).
  - apply (reach_step (mkSys ready64 Idle [])).
    + apply reach_new.
    + apply step_call_write. unfold buffer_ok. simpl. lia.
  - exact (step_write (cfg := cfg64) ready64 (write_call 0 (bytes_from 0 10)) []
             eq_refl).
Qed.

Lemma count_within_capacity_witness :
  counts_ok (cfg := cfg64) (world in_write64)
  /\ forall (fuel : nat) (data : list byte) (events : Z),
       (Z.land events 2 <> 0 -> tx_busy (usbd (world in_write64)) = true) ->
       counts_ok (cfg := cfg64)
         (snd (usbd_callback (cfg := cfg64) fuel data events
                 (world in_write64))).
Proof.
  apply (count_within_capacity config_ok_cfg64 in_write64 reachable_in_write64).
Defined.

Lemma tx_size_count_total_witness :
  0 <= _tx_size (cdc (world in_write64)) <= _tx_count (cdc (world in_write64))
  /\ _tx_count (cdc (world in_write64)) <= _tx_total (cdc (world in_write64))
  /\ (_tx_total (cdc (world in_write64)) = 0 ->
      _tx_count (cdc (world in_write64)) = 0
      /\ _tx_size (cdc (world in_write64)) = 0
      /\ tx_busy (usbd (world in_write64)) = false).
Proof.
  apply (tx_size_count_total config_ok_cfg64 in_write64 reachable_in_write64).
Defined.

Lemma available_counts_witness :
  available rx_full64 = 64
  /\ availableForWrite (cfg := cfg64) rx_full64 = 64.
Proof.
  apply (available_counts config_ok_cfg64 rx_full64); vm_compute; split; discriminate.
Defined.

(** C9 as stated fails below ready: the device is still enabling, the
    transmit ring is empty, and [availableForWrite] is 0, not 64. *)
Lemma availableForWrite_below_ready :
  availableForWrite (cfg := cfg64) init64
  <> @CDC_TX_BUFFER_SIZE cfg64 - _tx_count (cdc init64).
Proof. vm_compute. discriminate. Qed.

Lemma write_rejected_witness :
  write (cfg := cfg64) 1 0 (bytes_from 0 10) init64 = Some (0, init64).
Proof.
  apply (write_rejected 0 0 (bytes_from 0 10) init64).
  left. simpl. lia.
Defined.

Lemma tx_pow2_cfg64 : tx_pow2 (cfg := cfg64).
Proof. reflexivity. Qed.

Lemma write_never_blocks_witness :
  w_size (fst (write_steps (cfg := cfg64) 2
                 (write_call 0 (bytes_from 0 100)) nonblocking64))
  = Z.min 100 64
  /\ (forall n : nat,
        in_full_branch
          (w_pc (fst (write_steps (cfg := cfg64) n
                        (write_call 0 (bytes_from 0 100)) nonblocking64)))
        = false)
  /\ exists w' : World,
       write (cfg := cfg64) 30 0 (bytes_from 0 100) nonblocking64
       = Some (Z.min 100 64, w')
       /\ yield_calls w' = yield_calls nonblocking64.
Proof.
  apply (write_never_blocks config_ok_cfg64 tx_pow2_cfg64 0 (bytes_from 0 100)
           nonblocking64).
  - unfold buffer_ok. simpl. lia.
  - simpl. lia.
  - simpl. lia.
  - simpl. lia.
  - simpl. discriminate.
  - left. reflexivity.
Defined.

Lemma events_ok_cfg64 : events_ok (cfg := cfg64).
Proof. split; [discriminate | reflexivity]. Qed.

Lemma fifo_ok_cfg64 : fifo_ok (cfg := cfg64).
Proof. unfold fifo_ok. simpl. lia. Qed.



(** ** Runs of the model on [cfg64] *)

(** A blocking write of 100 bytes through the ring of 64: the writer
    yields while the first packets leave; all bytes reach the wire in
    order, in packets of 63, 1 and 36. *)
Example blocking_write_100 :
  write_returns (drive (cfg := cfg64) 200 blocking_write64) = [100]
  /\ tx_lens (usbd (world (drive (cfg := cfg64) 200 blocking_write64)))
     = [63; 1; 36]
  /\ concat (map snd
       (tx_log (usbd (world (drive (cfg := cfg64) 200 blocking_write64)))))
     = bytes_from 0 100.
Proof. vm_compute. repeat split; reflexivity. Qed.

(** Without the device the same write never returns: the ring fills and
    the writer yields for ever. *)
Example blocking_write_stalls :
  write (cfg := cfg64) 500 0 (bytes_from 0 100) ready64 = None.
Proof. vm_compute. reflexivity. Qed.

(** Single reads take the oldest byte; [peek] leaves it. *)
Example read1_full :
  peek rx_full64 = 1
  /\ option_map fst (read1 (cfg := cfg64) 4 rx_full64) = Some 1
  /\ option_map (fun r => available (snd r)) (read1 (cfg := cfg64) 4 rx_full64)
     = Some 63
  /\ read1 (cfg := cfg64) 4 ready64 = Some (-1, ready64).
Proof. vm_compute. repeat split; reflexivity. Qed.

(** ** Copies and ring contents *)

Lemma mask_pow2 (size x : Z) :
  0 < size -> size = 2 ^ Z.log2 size -> mask size x = x mod size.
Proof.
  intros Hs Hp. unfold mask.
  set (k := Z.log2 size) in *.
  rewrite Hp. rewrite Z.sub_1_r, <- Z.ones_equiv.
  apply Z.land_ones. apply Z.log2_nonneg.
Qed.

Lemma length_memcpy_to (dst : list byte) (off : Z) (src : list byte) :
  0 <= off -> off + Z.of_nat (length src) <= Z.of_nat (length dst) ->
  length (memcpy_to dst off src) = length dst.
Proof.
  intros Ho Hl. unfold memcpy_to.
  rewrite !length_app, length_firstn, length_skipn. lia.
Qed.

Lemma length_memcpy_from (src : list byte) (off n : Z) :
  0 <= off -> 0 <= n -> off + n <= Z.of_nat (length src) ->
  Z.of_nat (length (memcpy_from src off n)) = n.
Proof.
  intros Ho Hn Hl. unfold memcpy_from.
  rewrite length_firstn, length_skipn. lia.
Qed.

Lemma nth_memcpy_to_out (dst : list byte) (off : Z) (src : list byte) (p : nat) :
  0 <= off -> off + Z.of_nat (length src) <= Z.of_nat (length dst) ->
  (Z.of_nat p < off \/ off + Z.of_nat (length src) <= Z.of_nat p) ->
  nth p (memcpy_to dst off src) x00 = nth p dst x00.
Proof.
  intros Ho Hl Hp. unfold memcpy_to.
  assert (Hf : length (firstn (Z.to_nat off) dst) = Z.to_nat off)
    by (rewrite length_firstn; lia).
  destruct Hp as [Hp|Hp].
  - rewrite app_nth1 by lia. rewrite nth_firstn.
    destruct (Nat.ltb_spec p (Z.to_nat off)); [reflexivity | lia].
  - rewrite app_nth2 by lia. rewrite app_nth2 by lia.
    rewrite nth_skipn. f_equal. lia.
Qed.

Lemma memcpy_from_to (dst : list byte) (off : Z) (src : list byte) :
  0 <= off -> off <= Z.of_nat (length dst) ->
  memcpy_from (memcpy_to dst off src) off (Z.of_nat (length src)) = src.
Proof.
  intros Ho Hl. unfold memcpy_from, memcpy_to.
  assert (Hf : length (firstn (Z.to_nat off) dst) = Z.to_nat off)
    by (rewrite length_firstn; lia).
  rewrite skipn_app, Hf, Nat.sub_diag. cbn [skipn].
  rewrite (skipn_all2 (firstn (Z.to_nat off) dst)) by lia. cbn [app].
  rewrite Nat2Z.id, firstn_app, Nat.sub_diag, firstn_all. cbn [firstn].
  apply app_nil_r.
Qed.

Lemma memcpy_from_nth (src : list byte) (off n : Z) :
  0 <= off -> 0 <= n -> off + n <= Z.of_nat (length src) ->
  memcpy_from src off n
  = map (fun i => nth (Z.to_nat off + i) src x00) (seq 0 (Z.to_nat n)).
Proof.
  intros Ho Hn Hl. unfold memcpy_from.
  apply (nth_ext _ _ x00 x00).
  - rewrite length_map, length_seq, length_firstn, length_skipn. lia.
  - intros i Hi. rewrite length_firstn, length_skipn in Hi.
    rewrite nth_firstn.
    destruct (Nat.ltb_spec i (Z.to_nat n)); [|lia].
    rewrite nth_skipn.
    set (f := fun i => nth (Z.to_nat off + i) src x00).
    rewrite (nth_indep (map f (seq 0 (Z.to_nat n))) x00 (f 0%nat))
      by (rewrite length_map, length_seq; lia).
    rewrite (map_nth f), seq_nth by lia. reflexivity.
Qed.

Lemma map_seq_from {A : Type} (f : nat -> A) (a n : nat) :
  map f (seq a n) = map (fun i => f (a + i)%nat) (seq 0 n).
Proof.
  revert a. induction n as [|n IH]; intros a; [reflexivity|].
  cbn [seq map]. rewrite Nat.add_0_r. f_equal.
  rewrite IH, <- seq_shift, map_map.
  apply map_ext. intros i. f_equal. lia.
Qed.

Section Ring.
Variable size : Z.
Hypothesis Hsize : 0 < size.

Lemma length_ring (data : list byte) (read count : Z) :
  length (ring size data read count) = Z.to_nat count.
Proof. unfold ring. rewrite length_map, length_seq. reflexivity. Qed.


(** A ring of [a + b] bytes is its first [a] bytes and the ring of [b]
    bytes that starts [a] slots further. *)
Lemma ring_app (data : list byte) (read a b : Z) :
  0 <= a -> 0 <= b ->
  ring size data read (a + b)
  = ring size data read a ++ ring size data ((read + a) mod size) b.
Proof.
  intros Ha Hb. unfold ring.
  rewrite Z2Nat.inj_add, seq_app, map_app by lia. f_equal.
  cbn [Nat.add]. rewrite map_seq_from.
  apply map_ext. intros i. f_equal. f_equal.
  rewrite Zplus_mod_idemp_l. f_equal. lia.
Qed.

(** A span that does not reach the end of the array reads as one copy. *)
Lemma ring_contiguous (data : list byte) (read count : Z) :
  0 <= read -> 0 <= count -> read + count <= size ->
  size <= Z.of_nat (length data) ->
  ring size data read count = memcpy_from data read count.
Proof.
  intros Hr Hc Hs Hl. rewrite memcpy_from_nth by lia. unfold ring.
  apply map_ext_in. intros i Hi. apply in_seq in Hi.
  f_equal. rewrite Z.mod_small by lia. lia.
Qed.

(** Two arrays that agree on the slots of a span hold the same ring there. *)
Lemma ring_ext (data data' : list byte) (read count : Z) :
  (forall i : Z, 0 <= i < count ->
     nth (Z.to_nat ((read + i) mod size)) data' x00
     = nth (Z.to_nat ((read + i) mod size)) data x00) ->
  ring size data' read count = ring size data read count.
Proof.
  intros H. unfold ring. apply map_ext_in. intros i Hi. apply in_seq in Hi.
  apply H. lia.
Qed.

Lemma mod_add_small (a d : Z) :
  0 <= d < size -> (a + d) mod size = a mod size -> d = 0.
Proof.
  intros Hd E.
  assert (H : (a + d - a) mod size = 0).
  { rewrite Zminus_mod, E, Z.sub_diag. apply Z.mod_0_l. lia. }
  replace (a + d - a) with d in H by lia.
  rewrite Z.mod_small in H by lia. exact H.
Qed.

(** The slots of the free span behind a ring are not slots of the ring. *)
Lemma ring_slot_free (read count i j : Z) :
  0 <= i < count -> 0 <= j -> count + j < size ->
  (read + i) mod size <> (read + count + j) mod size.
Proof.
  intros Hi Hj Hc E.
  assert (H : count + j - i = 0).
  { apply (mod_add_small (read + i)); [lia|].
    replace (read + i + (count + j - i)) with (read + count + j) by lia.
    symmetry. exact E. }
  lia.
Qed.

(** A copy into the free span behind a ring leaves the ring as it is. *)
Lemma ring_memcpy_to (data : list byte) (read count : Z) (src : list byte) :
  0 <= count ->
  let off := (read + count) mod size in
  off + Z.of_nat (length src) <= size ->
  count + Z.of_nat (length src) <= size ->
  Z.of_nat (length data) = size ->
  ring size (memcpy_to data off src) read count = ring size data read count.
Proof.
  intros Hc off Ho Hn Hl.
  pose proof (Z.mod_pos_bound (read + count) size Hsize) as Hoff. fold off in Hoff.
  apply ring_ext. intros i Hi.
  apply nth_memcpy_to_out; [lia | lia |].
  pose proof (Z.mod_pos_bound (read + i) size Hsize) as Hp.
  rewrite Z2Nat.id by lia.
  destruct (Z_lt_le_dec ((read + i) mod size) off) as [Hlt|Hge]; [left; exact Hlt|].
  right.
  destruct (Z_le_gt_dec (off + Z.of_nat (length src)) ((read + i) mod size))
    as [Hle|Hgt]; [exact Hle|exfalso].
  set (j := (read + i) mod size - off).
  apply (ring_slot_free read count i j); [lia | lia | lia |].
  replace (read + count + j) with (j + (read + count)) by lia.
  rewrite <- (Zplus_mod_idemp_r (read + count) j). fold off.
  rewrite (Z.mod_small (j + off)) by lia. lia.
Qed.

(** The bytes copied behind a ring join it at its end. *)
Lemma ring_push (data : list byte) (read count : Z) (src : list byte) :
  0 <= count ->
  let off := (read + count) mod size in
  off + Z.of_nat (length src) <= size ->
  count + Z.of_nat (length src) <= size ->
  Z.of_nat (length data) = size ->
  ring size (memcpy_to data off src) read (count + Z.of_nat (length src))
  = ring size data read count ++ src.
Proof.
  intros Hc off Ho Hn Hl.
  pose proof (Z.mod_pos_bound (read + count) size Hsize) as Hoff. fold off in Hoff.
  rewrite ring_app by lia.
  pose proof (ring_memcpy_to data read count src Hc Ho Hn Hl) as E.
  cbv zeta in E. subst off. rewrite E. f_equal.
  rewrite ring_contiguous; try lia.
  - apply memcpy_from_to; lia.
  - rewrite length_memcpy_to; lia.
Qed.

(** Dropping the first [k] bytes of a ring moves its start. *)
Lemma ring_skipn (data : list byte) (read count k : Z) :
  0 <= k <= count ->
  skipn (Z.to_nat k) (ring size data read count)
  = ring size data ((read + k) mod size) (count - k).
Proof.
  intros Hk. replace count with (k + (count - k)) at 1 by lia.
  rewrite ring_app by lia.
  rewrite skipn_app, length_ring, Nat.sub_diag. cbn [skipn].
  rewrite skipn_all2 by (rewrite length_ring; lia). reflexivity.
Qed.

Lemma ring_firstn (data : list byte) (read count k : Z) :
  0 <= k <= count ->
  firstn (Z.to_nat k) (ring size data read count) = ring size data read k.
Proof.
  intros Hk. replace count with (k + (count - k)) at 1 by lia.
  rewrite ring_app by lia.
  rewrite firstn_app, length_ring, Nat.sub_diag. cbn [firstn].
  rewrite firstn_all2 by (rewrite length_ring; lia). apply app_nil_r.
Qed.

End Ring.

Local Arguments ring : simpl never.

(** ** The receive ring as a queue *)

Section RxQueue.
Context {cfg : Config}.
Hypothesis Hcfg : config_ok.
Hypothesis Hpow : rx_pow2.

Lemma rx_pull_stream (n : Z) (w : World) :
  rx_wf w ->
  0 <= n <= CDC_RX_BUFFER_SIZE - _rx_count (cdc w) ->
  rx_wf (snd (rx_pull n w)) /\ rx_stream (snd (rx_pull n w)) = rx_stream w.
Proof.
  destruct Hcfg as [Hrx Htx]. intros (Hok & Hlen & Hwr) Hn.
  pose proof (rx_pull_only Hcfg n w Hok Hn) as [(_ & _ & _ & Hok') _].
  revert Hok'.
  unfold rx_pull, stm32l4_usbd_cdc_receive, rx_stream, rx_ring, rx_wf.
  match goal with
  | |- context [firstn (Z.to_nat ?k) ?l] =>
      set (cap := k) in *; set (bytes := firstn (Z.to_nat cap) l) in *
  end.
  destruct w as [c u rc tc yc].
  destruct c as [bl rxd rr rw rcn txd tr tw ts tcn tt tcb rcb].
  destruct u as [st ls fifo busy log].
  destruct Hok as (Hr & Hw & Hc). simpl in *.
  assert (Hcap : 0 <= cap <= n /\ cap <= CDC_RX_BUFFER_SIZE - rw).
  { subst cap. rewrite Z.gtb_ltb. rewrite (u32_small (CDC_RX_BUFFER_SIZE - rw)) by lia.
    destruct (Z.ltb_spec (CDC_RX_BUFFER_SIZE - rw) n); lia. }
  assert (Hb : 0 <= Z.of_nat (length bytes) <= cap).
  { subst bytes. pose proof (firstn_le_length (Z.to_nat cap) fifo). lia. }
  assert (Hfifo : bytes ++ skipn (Z.to_nat cap) fifo = fifo)
    by apply firstn_skipn.
  clearbody bytes. clearbody cap.
  intros Hok'.
  rewrite (u32_small (rcn + Z.of_nat (length bytes))) in * by lia.
  rewrite (u32_small (rw + Z.of_nat (length bytes))) in * by lia.
  assert (Hpos : 0 < CDC_RX_BUFFER_SIZE) by lia.
  rewrite (mask_pow2 _ _ Hpos Hpow) in *.
  split; [split; [exact Hok'|split]|].
  - rewrite length_memcpy_to; [exact Hlen | lia | lia].
  - rewrite Hwr, Zplus_mod_idemp_l. f_equal. lia.
  - rewrite Hwr.
    rewrite (ring_push CDC_RX_BUFFER_SIZE Hpos rxd rr rcn bytes); try lia.
    rewrite <- app_assoc, Hfifo. reflexivity.
Qed.

Lemma rx_drain_stream (fuel : nat) :
  forall (count : Z) (w : World) (count' : Z) (w' : World),
    rx_wf w ->
    rx_drain fuel count w = Some (count', w') ->
    rx_wf w' /\ rx_stream w' = rx_stream w.
Proof.
  destruct Hcfg as [Hrx Htx].
  induction fuel as [|fuel IH]; intros count w count' w' Hwf E; [discriminate|].
  rewrite rx_drain_S in E. cbv zeta in E.
  destruct (Z.eqb_spec (u32 (CDC_RX_BUFFER_SIZE - _rx_count (cdc w))) 0).
  { injection E as <- <-. split; [exact Hwf | reflexivity]. }
  assert (Hn : 0 <= u32 (CDC_RX_BUFFER_SIZE - _rx_count (cdc w))
               <= CDC_RX_BUFFER_SIZE - _rx_count (cdc w)).
  { destruct Hwf as ((_ & _ & Hc) & _). rewrite u32_small; lia. }
  destruct (rx_pull_stream _ w Hwf Hn) as [Hwf1 Hs1].
  destruct (rx_pull (u32 (CDC_RX_BUFFER_SIZE - _rx_count (cdc w))) w)
    as [rx_size w1]. simpl in Hwf1, Hs1.
  destruct (rx_size =? 0).
  - injection E as <- <-. split; assumption.
  - rewrite <- Hs1. eapply IH; [exact Hwf1 | exact E].
Qed.

Lemma rx_round_stream (fuel : nat) :
  forall (w : World) (o : outcome) (w' : World),
    rx_wf w ->
    rx_round fuel w = (o, w') ->
    rx_wf w' /\ rx_stream w' = rx_stream w.
Proof.
  induction fuel as [|fuel IH]; intros w o w' Hwf E; simpl in E.
  { injection E as <- <-. split; [exact Hwf | reflexivity]. }
  destruct (_rx_count (cdc w) =? CDC_RX_BUFFER_SIZE).
  { injection E as <- <-. split; [exact Hwf | reflexivity]. }
  destruct (rx_drain fuel 0 w) as [[count w1]|] eqn:D.
  2:{ injection E as <- <-. split; [exact Hwf | reflexivity]. }
  destruct (rx_drain_stream _ _ _ _ _ Hwf D) as [Hwf1 Hs1].
  set (w2 := if (_rx_count (cdc w) =? 0) && _receiveCallback (cdc w1)
             then call_receiveCallback count w1 else w1) in *.
  assert (H2 : rx_wf w2 /\ rx_stream w2 = rx_stream w1).
  { subst w2. destruct (_ && _); [|split; [exact Hwf1 | reflexivity]].
    destruct w1; split; [exact Hwf1 | reflexivity]. }
  destruct H2 as [Hwf2 Hs2]. rewrite <- Hs1, <- Hs2.
  apply (IH w2 o w' Hwf2 E).
Qed.

Lemma tx_complete_rx (w : World) :
  rx_wf w -> rx_wf (tx_complete w) /\ rx_stream (tx_complete w) = rx_stream w.
Proof.
  destruct w as [c u rc tc yc].
  destruct c as [bl rxd rr rw rcn txd tr tw ts tcn tt tcb rcb].
  destruct u as [st ls fifo busy log].
  unfold tx_complete, tx_notify, tx_next, tx_ack, rx_wf, rx_ok, rx_stream, rx_ring.
  simpl. intros H.
  repeat match goal with
  | |- context [if ?b then _ else _] => destruct b; simpl
  end; split; first [exact H | reflexivity].
Qed.

(** X12. The callback, whatever the events and whether or not it returns,
    neither loses nor reorders received bytes: what lies in the ring,
    followed by what the stack still holds, is what was there before
    followed by what arrived. *)
Theorem callback_keeps_received (fuel : nat) (data : list byte) (events : Z)
    (w : World) :
  rx_wf w ->
  let w' := snd (usbd_callback fuel data events w) in
  rx_wf w' /\ rx_stream w' = rx_stream w ++ data.
Proof.
  intros Hwf. cbv zeta. unfold usbd_callback, EventCallback.
  set (w0 := with_usbd (usbd_event data events) w).
  assert (H0 : rx_wf w0 /\ rx_stream w0 = rx_stream w ++ data).
  { subst w0. destruct w as [c u rc tc yc]. destruct u.
    unfold rx_wf, rx_stream, rx_ring in *. simpl.
    split; [exact Hwf | apply app_assoc]. }
  destruct H0 as [Hwf0 Hs0]. rewrite <- Hs0. clearbody w0.
  assert (H1 : forall o w1,
             (if negb (Z.land events USBD_CDC_EVENT_RECEIVE =? 0)
              then rx_round fuel w0 else (Returned, w0)) = (o, w1) ->
             rx_wf w1 /\ rx_stream w1 = rx_stream w0).
  { intros o w1 E. destruct (negb _).
    - apply (rx_round_stream fuel w0 o w1 Hwf0 E).
    - injection E as <- <-. split; [exact Hwf0 | reflexivity]. }
  destruct (if negb (Z.land events USBD_CDC_EVENT_RECEIVE =? 0)
            then rx_round fuel w0 else (Returned, w0)) as [o w1].
  destruct (H1 o w1 eq_refl) as [Hwf1 Hs1].
  destruct o; simpl; [|split; assumption].
  destruct (negb _); [|split; assumption].
  rewrite <- Hs1. apply tx_complete_rx. exact Hwf1.
Qed.

(** *** When the callback returns *)

Lemma rx_round_S (fuel : nat) (w : World) :
  rx_round (S fuel) w =
  if _rx_count (cdc w) =? CDC_RX_BUFFER_SIZE then (Returned, w)
  else match rx_drain fuel 0 w with
       | None => (Spinning, w)
       | Some (count, w1) =>
           rx_round fuel
             (if (_rx_count (cdc w) =? 0) && _receiveCallback (cdc w1)
              then call_receiveCallback count w1 else w1)
       end.
Proof. reflexivity. Qed.

Lemma rx_round_full (fuel : nat) :
  forall w w', rx_round fuel w = (Returned, w') ->
               _rx_count (cdc w') = CDC_RX_BUFFER_SIZE.
Proof.
  induction fuel as [|fuel IH]; intros w w' E; simpl in E; [discriminate E|].
  destruct (Z.eqb_spec (_rx_count (cdc w)) CDC_RX_BUFFER_SIZE) as [Hf|_].
  { injection E as <-. exact Hf. }
  destruct (rx_drain fuel 0 w) as [[count w1]|]; [|discriminate E].
  apply (IH _ _ E).
Qed.

Lemma tx_complete_rx_count (w : World) :
  _rx_count (cdc (tx_complete w)) = _rx_count (cdc w).
Proof.
  destruct w as [c u rc tc yc].
  unfold tx_complete, tx_notify, tx_next, tx_ack. simpl.
  repeat match goal with
  | |- context [if ?b then _ else _] => destruct b; simpl
  end; reflexivity.
Qed.

Lemma rx_pull_fill (w : World) :
  rx_ok (cdc w) ->
  let n := CDC_RX_BUFFER_SIZE - _rx_count (cdc w) in
  0 < n -> CDC_RX_BUFFER_SIZE <= rx_backlog w ->
  1 <= fst (rx_pull n w)
  /\ rx_rounds (snd (rx_pull n w)) = rx_rounds w - 1.
Proof.
  destruct Hcfg as [Hrx Htx]. intros Hok n Hn Hb. revert Hb.
  unfold rx_pull, stm32l4_usbd_cdc_receive, rx_backlog, rx_rounds.
  match goal with
  | |- context [firstn (Z.to_nat ?k) ?l] => set (cap := k) in *
  end.
  destruct w as [c u rc tc yc].
  destruct c as [bl rxd rr rw rcn txd tr tw ts tcn tt tcb rcb].
  destruct u as [st ls fifo busy log].
  destruct Hok as (Hr & Hw & Hc). simpl in *. intros Hb.
  assert (Hcap : cap = Z.min n (CDC_RX_BUFFER_SIZE - rw)).
  { subst cap. rewrite Z.gtb_ltb. rewrite (u32_small (CDC_RX_BUFFER_SIZE - rw)) by lia.
    destruct (Z.ltb_spec (CDC_RX_BUFFER_SIZE - rw) n); lia. }
  assert (Hl : Z.of_nat (length (firstn (Z.to_nat cap) fifo)) = cap).
  { rewrite length_firstn. lia. }
  rewrite Hl. clearbody cap. subst n.
  rewrite (u32_small (rcn + cap)) by lia.
  rewrite (u32_small (rw + cap)) by lia.
  assert (Hpos : 0 < CDC_RX_BUFFER_SIZE) by lia.
  rewrite (mask_pow2 _ _ Hpos Hpow).
  split; [lia|].
  destruct (Z.eqb_spec (CDC_RX_BUFFER_SIZE - rcn) 0); [lia|].
  destruct (Z.leb_spec (CDC_RX_BUFFER_SIZE - rcn) (CDC_RX_BUFFER_SIZE - rw)).
  - replace cap with (CDC_RX_BUFFER_SIZE - rcn) by lia.
    destruct (Z.eqb_spec (CDC_RX_BUFFER_SIZE - (rcn + (CDC_RX_BUFFER_SIZE - rcn))) 0); lia.
  - replace cap with (CDC_RX_BUFFER_SIZE - rw) by lia.
    replace (rw + (CDC_RX_BUFFER_SIZE - rw)) with CDC_RX_BUFFER_SIZE by lia.
    rewrite Z.mod_same by lia.
    destruct (Z.eqb_spec (CDC_RX_BUFFER_SIZE - (rcn + (CDC_RX_BUFFER_SIZE - rw))) 0); [lia|].
    destruct (Z.leb_spec (CDC_RX_BUFFER_SIZE - (rcn + (CDC_RX_BUFFER_SIZE - rw)))
                (CDC_RX_BUFFER_SIZE - 0)); lia.
Qed.

Lemma rx_drain_fill (fuel : nat) :
  forall (count : Z) (w : World),
    rx_ok (cdc w) ->
    CDC_RX_BUFFER_SIZE <= rx_backlog w ->
    rx_rounds w <= Z.of_nat fuel ->
    exists count' w',
      rx_drain (S fuel) count w = Some (count', w')
      /\ _rx_count (cdc w') = CDC_RX_BUFFER_SIZE.
Proof.
  destruct Hcfg as [Hrx Htx].
  induction fuel as [|fuel IH]; intros count w Hok Hb Hrounds;
    rewrite rx_drain_S; cbv zeta;
    pose proof Hok as (_ & _ & Hc);
    rewrite (u32_small (CDC_RX_BUFFER_SIZE - _rx_count (cdc w))) by lia;
    (destruct (Z.eqb_spec (CDC_RX_BUFFER_SIZE - _rx_count (cdc w)) 0) as [Hz|Hnz];
     [exists count, w; split; [reflexivity | lia]|]).
  - exfalso. unfold rx_rounds in Hrounds.
    destruct (Z.eqb_spec (CDC_RX_BUFFER_SIZE - _rx_count (cdc w)) 0); [lia|].
    destruct (_ <=? _); lia.
  - assert (Hn : 0 <= CDC_RX_BUFFER_SIZE - _rx_count (cdc w)
                 <= CDC_RX_BUFFER_SIZE - _rx_count (cdc w)) by lia.
    destruct (rx_pull_only Hcfg _ w Hok Hn) as [(_ & _ & _ & Hok1) _].
    pose proof (rx_pull_backlog Hcfg _ w Hok Hn) as Hb1.
    destruct (rx_pull_fill w Hok ltac:(lia) Hb) as [Hsz Hr1].
    destruct (rx_pull (CDC_RX_BUFFER_SIZE - _rx_count (cdc w)) w)
      as [rx_size w1]. simpl in *.
    destruct (Z.eqb_spec rx_size 0); [lia|].
    apply IH; [exact Hok1 | lia | lia].
Qed.

(** X13. A receive event's callback returns exactly when the bytes in the
    ring and those the stack holds together fill the ring, and it returns
    with the ring full; with fewer bytes it stays in its receive loop
    whatever the fuel. *)
Theorem receive_returns_iff_full (events : Z) (w : World) :
  rx_ok (cdc w) ->
  Z.land events USBD_CDC_EVENT_RECEIVE <> 0 ->
  ((exists fuel, fst (EventCallback fuel events w) = Returned)
   <-> CDC_RX_BUFFER_SIZE <= rx_backlog w)
  /\ forall fuel w', EventCallback fuel events w = (Returned, w') ->
                     _rx_count (cdc w') = CDC_RX_BUFFER_SIZE.
Proof.
  destruct Hcfg as [Hrx Htx]. intros Hok Hev. split; [split|].
  - intros [fuel Hret].
    destruct (Z_le_gt_dec CDC_RX_BUFFER_SIZE (rx_backlog w)) as [H|H]; [exact H|].
    rewrite (EventCallback_starved Hcfg fuel events w Hev Hok) in Hret by lia.
    discriminate Hret.
  - intros Hb. exists 5%nat. unfold EventCallback.
    destruct (Z.eqb_spec (Z.land events USBD_CDC_EVENT_RECEIVE) 0); [contradiction|].
    cbn [negb].
    assert (E : fst (rx_round 5 w) = Returned).
    { rewrite rx_round_S.
      destruct (_rx_count (cdc w) =? CDC_RX_BUFFER_SIZE); [reflexivity|].
      destruct (rx_drain_fill 3 0 w Hok Hb) as (count' & w1 & -> & Hfull).
      { unfold rx_rounds. destruct (_ =? _); [lia|]. destruct (_ <=? _); lia. }
      match goal with |- fst (rx_round 4 ?x) = _ => set (w2 := x) end.
      assert (H2 : _rx_count (cdc w2) = CDC_RX_BUFFER_SIZE).
      { subst w2. destruct (_ && _); [destruct w1|]; exact Hfull. }
      rewrite rx_round_S, H2, Z.eqb_refl. reflexivity. }
    destruct (rx_round 5 w) as [o w1]. simpl in E. subst o. reflexivity.
  - intros fuel w' E. unfold EventCallback in E.
    destruct (Z.eqb_spec (Z.land events USBD_CDC_EVENT_RECEIVE) 0); [contradiction|].
    cbn [negb] in E.
    destruct (rx_round fuel w) as [o w1] eqn:R.
    destruct o; [|discriminate E]. injection E as <-.
    pose proof (rx_round_full _ _ _ R) as Hfull.
    destruct (negb _); [rewrite tx_complete_rx_count|]; exact Hfull.
Qed.

(** *** Reads *)

Lemma read1_run_S (fuel : nat) (f : rd1_frame) (w : World) :
  rd1_returned f = false ->
  read1_run (S fuel) f w
  = read1_run fuel (fst (read1_step f w)) (snd (read1_step f w)).
Proof. intros R. simpl. rewrite R. destruct (read1_step f w). reflexivity. Qed.

Lemma rx_ring_empty (w : World) :
  0 <= _rx_count (cdc w) -> (rx_ring w = [] <-> _rx_count (cdc w) = 0).
Proof.
  intros Hc. unfold rx_ring. split; intros H.
  - apply (f_equal (@length byte)) in H. rewrite length_ring in H. simpl in H. lia.
  - rewrite H. reflexivity.
Qed.

Lemma rx_ring_head (w : World) :
  rx_ok (cdc w) -> 1 <= _rx_count (cdc w) ->
  rx_ring w
  = nth (Z.to_nat (_rx_read (cdc w))) (_rx_data (cdc w)) x00
    :: ring CDC_RX_BUFFER_SIZE (_rx_data (cdc w))
         ((_rx_read (cdc w) + 1) mod CDC_RX_BUFFER_SIZE) (_rx_count (cdc w) - 1).
Proof.
  destruct Hcfg as [Hrx Htx]. intros (Hr & _ & _) Hc. unfold rx_ring.
  replace (_rx_count (cdc w)) with (1 + (_rx_count (cdc w) - 1)) at 1 by lia.
  rewrite ring_app by lia.
  change (ring CDC_RX_BUFFER_SIZE (_rx_data (cdc w)) (_rx_read (cdc w)) 1)
    with [nth (Z.to_nat ((_rx_read (cdc w) + Z.of_nat 0) mod CDC_RX_BUFFER_SIZE))
              (_rx_data (cdc w)) x00].
  change (Z.of_nat 0) with 0. rewrite Z.add_0_r, Z.mod_small by lia. reflexivity.
Qed.

(** X16. [read()] takes the oldest byte of the ring and leaves the others in
    their order; on an empty ring it returns -1 and changes nothing. *)
Theorem read1_takes_oldest (w : World) :
  rx_wf w ->
  match rx_ring w with
  | [] => read1 4 w = Some (-1, w)
  | b :: rest =>
      exists w', read1 4 w = Some (byte_val b, w')
                 /\ rx_ring w' = rest /\ rx_wf w'
                 /\ usbd w' = usbd w /\ tx_part w' = tx_part w
  end.
Proof.
  destruct Hcfg as [Hrx Htx]. intros (Hok & Hlen & Hwr).
  pose proof Hok as (Hr & Hw & Hc).
  destruct (Z.eq_dec (_rx_count (cdc w)) 0) as [Hz|Hnz].
  - rewrite (proj2 (rx_ring_empty w ltac:(lia)) Hz).
    unfold read1. rewrite read1_run_S by reflexivity.
    unfold read1_step, read1_call. cbn [r1_pc]. rewrite Hz. reflexivity.
  - rewrite (rx_ring_head w Hok ltac:(lia)).
    unfold read1. rewrite read1_run_S by reflexivity.
    unfold read1_call, read1_step at 1 2. cbn [r1_pc].
    destruct (Z.eqb_spec (_rx_count (cdc w)) 0); [contradiction|]. cbn [fst snd].
    rewrite read1_run_S by reflexivity.
    unfold read1_step at 1 2. cbn [r1_pc fst snd].
    rewrite read1_run_S by reflexivity.
    unfold read1_step at 1 2. cbn [r1_pc fst snd r1_data].
    eexists. split; [reflexivity|].
    destruct w as [c u rc tc yc].
    destruct c as [bl rxd rr rw rcn txd tr tw ts tcn tt tcb rcb].
    unfold rx_ring, rx_wf, rx_ok, tx_part. simpl in *.
    rewrite (u32_small (rr + 1)) by lia.
    rewrite (u32_small (rcn - 1)) by lia.
    assert (Hpos : 0 < CDC_RX_BUFFER_SIZE) by lia.
    rewrite (mask_pow2 _ _ Hpos Hpow).
    pose proof (Z.mod_pos_bound (rr + 1) CDC_RX_BUFFER_SIZE Hpos).
    split; [reflexivity|]. split; [|split; reflexivity].
    split; [lia|]. split; [exact Hlen|].
    rewrite Hwr, Zplus_mod_idemp_l. f_equal. lia.
Qed.

Lemma byte_val_range (b : byte) : 0 <= byte_val b <= 255.
Proof.
  unfold byte_val. pose proof (Byte.to_N_bounded b). lia.
Qed.

(** X17. [peek] shows what the next [read()] returns: -1 exactly when
    [SerialUSB_empty] holds, the value of a byte otherwise. *)
Theorem peek_shows_next_read (w : World) :
  0 <= _rx_count (cdc w) < 2 ^ 32 ->
  option_map fst (read1 4 w) = Some (peek w)
  /\ (SerialUSB_empty w = true <-> peek w = -1)
  /\ (SerialUSB_empty w = false -> 0 <= peek w <= 255).
Proof.
  intros Hc. unfold peek, SerialUSB_empty, available, to_int.
  split; [|split].
  - unfold read1. rewrite read1_run_S by reflexivity.
    unfold read1_call, read1_step at 1 2. cbn [r1_pc].
    destruct (Z.eqb_spec (_rx_count (cdc w)) 0); [reflexivity|].
    cbn [fst snd].
    rewrite read1_run_S by reflexivity.
    unfold read1_step at 1 2. cbn [r1_pc fst snd].
    rewrite read1_run_S by reflexivity.
    unfold read1_step at 1 2. cbn [r1_pc fst snd r1_data]. reflexivity.
  - pose proof (byte_val_range
                  (nth (Z.to_nat (_rx_read (cdc w))) (_rx_data (cdc w)) x00)).
    destruct (Z.eqb_spec (_rx_count (cdc w)) 0) as [Hz|Hnz].
    + rewrite Hz. simpl. split; reflexivity.
    + destruct (Z.ltb_spec (_rx_count (cdc w)) (2 ^ 31)); split; intros E;
        try lia; apply Z.eqb_eq in E; lia.
  - pose proof (byte_val_range
                  (nth (Z.to_nat (_rx_read (cdc w))) (_rx_data (cdc w)) x00)).
    destruct (Z.eqb_spec (_rx_count (cdc w)) 0) as [Hz|Hnz]; [|intros _; lia].
    rewrite Hz. simpl. intros E; discriminate E.
Qed.

Lemma read_run_S (fuel : nat) (f : rd_frame) (w : World) :
  rd_returned f = false ->
  read_run (S fuel) f w
  = read_run fuel (fst (read_step f w)) (snd (read_step f w)).
Proof. intros R. simpl. rewrite R. destruct (read_step f w). reflexivity. Qed.

Lemma read_run_ret (fuel : nat) (f : rd_frame) (w : World) :
  rd_returned f = true -> read_run fuel f w = Some (r_count f, r_buffer f, w).
Proof. intros R. destruct fuel; simpl; rewrite R; reflexivity. Qed.

Lemma firstn_plus {A : Type} (a b : nat) (l : list A) :
  firstn (a + b) l = firstn a l ++ firstn b (skipn a l).
Proof.
  revert l. induction a as [|a IH]; intros l; [reflexivity|].
  destruct l as [|x l]; [destruct b; reflexivity|].
  simpl. rewrite IH. reflexivity.
Qed.

(** The loop of the bulk read is left when enough is copied or the ring
    is empty. *)
Lemma read_exit (fuel : nat) (size cnt lrc : Z) (buf : list byte) (w : World) :
  size <= cnt \/ _rx_count (cdc w) = 0 ->
  read_run (S (S fuel)) (mkRd R140 size cnt lrc buf) w = Some (cnt, buf, w).
Proof.
  intros H. rewrite read_run_S by reflexivity.
  unfold read_step at 1 2. cbn [r_pc r_size r_count r_rx_count r_buffer].
  destruct (Z.ltb_spec cnt size) as [Hlt|Hge]; cbn [fst snd].
  - destruct H as [H|H]; [lia|].
    rewrite read_run_S by reflexivity.
    unfold read_step at 1 2. cbn [r_pc r_size r_count r_rx_count r_buffer].
    rewrite H. cbn [Z.eqb fst snd]. apply read_run_ret. reflexivity.
  - apply read_run_ret. reflexivity.
Qed.

Section BulkRead.
Hypothesis Huart : UART_RX_BUFFER_SIZE = CDC_RX_BUFFER_SIZE.

(** One round of the loop copies the bytes from the read index to the end
    of the array, or all of them. *)
Lemma read_round (fuel : nat) (size cnt lrc : Z) (buf : list byte) (w : World) :
  rx_wf w ->
  0 <= cnt <= CDC_RX_BUFFER_SIZE -> cnt < size ->
  1 <= _rx_count (cdc w) ->
  let k := Z.min (_rx_count (cdc w)) (CDC_RX_BUFFER_SIZE - _rx_read (cdc w)) in
  exists w',
    read_run (4 + fuel) (mkRd R140 size cnt lrc buf) w
    = read_run fuel
        (mkRd R140 size (cnt + k) k (buf ++ firstn (Z.to_nat k) (rx_ring w))) w'
    /\ rx_wf w'
    /\ rx_ring w' = skipn (Z.to_nat k) (rx_ring w)
    /\ _rx_count (cdc w') = _rx_count (cdc w) - k
    /\ _rx_read (cdc w') = (_rx_read (cdc w) + k) mod CDC_RX_BUFFER_SIZE
    /\ usbd w' = usbd w /\ tx_part w' = tx_part w.
Proof.
  destruct Hcfg as [Hrx Htx]. intros (Hok & Hlen & Hwr) Hcnt Hlt Hc k.
  pose proof Hok as (Hr & Hw & Hc').
  change (4 + fuel)%nat with (S (S (S (S fuel)))).
  rewrite read_run_S by reflexivity.
  unfold read_step at 1 2. cbn [r_pc r_size r_count r_rx_count r_buffer].
  destruct (Z.ltb_spec cnt size); [|lia]. cbn [fst snd].
  rewrite read_run_S by reflexivity.
  unfold read_step at 1 2. cbn [r_pc r_size r_count r_rx_count r_buffer].
  destruct (Z.eqb_spec (_rx_count (cdc w)) 0); [lia|]. cbn [fst snd].
  rewrite read_run_S by reflexivity.
  unfold read_step at 1 2. cbn [r_pc r_size r_count r_rx_count r_buffer fst snd].
  rewrite Huart, Z.gtb_ltb.
  rewrite (u32_small (CDC_RX_BUFFER_SIZE - _rx_read (cdc w))) by lia.
  assert (Ek : (if CDC_RX_BUFFER_SIZE - _rx_read (cdc w) <? _rx_count (cdc w)
                then CDC_RX_BUFFER_SIZE - _rx_read (cdc w)
                else _rx_count (cdc w)) = k).
  { subst k. destruct (Z.ltb_spec (CDC_RX_BUFFER_SIZE - _rx_read (cdc w))
                         (_rx_count (cdc w))); lia. }
  rewrite Ek.
  assert (Hk : 1 <= k <= _rx_count (cdc w)
               /\ k <= CDC_RX_BUFFER_SIZE - _rx_read (cdc w)) by lia.
  clearbody k.
  rewrite read_run_S by reflexivity.
  unfold read_step at 1 2. cbn [r_pc r_size r_count r_rx_count r_buffer fst snd].
  assert (Hpos : 0 < CDC_RX_BUFFER_SIZE) by lia.
  eexists. split; [|].
  - f_equal. f_equal; [apply u32_small; lia|]. f_equal.
    unfold rx_ring. rewrite ring_firstn by lia.
    symmetry. apply ring_contiguous; lia.
  - destruct w as [c u rc tc yc].
    destruct c as [bl rxd rr rw rcn txd tr tw ts tcn tt tcb rcb].
    unfold rx_ring, rx_wf, rx_ok, tx_part. simpl in *.
    rewrite (u32_small (rr + k)) by lia.
    rewrite (u32_small (rcn - k)) by lia.
    rewrite (mask_pow2 _ _ Hpos Hpow).
    pose proof (Z.mod_pos_bound (rr + k) CDC_RX_BUFFER_SIZE Hpos).
    split; [split; [lia|split; [exact Hlen|]]|].
    + rewrite Hwr, Zplus_mod_idemp_l. f_equal. lia.
    + split; [symmetry; apply ring_skipn; lia|].
      repeat split; reflexivity.
Qed.

(** X18. With the clamp of line 150 at the ring size: a bulk read returns the
    oldest bytes of the ring in their order and leaves the others; it
    returns nothing when asked for nothing or when the ring is empty, the
    bytes up to the end of the array when they cover the request, and all
    bytes of the ring otherwise. *)
Theorem read_takes_oldest (size : Z) (w : World) :
  rx_wf w ->
  0 <= size ->
  let rc := _rx_count (cdc w) in
  let k := Z.min rc (CDC_RX_BUFFER_SIZE - _rx_read (cdc w)) in
  let n := if size =? 0 then 0 else if size <=? k then k else rc in
  exists w',
    read 10 size w = Some (n, firstn (Z.to_nat n) (rx_ring w), w')
    /\ rx_ring w' = skipn (Z.to_nat n) (rx_ring w)
    /\ rx_wf w'
    /\ usbd w' = usbd w /\ tx_part w' = tx_part w.
Proof.
  destruct Hcfg as [Hrx Htx]. intros Hwf Hsize rc k n.
  pose proof Hwf as ((Hr & Hw & Hc) & Hlen & Hwr). fold rc in Hc.
  unfold read, read_call.
  destruct (Z.eqb_spec size 0) as [Hz|Hnz].
  { exists w. subst n. rewrite (read_exit 8) by lia.
    split; [reflexivity|]. split; [reflexivity|]. split; [exact Hwf|].
    split; reflexivity. }
  destruct (Z.eq_dec rc 0) as [Hrc|Hrc].
  { exists w. rewrite (read_exit 8) by (right; exact Hrc).
    assert (En : n = 0).
    { subst n k. destruct (Z.leb_spec size (Z.min rc (CDC_RX_BUFFER_SIZE - _rx_read (cdc w)))); lia. }
    rewrite En.
    split; [reflexivity|]. split; [reflexivity|]. split; [exact Hwf|].
    split; reflexivity. }
  destruct (read_round 6 size 0 0 [] w Hwf ltac:(lia) ltac:(lia) ltac:(fold rc; lia))
    as (w1 & E1 & Hwf1 & Hring1 & Hc1 & Hr1 & Hu1 & Ht1).
  fold rc in E1, Hring1, Hc1, Hr1. fold k in E1, Hring1, Hc1, Hr1.
  change (4 + 6)%nat with 10%nat in E1. rewrite E1. clear E1.
  rewrite Z.add_0_l. cbn [app].
  assert (Hk : 1 <= k <= rc /\ k <= CDC_RX_BUFFER_SIZE - _rx_read (cdc w))
    by (subst k; lia).
  destruct (Z.leb_spec size k) as [Hle|Hgt].
  { exists w1. subst n. rewrite (read_exit 4) by lia.
    split; [reflexivity|]. split; [exact Hring1|]. split; [exact Hwf1|].
    split; assumption. }
  destruct (Z.eq_dec (rc - k) 0) as [Hall|Hmore].
  { exists w1. subst n. rewrite (read_exit 4) by (right; lia).
    replace rc with k by lia.
    split; [reflexivity|]. split; [exact Hring1|]. split; [exact Hwf1|].
    split; assumption. }
  (* the ring wraps: a second round takes the rest *)
  assert (Hr0 : _rx_read (cdc w1) = 0).
  { rewrite Hr1. replace (_rx_read (cdc w) + k) with CDC_RX_BUFFER_SIZE by lia.
    apply Z.mod_same. lia. }
  destruct (read_round 2 size k k (firstn (Z.to_nat k) (rx_ring w)) w1 Hwf1
              ltac:(lia) ltac:(lia) ltac:(lia))
    as (w2 & E2 & Hwf2 & Hring2 & Hc2 & Hr2 & Hu2 & Ht2).
  rewrite Hc1, Hr0, Z.sub_0_r in E2, Hring2, Hc2.
  replace (Z.min (rc - k) CDC_RX_BUFFER_SIZE) with (rc - k) in * by lia.
  change (4 + 2)%nat with 6%nat in E2. rewrite E2. clear E2.
  exists w2. subst n.
  rewrite (read_exit 0) by (right; lia).
  replace (k + (rc - k)) with rc by lia.
  rewrite Hring1.
  split; [|split; [|split; [exact Hwf2 | split; congruence]]].
  - replace (Z.to_nat rc) with (Z.to_nat k + Z.to_nat (rc - k))%nat by lia.
    rewrite firstn_plus. reflexivity.
  - rewrite Hring2, Hring1, skipn_skipn. f_equal. lia.
Qed.

End BulkRead.

(** X19. When the read index stands at [UART_RX_BUFFER_SIZE], the clamp of
    line 150 cuts every chunk to nothing: a bulk read for at least one byte
    from a ring that holds some copies nothing, goes round its loop for
    ever and never returns. *)
Theorem read_never_returns (size : Z) (w : World) :
  _rx_read (cdc w) = UART_RX_BUFFER_SIZE ->
  0 <= _rx_read (cdc w) < CDC_RX_BUFFER_SIZE ->
  1 <= _rx_count (cdc w) < 2 ^ 32 ->
  1 <= size ->
  forall fuel : nat, read fuel size w = None.
Proof.
  destruct Hcfg as [Hrx Htx]. intros Hu Hr Hc Hsize.
  assert (Hpos : 0 < CDC_RX_BUFFER_SIZE) by lia.
  assert (H : forall fuel : nat,
            (forall lrc, read_run fuel (mkRd R140 size 0 lrc []) w = None)
            /\ (forall lrc, read_run fuel (mkRd R142 size 0 lrc []) w = None)
            /\ read_run fuel (mkRd R148 size 0 (_rx_count (cdc w)) []) w = None
            /\ read_run fuel (mkRd R159 size 0 0 [])
                 (with_cdc (set_rx_read (_rx_read (cdc w))) w) = None).
  { induction fuel as [|fuel (IH0 & IH1 & IH2 & IH3)].
    { repeat split; intros; reflexivity. }
    split; [|split; [|split]].
    - intros lrc. rewrite read_run_S by reflexivity.
      unfold read_step at 1 2. cbn [r_pc r_size r_count r_rx_count r_buffer].
      destruct (Z.ltb_spec 0 size); [|lia]. apply IH1.
    - intros lrc. rewrite read_run_S by reflexivity.
      unfold read_step at 1 2. cbn [r_pc r_size r_count r_rx_count r_buffer].
      destruct (Z.eqb_spec (_rx_count (cdc w)) 0); [lia|]. apply IH2.
    - rewrite read_run_S by reflexivity.
      unfold read_step at 1 2. cbn [r_pc r_size r_count r_rx_count r_buffer fst snd].
      rewrite <- Hu, Z.sub_diag.
      change (u32 0) with 0. rewrite Z.gtb_ltb.
      destruct (Z.ltb_spec 0 (_rx_count (cdc w))); [|lia].
      rewrite !Z.add_0_r. change (u32 0) with 0.
      rewrite (u32_small (_rx_read (cdc w))) by lia.
      rewrite (mask_pow2 _ _ Hpos Hpow), Z.mod_small by lia.
      change (memcpy_from (_rx_data (cdc w)) (_rx_read (cdc w)) 0) with (@nil byte).
      exact IH3.
    - rewrite read_run_S by reflexivity.
      unfold read_step at 1 2. cbn [r_pc r_size r_count r_rx_count r_buffer fst snd].
      replace (with_cdc _ (with_cdc _ w)) with w; [apply IH0|].
      destruct w as [c u rc tc yc].
      destruct c as [bl rxd rr rw rcn txd tr tw ts tcn tt tcb rcb].
      unfold with_cdc, set_rx_count, set_rx_read. simpl in *.
      rewrite Z.sub_0_r, u32_small by lia. reflexivity. }
  intros fuel. apply (H fuel).
Qed.

End RxQueue.

(** ** What the steps of the foreground leave alone *)

Section Frames.
Context {cfg : Config}.

Lemma write_step_callbacks (f : wr_frame) (w : World) :
  transmit_calls (snd (write_step f w)) = transmit_calls w
  /\ receive_calls (snd (write_step f w)) = receive_calls w.
Proof.
  destruct (write_step f w) as [f' w'] eqn:E.
  destruct f as [pc ? ? ? ? ? ? ?]. unfold write_step in E. simpl in E. simpl.
  destruct pc; split_ifs_in E; injection E as <- <-; split; reflexivity.
Qed.

Lemma read_step_tx (f : rd_frame) (w : World) :
  tx_part (snd (read_step f w)) = tx_part w
  /\ usbd (snd (read_step f w)) = usbd w
  /\ receive_calls (snd (read_step f w)) = receive_calls w.
Proof.
  destruct (read_step f w) as [f' w'] eqn:E.
  destruct f as [pc ? ? ? ?]. unfold read_step in E. simpl in E. simpl.
  destruct pc; split_ifs_in E; injection E as <- <-; repeat split; reflexivity.
Qed.

Lemma read1_step_tx (f : rd1_frame) (w : World) :
  tx_part (snd (read1_step f w)) = tx_part w
  /\ usbd (snd (read1_step f w)) = usbd w
  /\ receive_calls (snd (read1_step f w)) = receive_calls w.
Proof.
  destruct (read1_step f w) as [f' w'] eqn:E.
  destruct f as [pc ?]. unfold read1_step in E. simpl in E. simpl.
  destruct pc; split_ifs_in E; injection E as <- <-; repeat split; reflexivity.
Qed.

Lemma tx_part_done (w w' : World) : tx_part w' = tx_part w -> done w' = done w.
Proof.
  unfold tx_part, done, stm32l4_usbd_cdc_done. intros E.
  injection E as _ _ _ _ _ Ec _ _ _ _ _ Eb _ _ _. rewrite Ec, Eb. reflexivity.
Qed.

Lemma tx_part_transmit_calls (w w' : World) :
  tx_part w' = tx_part w -> transmit_calls w' = transmit_calls w.
Proof. unfold tx_part. intros E. injection E as _ _ _ _ _ _ _ _ _ _ _ _ _ E _. exact E. Qed.

End Frames.

Section Done.
Context {cfg : Config}.
Hypothesis Hcfg : config_ok.

(** The receive branch of a callback that returns leaves the transmit side
    as it is. *)
Lemma event_receive_only (fuel : nat) (data : list byte) (events : Z)
    (w w' : World) :
  rx_ok (cdc w) ->
  Z.land events USBD_CDC_EVENT_TRANSMIT = 0 ->
  EventCallback fuel events (with_usbd (usbd_event data events) w)
    = (Returned, w') ->
  tx_part w' = tx_part w.
Proof.
  intros Hok Hz E. unfold EventCallback in E. rewrite Hz in E. simpl in E.
  set (w0 := with_usbd (usbd_event data events) w) in *.
  assert (Hok0 : rx_ok (cdc w0)) by (subst w0; destruct w; exact Hok).
  assert (E0 : tx_part w0 = tx_part w).
  { subst w0. destruct w as [c u rc tc yc]. destruct u.
    unfold tx_part, usbd_event. simpl. rewrite Hz. reflexivity. }
  rewrite <- E0.
  destruct (negb (Z.land events USBD_CDC_EVENT_RECEIVE =? 0)).
  - destruct (rx_round fuel w0) as [o w1] eqn:R.
    pose proof (rx_round_only Hcfg _ _ _ _ Hok0 R) as (Ep & _).
    destruct o; [|discriminate E]. injection E as <-. exact Ep.
  - injection E as <-. reflexivity.
Qed.

(** X10. Once [done()] is true it stays true through every step in which no
    write is in progress: reads, callbacks, changes of the line state and
    of the registered callbacks. *)
Theorem done_stays (s s' : System) :
  reachable s -> step s s' ->
  (forall f, fg s' <> InWrite f) ->
  done (world s) = true ->
  done (world s') = true.
Proof.
  intros Hreach Hstep Hfg Hdone.
  pose proof (reachable_inv Hcfg s Hreach) as Hinv.
  destruct Hstep; simpl in *; try exact Hdone;
    try (exfalso; eapply Hfg; reflexivity).
  all: try (rewrite <- Hdone; apply tx_part_done;
            first [apply read_step_tx | apply read1_step_tx]).
  all: try (rewrite <- Hdone; destruct w as [c u ? ? ?]; destruct u;
            reflexivity).
  - rename H into Hbusy. rename H0 into E.
    assert (Hz : Z.land events USBD_CDC_EVENT_TRANSMIT = 0).
    { destruct (Z.eq_dec (Z.land events USBD_CDC_EVENT_TRANSMIT) 0) as [Hz|Hnz];
        [exact Hz|exfalso].
      specialize (Hbusy Hnz). unfold done, stm32l4_usbd_cdc_done in Hdone.
      rewrite Hbusy in Hdone. destruct (negb _); discriminate Hdone. }
    rewrite <- Hdone. apply tx_part_done.
    apply (event_receive_only fuel data events w w'); [apply Hinv | exact Hz | exact E].
Qed.

Lemma sys_inv_total_zero (s : System) :
  sys_inv s -> _tx_total (cdc (world s)) = 0 -> done (world s) = true.
Proof.
  intros (_ & _ & Htx & Hfg & Htot & _ & _ & Hq & _) Hz.
  destruct Htx as (_ & _ & Hs & Hc).
  assert (Hp : 0 <= pending (fg s)).
  { unfold fg_ok, wr_ok in Hfg. unfold pending.
    destruct (fg s) as [|f| |]; try lia.
    destruct Hfg as (_ & _ & _ & Hpc). destruct (w_pc f); lia. }
  unfold done, stm32l4_usbd_cdc_done.
  replace (_tx_count (cdc (world s))) with 0 by lia. simpl.
  destruct (tx_busy (usbd (world s))); [|reflexivity].
  specialize (Hq eq_refl). lia.
Qed.

(** X11. The transmit callback is called by a step only when, after it,
    [_tx_total] is zero and [done()] holds: the transmit ring is empty and
    nothing is in flight; and a step calls it at most once.  A write that
    has been called but has not yet added its size to [_tx_total] at line
    201 may be under way at that moment. *)
Theorem transmit_callback_when_done (s s' : System) :
  reachable s -> step s s' ->
  transmit_calls (world s') <> transmit_calls (world s) ->
  transmit_calls (world s') = S (transmit_calls (world s))
  /\ _tx_total (cdc (world s')) = 0
  /\ done (world s') = true.
Proof.
  intros Hreach Hstep Hne.
  pose proof (reachable_inv Hcfg s Hreach) as Hinv.
  pose proof (sys_inv_step Hcfg s s' Hinv Hstep) as Hinv'.
  assert (Hgoal : transmit_calls (world s') = S (transmit_calls (world s))
                  /\ _tx_total (cdc (world s')) = 0).
  { destruct Hstep; simpl in *; try (exfalso; apply Hne; reflexivity).
    all: try (exfalso; apply Hne;
              first [ apply write_step_callbacks
                    | apply tx_part_transmit_calls, read_step_tx
                    | apply tx_part_transmit_calls, read1_step_tx
                    | destruct w as [c u ? ? ?]; destruct u; reflexivity ]).
    - rename H into Hbusy. rename H0 into E.
      destruct (Z.eq_dec (Z.land events USBD_CDC_EVENT_TRANSMIT) 0) as [Hz|Hnz].
      { exfalso. apply Hne. apply tx_part_transmit_calls.
        apply (event_receive_only fuel data events w w'); [apply Hinv | exact Hz | exact E]. }
      unfold EventCallback in E.
      set (w0 := with_usbd (usbd_event data events) w) in *.
      assert (Hok0 : rx_ok (cdc w0)) by (subst w0; destruct w; apply Hinv).
      assert (E0 : transmit_calls w0 = transmit_calls w)
        by (subst w0; destruct w; reflexivity).
      assert (E1 : exists w1, transmit_calls w1 = transmit_calls w
                              /\ w' = tx_complete w1).
      { destruct (Z.eqb_spec (Z.land events USBD_CDC_EVENT_TRANSMIT) 0);
          [contradiction|]. cbn [negb] in E.
        destruct (negb (Z.land events USBD_CDC_EVENT_RECEIVE =? 0)).
        - destruct (rx_round fuel w0) as [o w1] eqn:R.
          pose proof (rx_round_only Hcfg _ _ _ _ Hok0 R) as (Ep & _).
          destruct o; [|discriminate E]. injection E as <-.
          exists w1. split; [|reflexivity].
          rewrite (tx_part_transmit_calls _ _ Ep). exact E0.
        - injection E as <-. exists w0. split; [exact E0 | reflexivity]. }
      destruct E1 as (w1 & Et & ->). clear E.
      unfold tx_complete in *.
      set (w2 := tx_next (tx_ack w1)) in *.
      assert (E2 : transmit_calls w2 = transmit_calls w).
      { subst w2. rewrite <- Et. unfold tx_next, tx_ack.
        destruct w1 as [c1 u1 ? ? ?]. simpl.
        destruct (negb _); reflexivity. }
      clearbody w2. unfold tx_notify in *.
      destruct (Z.eqb_spec (_tx_total (cdc w2)) 0) as [Hz|Hz];
        [|exfalso; apply Hne; exact E2].
      destruct (_transmitCallback (cdc w2));
        [|exfalso; apply Hne; exact E2].
      simpl in *. rewrite E2. split; [reflexivity | exact Hz]. }
  destruct Hgoal as [H1 H2]. split; [exact H1|]. split; [exact H2|].
  apply (sys_inv_total_zero s' Hinv' H2).
Qed.

End Done.

(** ** Accepted writes *)

Section Accepted.
Context {cfg : Config}.

(** X7. A write returns a count other than zero only on an enabled device
    whose peer asserts RTS. *)
Theorem write_needs_rts (fuel : nat) (ipsr : Z) (buffer : list byte)
    (w w' : World) (n : Z) :
  write fuel ipsr buffer w = Some (n, w') ->
  n <> 0 ->
  isEnabled w = true /\ rts w = true.
Proof.
  unfold write, write_call, isEnabled, rts. intros E Hn.
  destruct fuel as [|fuel]; [discriminate E|].
  cbn [write_run wr_returned w_pc] in E. unfold write_step in E. cbn [w_pc] in E.
  destruct (Z.ltb_spec (usbd_state (usbd w)) USBD_CDC_STATE_READY) as [Hlt|Hge];
    cbn [orb] in E.
  { destruct fuel; simpl in E; injection E as <- <-; contradiction. }
  destruct (Z.land (lineState (usbd w)) 2 =? 0).
  { destruct fuel; simpl in E; injection E as <- <-; contradiction. }
  split; [apply Z.leb_le; exact Hge | reflexivity].
Qed.

End Accepted.

(** ** flush *)

Section Flush.
Context {cfg : Config}.
Hypothesis Hcfg : config_ok.
Hypothesis Hev : events_ok.
Hypothesis Hfifo : fifo_ok.

Lemma packet_size_pos : 1 <= u32 CDC_TX_PACKET_SIZE.
Proof.
  rewrite (packet_size_u32 Hfifo). pose proof (packet_size_bounds Hfifo). lia.
Qed.

(** A completed packet, as the flush needs it: the ring stays well
    formed, and the lengths handed to the device grow by what is newly in
    flight. *)
Lemma device_completes_balance (w : World) :
  tx_ok (cdc w) ->
  tx_busy (usbd w) = true ->
  let w' := device_completes w in
  tx_ok (cdc w')
  /\ _tx_count (cdc w') = _tx_count (cdc w) - _tx_size (cdc w)
  /\ tx_busy (usbd w') = negb (_tx_count (cdc w') =? 0)
  /\ (tx_busy (usbd w') = true -> 1 <= _tx_size (cdc w'))
  /\ sum_Z (tx_lens (usbd w')) - in_flight (cdc w') (usbd w')
     = sum_Z (tx_lens (usbd w)).
Proof.
  destruct Hcfg as [Hrx Htx]. pose proof packet_size_pos as Hpkt.
  unfold device_completes. rewrite (usbd_callback_transmit Hev).
  destruct Hev as [Hnz _].
  destruct w as [c u rc tc yc].
  destruct c as [bl rxd rr rw rcn txd tr tw ts tcn tt tcb rcb].
  destruct u as [st ls fifo busy log].
  unfold tx_ok, in_flight. simpl. intros (Hr & Hw & Hs & Hc) ->.
  unfold tx_complete, tx_ack. simpl.
  match goal with |- context [tx_next ?x] => remember (tx_next x) as w2 eqn:E2 end.
  unfold tx_next in E2. simpl in E2.
  rewrite (u32_small (tcn - ts)) in E2 by lia.
  assert (Hm : 0 <= mask CDC_TX_BUFFER_SIZE (u32 (tr + ts)) < CDC_TX_BUFFER_SIZE)
    by (apply mask_range; [lia | apply u32_range]).
  set (m := mask CDC_TX_BUFFER_SIZE (u32 (tr + ts))) in *. clearbody m.
  assert (H3 : forall w2, exists k,
             tx_notify w2 = mkWorld (cdc w2) (usbd w2) (receive_calls w2) k (yield_calls w2)).
  { intros w3. unfold tx_notify. destruct (_ && _); [eexists; reflexivity|].
    destruct w3; eexists; reflexivity. }
  destruct (H3 w2) as [k ->]. simpl.
  assert (Hbit : negb (Z.land USBD_CDC_EVENT_TRANSMIT USBD_CDC_EVENT_TRANSMIT =? 0)
                 = true).
  { rewrite Z.land_diag. destruct (Z.eqb_spec USBD_CDC_EVENT_TRANSMIT 0);
      [contradiction | reflexivity]. }
  destruct (Z.eqb_spec (tcn - ts) 0) as [Hz|Hz]; simpl in E2; subst w2;
    unfold transmit_from, stm32l4_usbd_cdc_transmit, tx_lens; simpl;
    rewrite ?Hbit.
  - rewrite Hz. simpl. repeat split; try lia; try discriminate.
  - pose proof (tx_clamp_pos Hcfg Hpkt (tcn - ts) m ltac:(lia) Hm).
    pose proof (tx_clamp_bounds (tcn - ts) m ltac:(lia)).
    destruct (Z.eqb_spec (tcn - ts) 0); [contradiction|].
    rewrite map_app, sum_Z_app. simpl. repeat split; try lia.
Qed.

Lemma flush_drive_S (fuel : nat) (f : fl_frame) (w : World) :
  fl_returned f = false ->
  flush_drive (S fuel) f w
  = flush_drive fuel (fst (flush_step f w))
      (if fl_waiting f w && tx_busy (usbd w)
       then device_completes (snd (flush_step f w))
       else snd (flush_step f w)).
Proof. intros R. simpl. rewrite R. destruct (flush_step f w). reflexivity. Qed.

Lemma flush_drive_terminates (total : Z) (n : nat) :
  forall (f : fl_frame) (w : World),
    flush_ok total f w ->
    flush_measure f w <= Z.of_nat n ->
    exists w', flush_drive n f w = Some w'
               /\ done w' = true
               /\ sum_Z (tx_lens (usbd w')) = total.
Proof.
  induction n as [|n IH]; intros f w (Hip & Hok & Hk & Hsum & Hpc) Hm;
    pose proof Hok as (Hr & Hw & Hs & Hc);
    destruct f as [pc ipsr]; simpl in Hip; subst ipsr;
    unfold flush_measure in Hm; simpl in Hm, Hpc.
  - (* no step left: the flush has returned *)
    destruct pc; try (exfalso; destruct (tx_busy (usbd w));
                      [destruct (_ =? _)|]; lia).
    exists w. split; [reflexivity|]. split; [exact Hpc|].
    unfold done, stm32l4_usbd_cdc_done, in_flight in *.
    destruct (Z.eqb_spec (_tx_count (cdc w)) 0); [|discriminate Hpc].
    destruct (tx_busy (usbd w)); [discriminate Hpc|]. simpl in *. lia.
  - destruct pc.
    + (* F167 *)
      rewrite flush_drive_S by reflexivity.
      unfold flush_step, fl_waiting. simpl.
      apply IH; [|unfold flush_measure; simpl; lia].
      unfold flush_ok. simpl.
      split; [reflexivity|]. split; [exact Hok|]. split; [exact Hk|].
      split; [exact Hsum | exact I].
    + (* F168 *)
      rewrite flush_drive_S by reflexivity.
      unfold flush_step, fl_waiting. simpl.
      destruct (Z.eqb_spec (_tx_count (cdc w)) 0) as [Hz|Hnz]; simpl.
      * apply IH; [|unfold flush_measure; simpl; lia].
        unfold flush_ok. simpl.
        split; [reflexivity|]. split; [exact Hok|]. split; [exact Hk|].
        split; [exact Hsum | exact Hz].
      * destruct Hk as [Hb|Hz]; [|contradiction]. rewrite Hb.
        assert (Hok1 : tx_ok (cdc (call_yield w))) by (destruct w; exact Hok).
        assert (Hb1 : tx_busy (usbd (call_yield w)) = true)
          by (destruct w; exact Hb).
        destruct (device_completes_balance (call_yield w) Hok1 Hb1)
          as (Hok' & Hc' & Hb' & Hs' & Hsum').
        replace (cdc (call_yield w)) with (cdc w) in * by (destruct w; reflexivity).
        replace (usbd (call_yield w)) with (usbd w) in * by (destruct w; reflexivity).
        set (w1 := device_completes (call_yield w)) in *. clearbody w1.
        unfold in_flight in *. rewrite Hb in *.
        apply IH.
        -- unfold flush_ok. simpl. split; [reflexivity|]. split; [exact Hok'|].
           split; [|split; [|exact I]].
           ++ rewrite Hb'. destruct (Z.eqb_spec (_tx_count (cdc w1)) 0);
                [right; assumption | left; reflexivity].
           ++ unfold in_flight. lia.
        -- unfold flush_measure. simpl. rewrite Hb'.
           destruct (Z.eqb_spec (_tx_count (cdc w1)) 0) as [Hz1|Hz1]; simpl.
           ++ destruct (_tx_size (cdc w) =? 0); lia.
           ++ specialize (Hs' Hb').
              destruct (Z.eqb_spec (_tx_size (cdc w1)) 0); [lia|].
              destruct (Z.eqb_spec (_tx_size (cdc w)) 0); lia.
    + (* F172 *)
      rewrite flush_drive_S by reflexivity.
      unfold flush_step, fl_waiting, stm32l4_usbd_cdc_done. simpl.
      destruct (tx_busy (usbd w)) eqn:Hb; simpl.
      * assert (Hok1 : tx_ok (cdc (call_yield w))) by (destruct w; exact Hok).
        assert (Hb1 : tx_busy (usbd (call_yield w)) = true)
          by (destruct w; exact Hb).
        destruct (device_completes_balance (call_yield w) Hok1 Hb1)
          as (Hok' & Hc' & Hb' & Hs' & Hsum').
        replace (cdc (call_yield w)) with (cdc w) in * by (destruct w; reflexivity).
        replace (usbd (call_yield w)) with (usbd w) in * by (destruct w; reflexivity).
        set (w1 := device_completes (call_yield w)) in *. clearbody w1.
        unfold in_flight in *. rewrite Hb in *.
        assert (Hc1 : _tx_count (cdc w1) = 0) by lia.
        rewrite Hc1 in Hb'. simpl in Hb'. rewrite Hb' in Hsum'.
        apply IH.
        -- unfold flush_ok, in_flight. simpl. rewrite Hb'.
           split; [reflexivity|]. split; [exact Hok'|].
           split; [right; exact Hc1|]. split; [lia | exact Hc1].
        -- unfold flush_measure. simpl. rewrite Hb', Hc1.
           destruct (_tx_size (cdc w) =? 0); lia.
      * apply IH; [|unfold flush_measure; simpl; rewrite Hb; lia].
        unfold flush_ok, in_flight, done, stm32l4_usbd_cdc_done. simpl.
        rewrite Hb. unfold in_flight in Hsum. rewrite Hb in Hsum.
        split; [reflexivity|]. split; [exact Hok|]. split; [right; exact Hpc|].
        split; [exact Hsum|]. rewrite Hpc. reflexivity.
    + (* F176 *)
      exists w. split; [reflexivity|]. split; [exact Hpc|].
      unfold done, stm32l4_usbd_cdc_done, in_flight in *.
      destruct (Z.eqb_spec (_tx_count (cdc w)) 0); [|discriminate Hpc].
      destruct (tx_busy (usbd w)); [discriminate Hpc|]. simpl in *. lia.
Qed.

(** X8. A flush in thread mode, from a state in which a packet is in flight
    or the ring is empty, with the device completing the packet in flight
    while the flush yields: it returns, [done()] then holds, and the
    lengths handed to the device have grown by the bytes that were queued
    and not yet in flight. *)
Theorem flush_completes (w : World) :
  tx_ok (cdc w) ->
  tx_busy (usbd w) = true \/ _tx_count (cdc w) = 0 ->
  exists (fuel : nat) (w' : World),
    flush_drive fuel (flush_call 0) w = Some w'
    /\ done w' = true
    /\ sum_Z (tx_lens (usbd w'))
       = sum_Z (tx_lens (usbd w)) + _tx_count (cdc w)
         - in_flight (cdc w) (usbd w).
Proof.
  intros Hok Hk.
  set (total := sum_Z (tx_lens (usbd w)) + _tx_count (cdc w)
                - in_flight (cdc w) (usbd w)).
  set (n := Z.to_nat (flush_measure (flush_call 0) w)).
  destruct (flush_drive_terminates total n (flush_call 0) w) as (w' & E & Hd & Hs).
  - unfold flush_ok. simpl.
    split; [reflexivity|]. split; [exact Hok|]. split; [exact Hk|].
    split; [reflexivity | exact I].
  - lia.
  - exists n, w'. repeat split; assumption.
Qed.

End Flush.

Section FlushAlone.
Context {cfg : Config}.

Lemma flush_run_S (fuel : nat) (f : fl_frame) (w : World) :
  fl_returned f = false ->
  flush_run (S fuel) f w
  = flush_run fuel (fst (flush_step f w)) (snd (flush_step f w)).
Proof. intros R. simpl. rewrite R. destruct (flush_step f w). reflexivity. Qed.

(** X9. A flush from an interrupt handler returns at once and changes
    nothing, whatever is still queued; a flush in thread mode with bytes
    in the ring yields and does not return as long as no completion
    arrives. *)
Theorem flush_without_device (w : World) :
  (forall ipsr, ipsr <> 0 -> flush 1 ipsr w = Some w)
  /\ (_tx_count (cdc w) <> 0 -> forall fuel, flush fuel 0 w = None).
Proof.
  split.
  - intros ipsr Hip. unfold flush, flush_call. rewrite flush_run_S by reflexivity.
    unfold flush_step. simpl.
    destruct (Z.eqb_spec ipsr 0); [contradiction|]. reflexivity.
  - intros Hc fuel. unfold flush, flush_call.
    destruct fuel as [|fuel]; [reflexivity|].
    rewrite flush_run_S by reflexivity. unfold flush_step. simpl.
    revert w Hc. induction fuel as [|fuel IH]; intros w Hc; [reflexivity|].
    rewrite flush_run_S by reflexivity. unfold flush_step. simpl.
    destruct (Z.eqb_spec (_tx_count (cdc w)) 0); [contradiction|]. simpl.
    apply IH. destruct w; exact Hc.
Qed.

End FlushAlone.

(** ** A blocking write without the device *)

Section Blocking.
Context {cfg : Config}.
Hypothesis Hcfg : config_ok.

Lemma bl_step (w : World) (f : wr_frame) :
  bl_ok w f ->
  bl_ok (snd (write_step f w)) (fst (write_step f w)).
Proof.
  destruct Hcfg as [Hrx Htx].
  destruct (write_step f w) as [f' w'] eqn:E.
  destruct w as [c u rc tc yc].
  destruct c as [bl rxd rr rw rcn txd tr tw ts tcn tt tcb rcb].
  destruct u as [st ls fifo busy log].
  destruct f as [pc ipsr buf size count ltc lts ltr].
  unfold bl_ok, to_queue, pending, buffer_ok. simpl.
  intros (Hbl & Hip & Hbuf & Hsz & Hw & Hc & Hq & Hpc).
  destruct pc; try contradiction;
    unfold write_step, stm32l4_usbd_cdc_done in E; simpl in *.
  all: rewrite ?Z.gtb_ltb in E.
  all: subst bl ipsr; simpl in E.
  all: split_ifs_in E; simpl in E; injection E as <- <-; simpl.
  all: unfold transmit_from, stm32l4_usbd_cdc_transmit; simpl.
  all: repeat match goal with H : _ /\ _ |- _ => destruct H end; simpl in *.
  all: repeat match goal with
       | H : context [if ?a <? ?b then _ else _] |- _ => destruct (Z.ltb_spec a b)
       end.
  all: try (exfalso; lia).
  all: mask_elim.
  all: u32_elim.
  all: try finish.
Qed.

Lemma bl_steps (n : nat) :
  forall (f : wr_frame) (w : World),
    bl_ok w f -> bl_ok (snd (write_steps n f w)) (fst (write_steps n f w)).
Proof.
  induction n as [|n IH]; intros f w Hok; [exact Hok|].
  rewrite write_steps_S. apply IH. apply bl_step. exact Hok.
Qed.

Lemma bl_not_returned (w : World) (f : wr_frame) :
  bl_ok w f -> wr_returned f = false.
Proof.
  unfold bl_ok, wr_returned. intros (_ & _ & _ & _ & _ & _ & _ & Hpc).
  destruct (w_pc f); try reflexivity; contradiction.
Qed.

Lemma write_run_none (fuel : nat) :
  forall (f : wr_frame) (w : World),
    (forall n, wr_returned (fst (write_steps n f w)) = false) ->
    write_run fuel f w = None.
Proof.
  induction fuel as [|fuel IH]; intros f w H;
    pose proof (H 0%nat) as H0; simpl in H0.
  - simpl. rewrite H0. reflexivity.
  - simpl. rewrite H0.
    destruct (write_step f w) as [f' w'] eqn:E. apply IH.
    intros n. specialize (H (S n)). rewrite write_steps_S, E in H. exact H.
Qed.

(** X6. A write with blocking on, made from thread mode on a ready device with
    RTS asserted, of more bytes than the ring has room for: while no
    transmit completion arrives it does not return, whatever the fuel;
    after any number of steps it has not reached a return statement, and
    the transmit count is within the capacity. *)
Theorem blocking_write_waits (buffer : list byte) (w : World) :
  buffer_ok buffer ->
  0 <= _tx_write (cdc w) < CDC_TX_BUFFER_SIZE ->
  0 <= _tx_count (cdc w) <= CDC_TX_BUFFER_SIZE ->
  USBD_CDC_STATE_READY <= usbd_state (usbd w) ->
  Z.land (lineState (usbd w)) 2 <> 0 ->
  _blocking (cdc w) = true ->
  CDC_TX_BUFFER_SIZE - _tx_count (cdc w) < Z.of_nat (length buffer) ->
  (forall fuel : nat, write fuel 0 buffer w = None)
  /\ forall n : nat,
       wr_returned (fst (write_steps n (write_call 0 buffer) w)) = false
       /\ _tx_count (cdc (snd (write_steps n (write_call 0 buffer) w)))
          <= CDC_TX_BUFFER_SIZE.
Proof.
  intros Hbuf Hw Hc Hst Hls Hbl Hlen.
  assert (Hok : bl_ok w (write_call 0 buffer)).
  { unfold bl_ok, write_call, to_queue. simpl. repeat split; try assumption; lia. }
  split.
  - intros fuel. unfold write. apply write_run_none. intros n.
    apply (bl_not_returned _ _ (bl_steps n _ _ Hok)).
  - intros n. pose proof (bl_steps n _ _ Hok) as H.
    split; [apply (bl_not_returned _ _ H)|].
    destruct H as (_ & _ & _ & _ & _ & H & _). apply H.
Qed.

End Blocking.

(** ** What a write that may not block changes *)

Section NonBlockingEffect.
Context {cfg : Config}.
Hypothesis Hcfg : config_ok.
Hypothesis Hpow : tx_pow2.

Lemma nb_effect_step (free0 : Z) (w0 w : World) (f : wr_frame) :
  nb_ok free0 w f ->
  0 <= _tx_count (cdc w0) ->
  0 <= _tx_total (cdc w0) < 2 ^ 31 ->
  free0 = CDC_TX_BUFFER_SIZE - _tx_count (cdc w0) ->
  nb_effect w0 w f ->
  wr_returned f = false ->
  nb_effect w0 (snd (write_step f w)) (fst (write_step f w)).
Proof.
  destruct Hcfg as [Hrx Htx].
  destruct (write_step f w) as [f' w'] eqn:E.
  destruct w as [c u rc tc yc].
  destruct c as [bl rxd rr rw rcn txd tr tw ts tcn tt tcb rcb].
  destruct u as [st ls fifo busy log].
  destruct f as [pc ipsr buf size count ltc lts ltr].
  destruct w0 as [c0 u0 rc0 tc0 yc0].
  destruct c0 as [bl0 rxd0 rr0 rw0 rcn0 txd0 tr0 tw0 ts0 tcn0 tt0 tcb0 rcb0].
  unfold nb_ok, nb_effect, queued, buffer_ok. simpl.
  intros (Hnb & Hbuf & Hw & Hfree & Hpc) Hc0 Ht0 Hf0 (Ec & Et & Est & Eu & Hk) Hret.
  destruct pc; try discriminate; try contradiction;
    unfold write_step, stm32l4_usbd_cdc_done in E; simpl in *.
  all: rewrite ?Z.gtb_ltb in E.
  all: split_ifs_in E; simpl in E; injection E as <- <-; simpl.
  all: unfold transmit_from, stm32l4_usbd_cdc_transmit; simpl.
  all: repeat match goal with H : _ /\ _ |- _ => destruct H end; subst; simpl in *.
  all: repeat match goal with
       | H : context [if ?a <? ?b then _ else _] |- _ => destruct (Z.ltb_spec a b)
       end.
  all: try (exfalso; lia).
  all: u32_elim.
  all: repeat match goal with
       | |- _ /\ _ => split
       | |- _ -> _ => intro
       end.
  all: try first [assumption | reflexivity | lia | contradiction
                 | apply Eu; assumption
                 | match goal with H : (?a =? 0) = false |- ?a = 0 => exfalso end ].
  all: try match goal with
       | H : negb ?b = false |- ?b = true =>
           destruct b; [reflexivity | discriminate H]
       end.
Qed.

Lemma write_steps_ipsr (k : nat) :
  forall (f : wr_frame) (w : World),
    w_ipsr (fst (write_steps k f w)) = w_ipsr f.
Proof.
  induction k as [|k IH]; intros f w; [reflexivity|].
  rewrite write_steps_S, IH.
  destruct (write_step f w) as [f' w'] eqn:E.
  destruct f as [pc ? ? ? ? ? ? ?]. unfold write_step in E. simpl in E.
  destruct pc; split_ifs_in E; injection E as <- <-; reflexivity.
Qed.

Lemma nb_effect_steps (free0 : Z) (w0 : World) (k : nat) :
  0 <= _tx_count (cdc w0) ->
  0 <= _tx_total (cdc w0) < 2 ^ 31 ->
  free0 = CDC_TX_BUFFER_SIZE - _tx_count (cdc w0) ->
  forall (f : wr_frame) (w : World),
    nb_ok free0 w f -> nb_effect w0 w f ->
    nb_effect w0 (snd (write_steps k f w)) (fst (write_steps k f w)).
Proof.
  intros Hc0 Ht0 Hf0.
  induction k as [|k IH]; intros f w Hok He; [exact He|].
  rewrite write_steps_S.
  destruct (wr_returned f) eqn:R.
  - rewrite (write_step_returned f w R). apply IH; assumption.
  - apply IH.
    + apply (nb_step Hcfg Hpow); assumption.
    + apply (nb_effect_step free0); assumption.
Qed.

(** X5. A write with blocking off, or made from an interrupt handler, that
    accepts [n] bytes raises the transmit count and the outstanding total
    by [n] and lowers [availableForWrite] by [n].  Made from an interrupt
    handler it leaves the device stack as it was: it starts no
    transmission.  Made from thread mode with at least one byte accepted
    it leaves a packet in flight. *)
Theorem nonblocking_write_effect (ipsr : Z) (buffer : list byte) (w : World) :
  buffer_ok buffer ->
  0 <= _tx_write (cdc w) < CDC_TX_BUFFER_SIZE ->
  0 <= _tx_count (cdc w) <= CDC_TX_BUFFER_SIZE ->
  0 <= _tx_total (cdc w) < 2 ^ 31 ->
  USBD_CDC_STATE_READY <= usbd_state (usbd w) ->
  Z.land (lineState (usbd w)) 2 <> 0 ->
  _blocking (cdc w) = false \/ ipsr <> 0 ->
  let n := Z.min (Z.of_nat (length buffer))
                 (CDC_TX_BUFFER_SIZE - _tx_count (cdc w)) in
  exists w' : World,
    write 30 ipsr buffer w = Some (n, w')
    /\ _tx_count (cdc w') = _tx_count (cdc w) + n
    /\ _tx_total (cdc w') = _tx_total (cdc w) + n
    /\ availableForWrite w' = availableForWrite w - n
    /\ (ipsr <> 0 -> usbd w' = usbd w)
    /\ (ipsr = 0 -> 1 <= n -> tx_busy (usbd w') = true).
Proof.
  destruct Hcfg as [Hrx Htx].
  intros Hbuf Hw Hc Ht Hst Hls Hnb n.
  set (room := CDC_TX_BUFFER_SIZE - _tx_count (cdc w)) in *.
  set (f0 := write_call ipsr buffer).
  assert (Hok : nb_ok room w f0).
  { unfold nb_ok, f0, write_call. simpl. subst room.
    repeat split; try assumption; lia. }
  assert (He0 : nb_effect w w f0).
  { unfold nb_effect, f0, write_call. simpl. repeat split; try lia; reflexivity. }
  assert (Hrank : wr_rank w f0 <= Z.of_nat 30)
    by (change (Z.of_nat 30) with 30; unfold wr_rank; simpl; lia).
  pose proof (nb_terminates Hcfg Hpow room 30 _ _ Hok Hrank) as Hret.
  pose proof (nb_steps Hcfg Hpow room 30 _ _ Hok) as H30.
  pose proof (nb_buffer room 30 f0 w) as Hb30.
  pose proof (write_steps_ipsr 30 f0 w) as Hi30.
  pose proof (nb_effect_steps room w 30 ltac:(lia) Ht eq_refl f0 w Hok He0) as He30.
  unfold write. fold f0. rewrite (write_run_steps 30 _ _ Hret).
  destruct (write_steps 30 f0 w) as [f' w']. simpl in *.
  exists w'.
  destruct f' as [pc ipsr' buf size count ltc lts ltr].
  unfold nb_ok in H30. unfold nb_effect, queued in He30.
  unfold wr_returned in Hret. unfold wr_result. simpl in *.
  destruct H30 as (_ & _ & _ & _ & Hpc).
  destruct He30 as (Ec & Et & Est & Eu & Hk).
  subst ipsr' buf.
  destruct pc; try discriminate Hret; try contradiction.
  destruct Hpc as [Hsz Hcn]. subst count size. fold n in Ec, Et, Hk |- *.
  split; [reflexivity|]. split; [exact Ec|]. split; [exact Et|].
  split; [|split; [exact Eu | exact Hk]].
  unfold availableForWrite. rewrite Est, Ec.
  destruct (Z.ltb_spec (usbd_state (usbd w)) USBD_CDC_STATE_READY); [lia|].
  subst room.
  rewrite !u32_small by lia. unfold to_int.
  repeat match goal with
  | |- context [if ?a <? ?b then _ else _] => destruct (Z.ltb_spec a b)
  end; lia.
Qed.

End NonBlockingEffect.

Local Arguments Z.modulo : simpl never.
Local Arguments Z.to_nat : simpl never.

(** ** The arrays through the interleavings *)

Section Arrays.
Context {cfg : Config}.
Hypothesis Hcfg : config_ok.
Hypothesis Hpow : tx_pow2.

Lemma tx_clamp_room (s r : Z) :
  0 <= s -> 0 <= r < CDC_TX_BUFFER_SIZE ->
  tx_clamp s r <= CDC_TX_BUFFER_SIZE - r.
Proof.
  destruct Hcfg as [_ Htx]. intros Hs Hr. unfold tx_clamp.
  rewrite (u32_small (CDC_TX_BUFFER_SIZE - r)) by lia.
  pose proof (u32_range CDC_TX_PACKET_SIZE).
  rewrite !Z.gtb_ltb.
  destruct (Z.ltb_spec (CDC_TX_BUFFER_SIZE - r) s);
    match goal with |- context [if ?a <? ?b then _ else _] =>
      destruct (Z.ltb_spec a b) end; lia.
Qed.

(** *** The receive array keeps its size *)

Lemma rx_pull_length (n : Z) (w : World) :
  rx_ok (cdc w) ->
  0 <= n <= CDC_RX_BUFFER_SIZE - _rx_count (cdc w) ->
  length (_rx_data (cdc w)) = Z.to_nat CDC_RX_BUFFER_SIZE ->
  length (_rx_data (cdc (snd (rx_pull n w)))) = Z.to_nat CDC_RX_BUFFER_SIZE.
Proof.
  destruct Hcfg as [Hrx Htx]. intros Hok Hn Hlen.
  unfold rx_pull, stm32l4_usbd_cdc_receive.
  match goal with
  | |- context [firstn (Z.to_nat ?k) ?l] =>
      set (cap := k) in *; set (bytes := firstn (Z.to_nat cap) l) in *
  end.
  destruct w as [c u rc tc yc].
  destruct c as [bl rxd rr rw rcn txd tr tw ts tcn tt tcb rcb].
  destruct u as [st ls fifo busy log].
  destruct Hok as (Hr & Hw & Hc). simpl in *.
  assert (Hcap : 0 <= cap <= CDC_RX_BUFFER_SIZE - rw).
  { subst cap. rewrite Z.gtb_ltb. rewrite (u32_small (CDC_RX_BUFFER_SIZE - rw)) by lia.
    destruct (Z.ltb_spec (CDC_RX_BUFFER_SIZE - rw) n); lia. }
  assert (Hb : 0 <= Z.of_nat (length bytes) <= cap).
  { subst bytes. pose proof (firstn_le_length (Z.to_nat cap) fifo). lia. }
  clearbody bytes. rewrite length_memcpy_to; [exact Hlen | lia | lia].
Qed.

Lemma rx_drain_length (fuel : nat) :
  forall (count : Z) (w : World) (count' : Z) (w' : World),
    rx_ok (cdc w) ->
    length (_rx_data (cdc w)) = Z.to_nat CDC_RX_BUFFER_SIZE ->
    rx_drain fuel count w = Some (count', w') ->
    length (_rx_data (cdc w')) = Z.to_nat CDC_RX_BUFFER_SIZE.
Proof.
  destruct Hcfg as [Hrx Htx].
  induction fuel as [|fuel IH]; intros count w count' w' Hok Hlen E; [discriminate|].
  rewrite rx_drain_S in E. cbv zeta in E.
  destruct (Z.eqb_spec (u32 (CDC_RX_BUFFER_SIZE - _rx_count (cdc w))) 0).
  { injection E as <- <-. exact Hlen. }
  assert (Hn : 0 <= u32 (CDC_RX_BUFFER_SIZE - _rx_count (cdc w))
               <= CDC_RX_BUFFER_SIZE - _rx_count (cdc w)).
  { destruct Hok as (_ & _ & Hc). rewrite u32_small; lia. }
  destruct (rx_pull_only Hcfg _ w Hok Hn) as [(_ & _ & _ & Hok1) _].
  pose proof (rx_pull_length _ w Hok Hn Hlen) as Hlen1.
  destruct (rx_pull (u32 (CDC_RX_BUFFER_SIZE - _rx_count (cdc w))) w)
    as [rx_size w1]. simpl in Hok1, Hlen1.
  destruct (rx_size =? 0).
  - injection E as <- <-. exact Hlen1.
  - eapply IH; [exact Hok1 | exact Hlen1 | exact E].
Qed.

Lemma rx_round_length (fuel : nat) :
  forall (w : World) (o : outcome) (w' : World),
    rx_ok (cdc w) ->
    length (_rx_data (cdc w)) = Z.to_nat CDC_RX_BUFFER_SIZE ->
    rx_round fuel w = (o, w') ->
    length (_rx_data (cdc w')) = Z.to_nat CDC_RX_BUFFER_SIZE.
Proof.
  induction fuel as [|fuel IH]; intros w o w' Hok Hlen E; simpl in E.
  { injection E as <- <-. exact Hlen. }
  destruct (_rx_count (cdc w) =? CDC_RX_BUFFER_SIZE).
  { injection E as <- <-. exact Hlen. }
  destruct (rx_drain fuel 0 w) as [[count w1]|] eqn:D.
  2:{ injection E as <- <-. exact Hlen. }
  pose proof (rx_drain_only Hcfg _ _ _ _ _ Hok D) as (_ & _ & _ & Hok1).
  pose proof (rx_drain_length _ _ _ _ _ Hok Hlen D) as Hlen1.
  eapply IH; [| |exact E].
  - destruct (_ && _); [destruct w1|]; exact Hok1.
  - destruct (_ && _); [destruct w1|]; exact Hlen1.
Qed.

(** *** The transmit-complete branch, field by field *)

Lemma tx_complete_spec (w : World) :
  0 <= _tx_read (cdc w) < CDC_TX_BUFFER_SIZE ->
  0 <= _tx_size (cdc w) <= _tx_count (cdc w) ->
  _tx_count (cdc w) <= CDC_TX_BUFFER_SIZE ->
  let w' := tx_complete w in
  let R' := (_tx_read (cdc w) + _tx_size (cdc w)) mod CDC_TX_BUFFER_SIZE in
  let C' := _tx_count (cdc w) - _tx_size (cdc w) in
  let S' := if C' =? 0 then 0 else tx_clamp C' R' in
  _rx_data (cdc w') = _rx_data (cdc w)
  /\ _tx_data (cdc w') = _tx_data (cdc w)
  /\ _tx_write (cdc w') = _tx_write (cdc w)
  /\ _tx_read (cdc w') = R'
  /\ _tx_count (cdc w') = C'
  /\ _tx_size (cdc w') = S'
  /\ tx_busy (usbd w') = (if C' =? 0 then tx_busy (usbd w) else true)
  /\ tx_log (usbd w')
     = tx_log (usbd w)
       ++ (if C' =? 0 then []
           else [(S', memcpy_from (_tx_data (cdc w)) R' S')]).
Proof.
  destruct Hcfg as [Hrx Htx].
  destruct w as [c u rc tc yc].
  destruct c as [bl rxd rr rw rcn txd tr tw ts tcn tt tcb rcb].
  destruct u as [st ls fifo busy log].
  simpl. intros Hr Hs Hc.
  unfold tx_complete, tx_ack. simpl.
  match goal with |- context [tx_next ?x] => remember (tx_next x) as w2 eqn:E2 end.
  unfold tx_next in E2. simpl in E2.
  rewrite (u32_small (tcn - ts)) in E2 by lia.
  rewrite (u32_small (tr + ts)) in E2 by lia.
  assert (Hpos : 0 < CDC_TX_BUFFER_SIZE) by lia.
  rewrite (mask_pow2 _ _ Hpos Hpow) in E2.
  assert (H3 : forall w2, exists k,
             tx_notify w2 = mkWorld (cdc w2) (usbd w2) (receive_calls w2) k (yield_calls w2)).
  { intros w3. unfold tx_notify. destruct (_ && _); [eexists; reflexivity|].
    destruct w3; eexists; reflexivity. }
  destruct (H3 w2) as [k ->]. simpl.
  destruct (Z.eqb_spec (tcn - ts) 0) as [Hz|Hz]; simpl in E2; subst w2;
    unfold transmit_from, stm32l4_usbd_cdc_transmit; simpl.
  - rewrite app_nil_r. repeat split; reflexivity.
  - repeat split; reflexivity.
Qed.

(** *** Steps of the write *)

Lemma firstn_memcpy_from (buf : list byte) (a b : Z) :
  0 <= a -> 0 <= b ->
  firstn (Z.to_nat (a + b)) buf
  = firstn (Z.to_nat a) buf ++ memcpy_from buf a b.
Proof.
  intros Ha Hb. unfold memcpy_from.
  rewrite Z2Nat.inj_add by lia. apply firstn_plus.
Qed.

Lemma write_step_data (w : World) (f : wr_frame) (rets : list Z) :
  sys_inv (mkSys w (InWrite f) rets) ->
  data_inv (mkSys w (InWrite f) rets) ->
  wr_returned f = false ->
  data_inv (mkSys (snd (write_step f w)) (InWrite (fst (write_step f w))) rets).
Proof.
  destruct Hcfg as [Hrx Htx].
  assert (Hpos : 0 < CDC_TX_BUFFER_SIZE) by lia.
  destruct (write_step f w) as [f' w'] eqn:E.
  destruct w as [c u rc tc yc].
  destruct c as [bl rxd rr rw rcn txd tr tw ts tcn tt tcb rcb].
  destruct u as [st ls fifo busy log].
  destruct f as [pc ipsr buf size count ltc lts ltr].
  unfold sys_inv, rx_ok, rd_ok, tx_ok, fg_ok, wr_ok, in_flight, tx_lens, buffer_ok.
  unfold data_inv, wr_data_ok, unqueued. simpl.
  intros (Hr & _ & Ht & (Hip & Hsz & Hbuf & Hpc) & Htot & Hlens & Hbal & Hq & Hk)
         (Lrx & Ltx & Hwr & Hlog & Hd) Hret.
  destruct pc; try discriminate; unfold write_step, stm32l4_usbd_cdc_done in E; simpl in *.
  all: rewrite ?Z.gtb_ltb in E.
  all: try (split_ifs_in E; simpl in E; injection E as <- <-; simpl;
            repeat match goal with H : _ /\ _ |- _ => destruct H end;
            rewrite ?Z.add_0_r in *;
            repeat split; first [assumption | lia | reflexivity]).
  - (* W214: the packet is clamped to the end of the array *)
    injection E as <- <-. simpl.
    repeat match goal with H : _ /\ _ |- _ => destruct H end.
    pose proof (tx_clamp_room lts tr ltac:(lia) ltac:(lia)).
    repeat split; first [assumption | lia | reflexivity].
  - (* W226: the packet lies inside the array *)
    injection E as <- <-. unfold transmit_from, stm32l4_usbd_cdc_transmit. simpl.
    repeat match goal with H : _ /\ _ |- _ => destruct H end. subst ltr.
    repeat split; try first [assumption | lia | reflexivity].
    apply Forall_app. split; [exact Hlog|]. constructor; [|constructor].
    simpl. apply length_memcpy_from; lia.
  - (* W236: the chunk is copied behind the ring *)
    rewrite Z.add_0_r in Hwr.
    destruct Hpc as (Hcnt & Hltc).
    rewrite (u32_small (CDC_TX_BUFFER_SIZE - tw)) in E by lia.
    rewrite (u32_small (size - count)) in E by lia.
    set (k1 := if CDC_TX_BUFFER_SIZE - tw <? ltc
               then CDC_TX_BUFFER_SIZE - tw else ltc) in *.
    set (k := if size - count <? k1 then size - count else k1) in *.
    assert (Hk1 : 1 <= k1 <= ltc /\ k1 <= CDC_TX_BUFFER_SIZE - tw).
    { subst k1. destruct (Z.ltb_spec (CDC_TX_BUFFER_SIZE - tw) ltc); lia. }
    assert (Hk' : 1 <= k <= k1 /\ k <= size - count).
    { subst k. destruct (Z.ltb_spec (size - count) k1); lia. }
    clearbody k k1.
    injection E as <- <-. simpl.
    rewrite (u32_small (count + k)) by lia.
    rewrite (u32_small (tw + k)) by lia.
    rewrite (mask_pow2 _ _ Hpos Hpow).
    assert (Hlb : Z.of_nat (length (memcpy_from buf count k)) = k)
      by (apply length_memcpy_from; lia).
    split; [exact Lrx|]. split.
    { rewrite length_memcpy_to; [exact Ltx | lia | lia]. }
    split. { rewrite Hwr, Zplus_mod_idemp_l. reflexivity. }
    split; [exact Hlog|].
    rewrite <- Hwr. split; [lia|].
    replace (count + k - k) with count by lia.
    set (bytes := memcpy_from buf count k) in *. clearbody bytes.
    rewrite <- Hlb. apply memcpy_from_to; lia.
  - (* W251: the chunk joins the ring *)
    injection E as <- <-. simpl.
    repeat match goal with H : _ /\ _ |- _ => destruct H end.
    rewrite (u32_small (tcn + ltc)) by lia.
    repeat split; try first [assumption | lia | reflexivity].
    rewrite Hwr. f_equal. lia.
  - (* W257 *)
    repeat match goal with H : _ /\ _ |- _ => destruct H end.
    pose proof (tx_clamp_room lts tr ltac:(lia) ltac:(lia)).
    split_ifs_in E; injection E as <- <-; simpl;
      repeat split; first [assumption | lia | reflexivity].
  - (* W270 *)
    injection E as <- <-. unfold transmit_from, stm32l4_usbd_cdc_transmit. simpl.
    repeat match goal with H : _ /\ _ |- _ => destruct H end. subst ltr.
    repeat split; try first [assumption | lia | reflexivity].
    apply Forall_app. split; [exact Hlog|]. constructor; [|constructor].
    simpl. apply length_memcpy_from; lia.
Qed.

(** *** Events *)

Lemma mod_ack (R S C k : Z) :
  ((R + S) mod CDC_TX_BUFFER_SIZE + (C - S) + k) mod CDC_TX_BUFFER_SIZE
  = (R + C + k) mod CDC_TX_BUFFER_SIZE.
Proof.
  replace ((R + S) mod CDC_TX_BUFFER_SIZE + (C - S) + k)
    with ((R + S) mod CDC_TX_BUFFER_SIZE + (C - S + k)) by lia.
  rewrite Zplus_mod_idemp_l. f_equal. lia.
Qed.

Lemma event_data (w : World) (f : frame) (rets : list Z) (data : list byte)
    (events : Z) (w1 : World) :
  sys_inv (mkSys w f rets) ->
  data_inv (mkSys w f rets) ->
  (Z.land events USBD_CDC_EVENT_TRANSMIT <> 0 -> tx_busy (usbd w) = true) ->
  rx_only (with_usbd (usbd_event data events) w) w1 ->
  length (_rx_data (cdc w1)) = Z.to_nat CDC_RX_BUFFER_SIZE ->
  data_inv (mkSys (if negb (Z.land events USBD_CDC_EVENT_TRANSMIT =? 0)
                   then tx_complete w1 else w1) f rets).
Proof.
  destruct Hcfg as [Hrx Htx].
  assert (Hpos : 0 < CDC_TX_BUFFER_SIZE) by lia.
  destruct w as [c u rc tc yc].
  destruct c as [bl rxd rr rw rcn txd tr tw ts tcn tt tcb rcb].
  destruct u as [st ls fifo busy log].
  destruct w1 as [c1 u1 rc1 tc1 yc1].
  destruct c1 as [bl1 rxd1 rr1 rw1 rcn1 txd1 tr1 tw1 ts1 tcn1 tt1 tcb1 rcb1].
  destruct u1 as [st1 ls1 fifo1 busy1 log1].
  unfold rx_only, tx_part, rx_ok. simpl.
  intros Hinv Hdata Hbusy (Epart & Er & Hc & Hok1) Lrx1.
  injection Epart as -> -> -> -> -> -> -> -> -> -> -> -> -> -> ->.
  subst rr1.
  revert Hinv Hdata.
  unfold sys_inv, rx_ok, rd_ok, tx_ok, fg_ok, in_flight, tx_lens, buffer_ok.
  unfold data_inv. simpl.
  intros (Hr & Hrd & Ht & Hfg & Htot & Hlens & Hbal & Hq & Hk)
         (Lrx & Ltx & Hwr & Hlog & Hd).
  destruct (Z.eqb_spec (Z.land events USBD_CDC_EVENT_TRANSMIT) 0) as [Hz|Hnz]; simpl.
  - (* no transmit bit *)
    split; [exact Lrx1|]. split; [exact Ltx|]. split; [exact Hwr|].
    split; [exact Hlog|exact Hd].
  - specialize (Hbusy Hnz). subst busy.
    match goal with |- context [tx_complete ?x] =>
      pose proof (tx_complete_spec x) as Hspec;
      remember (tx_complete x) as w2 eqn:E2
    end.
    simpl in Hspec.
    destruct Hspec as (E_rxd & E_txd & E_w & E_r & E_c & E_s & E_b & E_log);
      try lia.
    rewrite E_rxd, E_txd, E_w, E_r, E_c, E_log. clear E2.
    pose proof (Z.mod_pos_bound (tr + ts) CDC_TX_BUFFER_SIZE Hpos) as Hm.
    split; [exact Lrx1|]. split; [exact Ltx|].
    split; [rewrite mod_ack; exact Hwr|].
    split.
    { apply Forall_app. split; [exact Hlog|].
      destruct (Z.eqb_spec (tcn - ts) 0); [constructor|].
      constructor; [|constructor]. simpl.
      pose proof (tx_clamp_bounds (tcn - ts) ((tr + ts) mod CDC_TX_BUFFER_SIZE)
                    ltac:(lia)).
      pose proof (tx_clamp_room (tcn - ts) ((tr + ts) mod CDC_TX_BUFFER_SIZE)
                    ltac:(lia) Hm).
      apply length_memcpy_from; lia. }
    unfold wr_data_ok, wr_ok in *.
    destruct f as [|[pc ipsr buf size count ltc lts ltr]|rf|rf]; try exact I.
    simpl in *. destruct Hfg as (_ & _ & _ & Hpc).
    destruct pc; try exact I;
      try (exfalso; repeat match goal with H : _ /\ _ |- _ => destruct H end;
           discriminate).
    (* W251 *)
    rewrite E_txd, E_r, E_c.
    pose proof (mod_ack tr ts tcn 0) as Hoff. rewrite !Z.add_0_r in Hoff.
    rewrite Hoff. exact Hd.
Qed.

Lemma read_step_data (f : rd_frame) (w : World) :
  _rx_data (cdc (snd (read_step f w))) = _rx_data (cdc w).
Proof.
  destruct (read_step f w) as [f' w'] eqn:E.
  destruct f as [pc ? ? ? ?]. unfold read_step in E. simpl in E. simpl.
  destruct pc; split_ifs_in E; injection E as <- <-; reflexivity.
Qed.

Lemma read1_step_data (f : rd1_frame) (w : World) :
  _rx_data (cdc (snd (read1_step f w))) = _rx_data (cdc w).
Proof.
  destruct (read1_step f w) as [f' w'] eqn:E.
  destruct f as [pc ?]. unfold read1_step in E. simpl in E. simpl.
  destruct pc; split_ifs_in E; injection E as <- <-; reflexivity.
Qed.

(** A step that changes nothing of the transmit ring and keeps the
    receive array. *)
Lemma data_inv_frame (w w' : World) (f f' : frame) (rets rets' : list Z) :
  data_inv (mkSys w f rets) ->
  (_tx_data (cdc w'), _tx_read (cdc w'), _tx_write (cdc w'),
   _tx_count (cdc w'), tx_log (usbd w'))
  = (_tx_data (cdc w), _tx_read (cdc w), _tx_write (cdc w),
     _tx_count (cdc w), tx_log (usbd w)) ->
  _rx_data (cdc w') = _rx_data (cdc w) ->
  unqueued f' = 0 -> unqueued f = 0 ->
  wr_data_ok (cdc w') f' ->
  data_inv (mkSys w' f' rets').
Proof.
  unfold data_inv. simpl.
  intros (Lrx & Ltx & Hwr & Hlog & Hd) Ep Erx Hu' Hu Hd'.
  injection Ep as Etxd Er Ew Ec Elog.
  rewrite Erx, Etxd, Er, Ew, Ec, Elog, Hu'. rewrite Hu in Hwr.
  repeat split; assumption.
Qed.

Lemma tx_part_ring (w w' : World) :
  tx_part w' = tx_part w ->
  (_tx_data (cdc w'), _tx_read (cdc w'), _tx_write (cdc w'),
   _tx_count (cdc w'), tx_log (usbd w'))
  = (_tx_data (cdc w), _tx_read (cdc w), _tx_write (cdc w),
     _tx_count (cdc w), tx_log (usbd w)).
Proof.
  unfold tx_part. intros Ep.
  injection Ep as _ Etxd Er Ew _ Ec _ _ _ _ _ _ Elog _ _.
  rewrite Etxd, Er, Ew, Ec, Elog. reflexivity.
Qed.

Lemma data_inv_new (st ls : Z) : data_inv (mkSys (World_new st ls) Idle []).
Proof.
  destruct Hcfg as [Hrx Htx].
  unfold data_inv, World_new, CDC_new. simpl.
  rewrite !repeat_length.
  repeat split; try reflexivity. constructor.
Qed.

Lemma data_inv_step (s s' : System) :
  sys_inv s -> data_inv s -> step s s' -> data_inv s'.
Proof.
  destruct Hcfg as [Hrx Htx].
  intros Hinv Hdata Hstep. destruct Hstep.
  - apply (data_inv_frame w w Idle _ rets); try reflexivity; try exact Hdata; try exact I.
  - apply write_step_data; assumption.
  - apply (data_inv_frame w w (InWrite f) _ rets); try reflexivity;
      try exact Hdata; try exact I.
    unfold wr_returned in H. unfold unqueued.
    destruct (w_pc f); try discriminate H; reflexivity.
  - apply (data_inv_frame w w Idle _ rets); try reflexivity; try exact Hdata; try exact I.
  - apply (data_inv_frame w _ (InRead f) _ rets); try reflexivity; try exact Hdata.
    + apply tx_part_ring, read_step_tx.
    + apply read_step_data.
  - apply (data_inv_frame w w (InRead f) _ rets); try reflexivity; try exact Hdata; try exact I.
  - apply (data_inv_frame w w Idle _ rets); try reflexivity; try exact Hdata; try exact I.
  - apply (data_inv_frame w _ (InRead1 f) _ rets); try reflexivity; try exact Hdata.
    + apply tx_part_ring, read1_step_tx.
    + apply read1_step_data.
  - apply (data_inv_frame w w (InRead1 f) _ rets); try reflexivity; try exact Hdata; try exact I.
  - apply (data_inv_frame w _ Idle _ rets); try reflexivity; try exact Hdata;
      try exact I; destruct w; reflexivity.
  - apply (data_inv_frame w _ Idle _ rets); try reflexivity; try exact Hdata;
      try exact I; destruct w; reflexivity.
  - apply (data_inv_frame w _ Idle _ rets); try reflexivity; try exact Hdata;
      try exact I; destruct w; reflexivity.
  - (* line state *)
    destruct Hdata as (Lrx & Ltx & Hwr & Hlog & Hd).
    destruct w as [c u ? ? ?]. destruct u. unfold data_inv. simpl in *.
    repeat split; assumption.
  - (* event *)
    rename H into Hbusy. rename H0 into E.
    unfold EventCallback in E.
    set (w0 := with_usbd (usbd_event data events) w) in *.
    assert (Hok0 : rx_ok (cdc w0)).
    { subst w0. destruct Hinv as (Hr & _). destruct w; simpl in *. exact Hr. }
    assert (Lrx0 : length (_rx_data (cdc w0)) = Z.to_nat CDC_RX_BUFFER_SIZE).
    { subst w0. destruct Hdata as (Lrx & _). destruct w; simpl in *. exact Lrx. }
    destruct (negb (Z.land events USBD_CDC_EVENT_RECEIVE =? 0)).
    + destruct (rx_round fuel w0) as [o w1] eqn:R.
      pose proof (rx_round_only Hcfg _ _ _ _ Hok0 R) as Honly.
      pose proof (rx_round_length _ _ _ _ Hok0 Lrx0 R) as Lrx1.
      destruct o; [|discriminate].
      injection E as <-.
      apply (event_data w f rets data events w1 Hinv Hdata Hbusy Honly Lrx1).
    + injection E as <-.
      apply (event_data w f rets data events w0 Hinv Hdata Hbusy
               (rx_only_refl _ Hok0) Lrx0).
Qed.

Lemma reachable_data (s : System) : reachable s -> data_inv s.
Proof.
  induction 1 as [st ls|s s' Hr IH Hstep].
  - apply data_inv_new.
  - exact (data_inv_step s s' (reachable_inv Hcfg s Hr) IH Hstep).
Qed.

(** X3. Through every interleaving both arrays keep their size, so no copy
    into a ring runs past its end; and every packet handed to the device
    lies inside the transmit array: it carries as many bytes as the length
    passed with it. *)
Theorem copies_stay_in_arrays (s : System) :
  reachable s ->
  length (_rx_data (cdc (world s))) = Z.to_nat CDC_RX_BUFFER_SIZE
  /\ length (_tx_data (cdc (world s))) = Z.to_nat CDC_TX_BUFFER_SIZE
  /\ Forall (fun e => Z.of_nat (length (snd e)) = fst e)
            (tx_log (usbd (world s))).
Proof.
  intros Hr. destruct (reachable_data s Hr) as (Lrx & Ltx & _ & Hlog & _).
  repeat split; assumption.
Qed.

End Arrays.

(** ** The order of the transmitted bytes *)

Section Order.
Context {cfg : Config}.
Hypothesis Hcfg : config_ok.
Hypothesis Hpow : tx_pow2.

Lemma wire_transmit (data : list byte) (len : Z) (u : usbd_cdc_t) :
  wire (stm32l4_usbd_cdc_transmit data len u) = wire u ++ data.
Proof.
  unfold wire, stm32l4_usbd_cdc_transmit. simpl.
  rewrite map_app, concat_app. simpl. rewrite app_nil_r. reflexivity.
Qed.

(** Handing over the first bytes of the ring leaves the stream as it is. *)
Lemma stream_transmit (log : list (Z * list byte)) (txd : list byte)
    (R C S : Z) :
  0 <= R -> 0 <= S <= C -> R + S <= CDC_TX_BUFFER_SIZE ->
  CDC_TX_BUFFER_SIZE <= Z.of_nat (length txd) ->
  concat (map snd (log ++ [(S, memcpy_from txd R S)]))
  ++ skipn (Z.to_nat S) (ring CDC_TX_BUFFER_SIZE txd R C)
  = concat (map snd log) ++ ring CDC_TX_BUFFER_SIZE txd R C.
Proof.
  intros HR HS Hend Hlen.
  rewrite map_app, concat_app. simpl. rewrite app_nil_r, <- app_assoc. f_equal.
  rewrite <- (ring_contiguous CDC_TX_BUFFER_SIZE txd R S) by lia.
  rewrite <- (ring_firstn CDC_TX_BUFFER_SIZE txd R C S) by lia.
  apply firstn_skipn.
Qed.

Lemma write_step_stream (w : World) (f : wr_frame) (rets : list Z) :
  sys_inv (mkSys w (InWrite f) rets) ->
  data_inv (mkSys w (InWrite f) rets) ->
  wr_returned f = false ->
  exists delta,
    tx_stream (snd (write_step f w)) = tx_stream w ++ delta
    /\ tx_queued (InWrite (fst (write_step f w)))
       = tx_queued (InWrite f) ++ delta.
Proof.
  destruct Hcfg as [Hrx Htx].
  assert (Hpos : 0 < CDC_TX_BUFFER_SIZE) by lia.
  destruct (write_step f w) as [f' w'] eqn:E.
  destruct w as [c u rc tc yc].
  destruct c as [bl rxd rr rw rcn txd tr tw ts tcn tt tcb rcb].
  destruct u as [st ls fifo busy log].
  destruct f as [pc ipsr buf size count ltc lts ltr].
  unfold sys_inv, rx_ok, rd_ok, tx_ok, fg_ok, wr_ok, tx_lens, buffer_ok.
  unfold data_inv, wr_data_ok, unqueued.
  unfold tx_stream, tx_queued, queued, tx_ring, in_flight, wire. simpl.
  intros (Hr & _ & Ht & (Hip & Hsz & Hbuf & Hpc) & Htot & Hlens & Hbal & Hq & Hk)
         (Lrx & Ltx & Hwr & Hlog & Hd) Hret.
  destruct pc; try discriminate; unfold write_step, stm32l4_usbd_cdc_done in E; simpl in *.
  all: rewrite ?Z.gtb_ltb in E.
  all: try (split_ifs_in E; simpl in E; injection E as <- <-; simpl;
            repeat match goal with H : _ /\ _ |- _ => destruct H end;
            subst; simpl;
            exists []; rewrite !app_nil_r; split; reflexivity).
  - (* W226: the packet is the head of the ring *)
    injection E as <- <-. unfold transmit_from, stm32l4_usbd_cdc_transmit. simpl.
    repeat match goal with H : _ /\ _ |- _ => destruct H end. subst.
    exists []. rewrite !app_nil_r. split; [|reflexivity].
    simpl. rewrite stream_transmit by lia. reflexivity.
  - (* W236: the copy lands behind the ring *)
    rewrite Z.add_0_r in Hwr.
    destruct Hpc as (Hcnt & Hltc).
    rewrite (u32_small (CDC_TX_BUFFER_SIZE - tw)) in E by lia.
    rewrite (u32_small (size - count)) in E by lia.
    set (k1 := if CDC_TX_BUFFER_SIZE - tw <? ltc
               then CDC_TX_BUFFER_SIZE - tw else ltc) in *.
    set (k := if size - count <? k1 then size - count else k1) in *.
    assert (Hk1 : 1 <= k1 <= ltc /\ k1 <= CDC_TX_BUFFER_SIZE - tw).
    { subst k1. destruct (Z.ltb_spec (CDC_TX_BUFFER_SIZE - tw) ltc); lia. }
    assert (Hk' : 1 <= k <= k1 /\ k <= size - count).
    { subst k. destruct (Z.ltb_spec (size - count) k1); lia. }
    clearbody k k1.
    injection E as <- <-. simpl.
    rewrite (u32_small (count + k)) by lia.
    assert (Hlb : Z.of_nat (length (memcpy_from buf count k)) = k)
      by (apply length_memcpy_from; lia).
    exists []. rewrite !app_nil_r. split.
    + f_equal. f_equal. rewrite Hwr.
      apply (ring_memcpy_to CDC_TX_BUFFER_SIZE Hpos); lia.
    + f_equal. f_equal. lia.
  - (* W251: the chunk joins the ring *)
    injection E as <- <-. simpl.
    destruct Hpc as (Hltc & Hcnt). destruct Hd as (Hoff & Hchunk).
    destruct Ht as (Htr & Htw & Hts & Htc).
    rewrite (u32_small (tcn + ltc)) by lia.
    exists (memcpy_from buf (count - ltc) ltc). split.
    + rewrite <- app_assoc. f_equal.
      rewrite (ring_app CDC_TX_BUFFER_SIZE txd tr tcn ltc) by lia.
      rewrite (ring_contiguous CDC_TX_BUFFER_SIZE txd _ ltc); try lia.
      2:{ apply Z.mod_pos_bound. exact Hpos. }
      rewrite Hchunk.
      rewrite skipn_app. f_equal.
      rewrite length_ring.
      replace (Z.to_nat (if busy then ts else 0) - Z.to_nat tcn)%nat with 0%nat
        by (destruct busy; lia).
      reflexivity.
    + replace count with (count - ltc + ltc) at 1 by lia.
      apply firstn_memcpy_from; lia.
  - (* W270 *)
    injection E as <- <-. unfold transmit_from, stm32l4_usbd_cdc_transmit. simpl.
    repeat match goal with H : _ /\ _ |- _ => destruct H end. subst.
    exists []. rewrite !app_nil_r. split; [|reflexivity].
    simpl. rewrite stream_transmit by lia. reflexivity.
Qed.

(** The stream depends on the transmit ring and the device log only. *)
Lemma tx_stream_frame (w w' : World) :
  (_tx_data (cdc w'), _tx_read (cdc w'), _tx_size (cdc w'),
   _tx_count (cdc w'), tx_busy (usbd w'), tx_log (usbd w'))
  = (_tx_data (cdc w), _tx_read (cdc w), _tx_size (cdc w),
     _tx_count (cdc w), tx_busy (usbd w), tx_log (usbd w)) ->
  tx_stream w' = tx_stream w.
Proof.
  unfold tx_stream, tx_ring, in_flight, wire. intros E.
  injection E as -> -> -> -> -> ->. reflexivity.
Qed.

Lemma tx_part_stream (w w' : World) :
  tx_part w' = tx_part w -> tx_stream w' = tx_stream w.
Proof.
  unfold tx_part. intros Ep. apply tx_stream_frame.
  injection Ep as _ Etxd Er _ Es Ec _ _ _ _ _ Eb Elog _ _.
  rewrite Etxd, Er, Es, Ec, Eb, Elog. reflexivity.
Qed.

Lemma event_stream (w : World) (f : frame) (rets : list Z) (data : list byte)
    (events : Z) (w1 : World) :
  sys_inv (mkSys w f rets) ->
  data_inv (mkSys w f rets) ->
  (Z.land events USBD_CDC_EVENT_TRANSMIT <> 0 -> tx_busy (usbd w) = true) ->
  rx_only (with_usbd (usbd_event data events) w) w1 ->
  tx_stream (if negb (Z.land events USBD_CDC_EVENT_TRANSMIT =? 0)
             then tx_complete w1 else w1)
  = tx_stream w.
Proof.
  destruct Hcfg as [Hrx Htx].
  assert (Hpos : 0 < CDC_TX_BUFFER_SIZE) by lia.
  destruct w as [c u rc tc yc].
  destruct c as [bl rxd rr rw rcn txd tr tw ts tcn tt tcb rcb].
  destruct u as [st ls fifo busy log].
  destruct w1 as [c1 u1 rc1 tc1 yc1].
  destruct c1 as [bl1 rxd1 rr1 rw1 rcn1 txd1 tr1 tw1 ts1 tcn1 tt1 tcb1 rcb1].
  destruct u1 as [st1 ls1 fifo1 busy1 log1].
  unfold rx_only, tx_part, rx_ok. simpl.
  intros Hinv Hdata Hbusy (Epart & Er & Hc & Hok1).
  injection Epart as -> -> -> -> -> -> -> -> -> -> -> -> -> -> ->.
  subst rr1.
  revert Hinv Hdata.
  unfold sys_inv, rx_ok, rd_ok, tx_ok, fg_ok, in_flight, tx_lens, buffer_ok.
  unfold data_inv. simpl.
  intros (Hr & Hrd & (Htr & Htw & Hts & Htc) & Hfg & Htot & Hlens & Hbal & Hq & Hk)
         (Lrx & Ltx & Hwr & Hlog & Hd).
  destruct (Z.eqb_spec (Z.land events USBD_CDC_EVENT_TRANSMIT) 0) as [Hz|Hnz]; simpl.
  - apply tx_stream_frame. reflexivity.
  - specialize (Hbusy Hnz). subst busy.
    match goal with |- context [tx_complete ?x] =>
      pose proof (tx_complete_spec Hcfg Hpow x) as Hspec;
      remember (tx_complete x) as w2 eqn:E2
    end.
    simpl in Hspec.
    destruct Hspec as (E_rxd & E_txd & E_w & E_r & E_c & E_s & E_b & E_log);
      try lia.
    clear E2.
    unfold tx_stream, tx_ring, in_flight, wire. simpl.
    rewrite E_txd, E_r, E_c, E_s, E_b, E_log.
    pose proof (Z.mod_pos_bound (tr + ts) CDC_TX_BUFFER_SIZE Hpos) as Hm.
    rewrite (ring_skipn CDC_TX_BUFFER_SIZE txd tr tcn ts) by lia.
    destruct (Z.eqb_spec (tcn - ts) 0) as [Hz|Hz].
    + rewrite app_nil_r. reflexivity.
    + pose proof (tx_clamp_bounds (tcn - ts) ((tr + ts) mod CDC_TX_BUFFER_SIZE)
                    ltac:(lia)).
      pose proof (tx_clamp_room Hcfg (tcn - ts) ((tr + ts) mod CDC_TX_BUFFER_SIZE)
                    ltac:(lia) Hm).
      apply stream_transmit; lia.
Qed.

Lemma history_reachable (s : System) (h : list byte) :
  history s h -> reachable s.
Proof.
  induction 1 as [st ls|s s' h _ IH Hstep];
    [apply reach_new | exact (reach_step s s' IH Hstep)].
Qed.

Lemma reachable_history (s : System) :
  reachable s -> exists h, history s h.
Proof.
  induction 1 as [st ls|s s' _ [h IH] Hstep].
  - exists []. apply hist_new.
  - eexists. exact (hist_step s s' h IH Hstep).
Qed.

Lemma stream_step (s s' : System) (h : list byte) :
  sys_inv s -> data_inv s -> step s s' ->
  tx_stream (world s) = h ++ tx_queued (fg s) ->
  tx_stream (world s') = (h ++ returned_bytes s s') ++ tx_queued (fg s').
Proof.
  intros Hinv Hdata Hstep Hs.
  destruct Hstep; unfold returned_bytes; simpl in *;
    rewrite ?app_nil_r in *.
  - (* call of write *)
    rewrite Hs. unfold write_call, queued. simpl.
    change (Z.to_nat 0) with 0%nat. simpl. rewrite ?app_nil_r. reflexivity.
  - (* step of write *)
    destruct (write_step_stream w f rets Hinv Hdata H) as (delta & E1 & E2).
    simpl in E2. rewrite E1, E2, Hs, app_assoc. reflexivity.
  - (* return of write *)
    rewrite Hs. f_equal. f_equal. f_equal.
    unfold wr_returned in H. unfold wr_result.
    destruct (w_pc f); try discriminate H; reflexivity.
  - exact Hs.
  - rewrite <- Hs. apply tx_part_stream, read_step_tx.
  - exact Hs.
  - exact Hs.
  - rewrite <- Hs. apply tx_part_stream, read1_step_tx.
  - exact Hs.
  - rewrite <- Hs. apply tx_stream_frame. destruct w; reflexivity.
  - rewrite <- Hs. apply tx_stream_frame. destruct w; reflexivity.
  - rewrite <- Hs. apply tx_stream_frame. destruct w; reflexivity.
  - (* line state *)
    assert (E : tx_stream (with_usbd (usbd_line st ls) w) = tx_stream w).
    { apply tx_stream_frame. destruct w as [c u ? ? ?]; destruct u; reflexivity. }
    rewrite E, Hs. destruct f; rewrite ?app_nil_r; reflexivity.
  - (* event *)
    rename H into Hbusy. rename H0 into E.
    assert (Es : tx_stream w' = tx_stream w).
    { unfold EventCallback in E.
      set (w0 := with_usbd (usbd_event data events) w) in *.
      assert (Hok0 : rx_ok (cdc w0)).
      { subst w0. destruct Hinv as (Hr & _). destruct w; simpl in *. exact Hr. }
      destruct (negb (Z.land events USBD_CDC_EVENT_RECEIVE =? 0)).
      + destruct (rx_round fuel w0) as [o w1] eqn:R.
        pose proof (rx_round_only Hcfg _ _ _ _ Hok0 R) as Honly.
        destruct o; [|discriminate].
        injection E as <-.
        apply (event_stream w f rets data events w1 Hinv Hdata Hbusy Honly).
      + injection E as <-.
        apply (event_stream w f rets data events w0 Hinv Hdata Hbusy
                 (rx_only_refl _ Hok0)). }
    rewrite Es, Hs. destruct f; rewrite ?app_nil_r; reflexivity.
Qed.

(** X1. Through every interleaving the transmit path is a queue: the bytes
    handed to the device so far, followed by the bytes of the ring that are
    not in flight, are the bytes accepted by the writes that have returned,
    in the order of the calls, followed by those the write in progress has
    added to the ring.  No byte is lost, duplicated or reordered. *)
Theorem transmit_in_order (s : System) (h : list byte) :
  history s h ->
  tx_stream (world s) = h ++ tx_queued (fg s).
Proof.
  induction 1 as [st ls|s s' h Hh IH Hstep].
  - reflexivity.
  - pose proof (history_reachable s h Hh) as Hr.
    apply (stream_step s s' h (reachable_inv Hcfg s Hr)
             (reachable_data Hcfg Hpow s Hr) Hstep IH).
Qed.

End Order.

(** ** What a driven write puts on the wire *)

Section Delivery.
Context {cfg : Config}.
Hypothesis Hcfg : config_ok.
Hypothesis Hpow : tx_pow2.
Hypothesis Hev : events_ok.
Hypothesis Hfifo : fifo_ok.



End Delivery.

(** ** The receive ring through the interleavings *)

Section RxInv.
Context {cfg : Config}.
Hypothesis Hcfg : config_ok.
Hypothesis Hpow : rx_pow2.

Lemma rx_pull_adj (adj n : Z) (w : World) :
  rx_ok (cdc w) ->
  0 <= n <= CDC_RX_BUFFER_SIZE - _rx_count (cdc w) ->
  _rx_write (cdc w)
  = (_rx_read (cdc w) + _rx_count (cdc w) - adj) mod CDC_RX_BUFFER_SIZE ->
  let w' := snd (rx_pull n w) in
  _rx_write (cdc w')
  = (_rx_read (cdc w') + _rx_count (cdc w') - adj) mod CDC_RX_BUFFER_SIZE.
Proof.
  destruct Hcfg as [Hrx Htx]. intros Hok Hn Hwr.
  unfold rx_pull, stm32l4_usbd_cdc_receive.
  match goal with
  | |- context [firstn (Z.to_nat ?k) ?l] =>
      set (cap := k) in *; set (bytes := firstn (Z.to_nat cap) l) in *
  end.
  destruct w as [c u rc tc yc].
  destruct c as [bl rxd rr rw rcn txd tr tw ts tcn tt tcb rcb].
  destruct u as [st ls fifo busy log].
  destruct Hok as (Hr & Hw & Hc). simpl in *.
  assert (Hcap : 0 <= cap <= n /\ cap <= CDC_RX_BUFFER_SIZE - rw).
  { subst cap. rewrite Z.gtb_ltb. rewrite (u32_small (CDC_RX_BUFFER_SIZE - rw)) by lia.
    destruct (Z.ltb_spec (CDC_RX_BUFFER_SIZE - rw) n); lia. }
  assert (Hb : 0 <= Z.of_nat (length bytes) <= cap).
  { subst bytes. pose proof (firstn_le_length (Z.to_nat cap) fifo). lia. }
  clearbody bytes. clearbody cap.
  rewrite (u32_small (rcn + Z.of_nat (length bytes))) by lia.
  rewrite (u32_small (rw + Z.of_nat (length bytes))) by lia.
  assert (Hpos : 0 < CDC_RX_BUFFER_SIZE) by lia.
  rewrite (mask_pow2 _ _ Hpos Hpow).
  rewrite Hwr, Zplus_mod_idemp_l. f_equal. lia.
Qed.

Lemma rx_drain_adj (adj : Z) (fuel : nat) :
  forall (count : Z) (w : World) (count' : Z) (w' : World),
    rx_ok (cdc w) ->
    _rx_write (cdc w)
    = (_rx_read (cdc w) + _rx_count (cdc w) - adj) mod CDC_RX_BUFFER_SIZE ->
    rx_drain fuel count w = Some (count', w') ->
    _rx_write (cdc w')
    = (_rx_read (cdc w') + _rx_count (cdc w') - adj) mod CDC_RX_BUFFER_SIZE.
Proof.
  destruct Hcfg as [Hrx Htx].
  induction fuel as [|fuel IH]; intros count w count' w' Hok Hwr E; [discriminate|].
  rewrite rx_drain_S in E. cbv zeta in E.
  destruct (Z.eqb_spec (u32 (CDC_RX_BUFFER_SIZE - _rx_count (cdc w))) 0).
  { injection E as <- <-. exact Hwr. }
  assert (Hn : 0 <= u32 (CDC_RX_BUFFER_SIZE - _rx_count (cdc w))
               <= CDC_RX_BUFFER_SIZE - _rx_count (cdc w)).
  { destruct Hok as (_ & _ & Hc). rewrite u32_small; lia. }
  destruct (rx_pull_only Hcfg _ w Hok Hn) as [(_ & _ & _ & Hok1) _].
  pose proof (rx_pull_adj adj _ w Hok Hn Hwr) as Hwr1.
  destruct (rx_pull (u32 (CDC_RX_BUFFER_SIZE - _rx_count (cdc w))) w)
    as [rx_size w1]. simpl in Hok1, Hwr1.
  destruct (rx_size =? 0).
  - injection E as <- <-. exact Hwr1.
  - eapply IH; [exact Hok1 | exact Hwr1 | exact E].
Qed.

Lemma rx_round_adj (adj : Z) (fuel : nat) :
  forall (w : World) (o : outcome) (w' : World),
    rx_ok (cdc w) ->
    _rx_write (cdc w)
    = (_rx_read (cdc w) + _rx_count (cdc w) - adj) mod CDC_RX_BUFFER_SIZE ->
    rx_round fuel w = (o, w') ->
    _rx_write (cdc w')
    = (_rx_read (cdc w') + _rx_count (cdc w') - adj) mod CDC_RX_BUFFER_SIZE.
Proof.
  induction fuel as [|fuel IH]; intros w o w' Hok Hwr E; simpl in E.
  { injection E as <- <-. exact Hwr. }
  destruct (_rx_count (cdc w) =? CDC_RX_BUFFER_SIZE).
  { injection E as <- <-. exact Hwr. }
  destruct (rx_drain fuel 0 w) as [[count w1]|] eqn:D.
  2:{ injection E as <- <-. exact Hwr. }
  pose proof (rx_drain_only Hcfg _ _ _ _ _ Hok D) as (_ & _ & _ & Hok1).
  pose proof (rx_drain_adj adj _ _ _ _ _ Hok Hwr D) as Hwr1.
  eapply IH; [| |exact E].
  - destruct (_ && _); [destruct w1|]; exact Hok1.
  - destruct (_ && _); [destruct w1|]; exact Hwr1.
Qed.

Lemma tx_complete_rx_fields (w : World) :
  (_rx_data (cdc (tx_complete w)), _rx_read (cdc (tx_complete w)),
   _rx_write (cdc (tx_complete w)), _rx_count (cdc (tx_complete w)))
  = (_rx_data (cdc w), _rx_read (cdc w), _rx_write (cdc w), _rx_count (cdc w)).
Proof.
  destruct w as [c u rc tc yc].
  unfold tx_complete, tx_notify, tx_next, tx_ack. simpl.
  repeat match goal with
  | |- context [if ?b then _ else _] => destruct b; simpl
  end; reflexivity.
Qed.

Lemma write_step_rx_fields (f : wr_frame) (w : World) :
  (_rx_data (cdc (snd (write_step f w))), _rx_read (cdc (snd (write_step f w))),
   _rx_write (cdc (snd (write_step f w))), _rx_count (cdc (snd (write_step f w))))
  = (_rx_data (cdc w), _rx_read (cdc w), _rx_write (cdc w), _rx_count (cdc w)).
Proof.
  destruct (write_step f w) as [f' w'] eqn:E.
  destruct f as [pc ? ? ? ? ? ? ?]. unfold write_step in E. simpl in E. simpl.
  destruct pc; split_ifs_in E; injection E as <- <-; reflexivity.
Qed.

(** A step that leaves the receive ring alone. *)
Lemma rx_inv_frame (w w' : World) (f f' : frame) (rets rets' : list Z) :
  rx_inv (mkSys w f rets) ->
  (_rx_data (cdc w'), _rx_read (cdc w'), _rx_write (cdc w'), _rx_count (cdc w'))
  = (_rx_data (cdc w), _rx_read (cdc w), _rx_write (cdc w), _rx_count (cdc w)) ->
  rx_adj f' = rx_adj f ->
  rx_inv (mkSys w' f' rets').
Proof.
  unfold rx_inv. simpl. intros (Lrx & Hwr) E Ea.
  injection E as -> -> -> ->. rewrite Ea. split; assumption.
Qed.

Lemma read_step_rx (w : World) (f : rd_frame) (rets : list Z) :
  sys_inv (mkSys w (InRead f) rets) ->
  rx_inv (mkSys w (InRead f) rets) ->
  rx_inv (mkSys (snd (read_step f w)) (InRead (fst (read_step f w))) rets).
Proof.
  destruct Hcfg as [Hrx Htx].
  assert (Hpos : 0 < CDC_RX_BUFFER_SIZE) by lia.
  destruct (read_step f w) as [f' w'] eqn:E.
  destruct w as [c u rc tc yc].
  destruct c as [bl rxd rr rw rcn txd tr tw ts tcn tt tcb rcb].
  destruct u as [st ls fifo busy log].
  destruct f as [pc size count lrc buf].
  unfold sys_inv, rx_ok, rd_ok, tx_ok, fg_ok, in_flight, tx_lens.
  unfold rx_inv, rx_adj. simpl.
  intros ((Hr & Hw & Hc) & Hrd & _) (Lrx & Hwr).
  destruct pc; unfold read_step in E; simpl in *; rewrite ?Z.gtb_ltb in E.
  all: try (split_ifs_in E; simpl in E; injection E as <- <-; simpl;
            rewrite ?Z.sub_0_r in *; split; assumption).
  - (* R148 *)
    pose proof (u32_range (UART_RX_BUFFER_SIZE - rr)) as Hu.
    set (k := if u32 (UART_RX_BUFFER_SIZE - rr) <? lrc
              then u32 (UART_RX_BUFFER_SIZE - rr) else lrc) in *.
    assert (Hk : 0 <= k <= lrc).
    { subst k. destruct (Z.ltb_spec (u32 (UART_RX_BUFFER_SIZE - rr)) lrc); lia. }
    clearbody k. injection E as <- <-. simpl.
    rewrite (u32_small (rr + k)) by lia.
    rewrite (mask_pow2 _ _ Hpos Hpow). split; [exact Lrx|].
    rewrite Hwr. rewrite Z.sub_0_r.
    replace ((rr + k) mod CDC_RX_BUFFER_SIZE + rcn - k)
      with ((rr + k) mod CDC_RX_BUFFER_SIZE + (rcn - k)) by lia.
    rewrite Zplus_mod_idemp_l. f_equal. lia.
  - (* R159 *)
    injection E as <- <-. simpl.
    rewrite (u32_small (rcn - lrc)) by lia.
    split; [exact Lrx|]. rewrite Hwr. f_equal. lia.
Qed.

Lemma read1_step_rx (w : World) (f : rd1_frame) (rets : list Z) :
  sys_inv (mkSys w (InRead1 f) rets) ->
  rx_inv (mkSys w (InRead1 f) rets) ->
  rx_inv (mkSys (snd (read1_step f w)) (InRead1 (fst (read1_step f w))) rets).
Proof.
  destruct Hcfg as [Hrx Htx].
  assert (Hpos : 0 < CDC_RX_BUFFER_SIZE) by lia.
  destruct (read1_step f w) as [f' w'] eqn:E.
  destruct w as [c u rc tc yc].
  destruct c as [bl rxd rr rw rcn txd tr tw ts tcn tt tcb rcb].
  destruct u as [st ls fifo busy log].
  destruct f as [pc data].
  unfold sys_inv, rx_ok, rd_ok, tx_ok, fg_ok, in_flight, tx_lens.
  unfold rx_inv, rx_adj. simpl.
  intros ((Hr & Hw & Hc) & Hrd & _) (Lrx & Hwr).
  destruct pc; unfold read1_step in E; simpl in *.
  all: try (split_ifs_in E; simpl in E; injection E as <- <-; simpl;
            rewrite ?Z.sub_0_r in *; split; assumption).
  - (* R122 *)
    injection E as <- <-. simpl.
    rewrite (u32_small (rr + 1)) by lia.
    rewrite (mask_pow2 _ _ Hpos Hpow). split; [exact Lrx|].
    rewrite Hwr. rewrite Z.sub_0_r.
    replace ((rr + 1) mod CDC_RX_BUFFER_SIZE + rcn - 1)
      with ((rr + 1) mod CDC_RX_BUFFER_SIZE + (rcn - 1)) by lia.
    rewrite Zplus_mod_idemp_l. f_equal. lia.
  - (* R128 *)
    injection E as <- <-. simpl.
    rewrite (u32_small (rcn - 1)) by lia.
    split; [exact Lrx|]. rewrite Hwr. f_equal. lia.
Qed.

Lemma rx_inv_step (s s' : System) :
  sys_inv s -> rx_inv s -> step s s' -> rx_inv s'.
Proof.
  destruct Hcfg as [Hrx Htx].
  intros Hinv Hrxi Hstep. destruct Hstep.
  - apply (rx_inv_frame w w Idle _ rets); try reflexivity; exact Hrxi.
  - apply (rx_inv_frame w _ (InWrite f) _ rets); try reflexivity;
      [exact Hrxi | apply write_step_rx_fields].
  - apply (rx_inv_frame w w (InWrite f) _ rets); try reflexivity; exact Hrxi.
  - apply (rx_inv_frame w w Idle _ rets); try reflexivity; exact Hrxi.
  - apply read_step_rx; assumption.
  - apply (rx_inv_frame w w (InRead f) _ rets); try reflexivity; try exact Hrxi.
    unfold rd_returned in H. unfold rx_adj.
    destruct (r_pc f); try discriminate H; reflexivity.
  - apply (rx_inv_frame w w Idle _ rets); try reflexivity; exact Hrxi.
  - apply read1_step_rx; assumption.
  - apply (rx_inv_frame w w (InRead1 f) _ rets); try reflexivity; try exact Hrxi.
    unfold rd1_returned in H. unfold rx_adj.
    destruct (r1_pc f); try discriminate H; reflexivity.
  - apply (rx_inv_frame w _ Idle _ rets); try reflexivity; try exact Hrxi.
  - apply (rx_inv_frame w _ Idle _ rets); try reflexivity; try exact Hrxi.
  - apply (rx_inv_frame w _ Idle _ rets); try reflexivity; try exact Hrxi.
  - apply (rx_inv_frame w _ f _ rets); try reflexivity; try exact Hrxi.
  - (* event *)
    rename H into Hbusy. rename H0 into E.
    unfold EventCallback in E.
    set (w0 := with_usbd (usbd_event data events) w) in *.
    assert (Hok0 : rx_ok (cdc w0)).
    { subst w0. destruct Hinv as (Hr & _). destruct w; simpl in *. exact Hr. }
    assert (H0 : rx_inv (mkSys w0 f rets)).
    { apply (rx_inv_frame w _ f _ rets); try reflexivity; exact Hrxi. }
    destruct H0 as (Lrx0 & Hwr0). simpl in Lrx0, Hwr0.
    assert (H1 : exists w1, rx_inv (mkSys w1 f rets)
                 /\ w' = if negb (Z.land events USBD_CDC_EVENT_TRANSMIT =? 0)
                         then tx_complete w1 else w1).
    { destruct (negb (Z.land events USBD_CDC_EVENT_RECEIVE =? 0)).
      - destruct (rx_round fuel w0) as [o w1] eqn:R.
        destruct o; [|discriminate E]. injection E as <-.
        exists w1. split; [|reflexivity]. split; simpl.
        + apply (rx_round_length Hcfg _ _ _ _ Hok0 Lrx0 R).
        + apply (rx_round_adj _ _ _ _ _ Hok0 Hwr0 R).
      - injection E as <-. exists w0. split; [|reflexivity].
        split; assumption. }
    destruct H1 as (w1 & Hrx1 & ->). clear E.
    destruct (negb (Z.land events USBD_CDC_EVENT_TRANSMIT =? 0)); [|exact Hrx1].
    apply (rx_inv_frame w1 _ f _ rets); try reflexivity; try exact Hrx1.
    apply tx_complete_rx_fields.
Qed.

Lemma reachable_rx (s : System) : reachable s -> rx_inv s.
Proof.
  destruct Hcfg as [Hrx Htx].
  induction 1 as [st ls|s s' Hr IH Hstep].
  - unfold rx_inv, World_new, CDC_new. simpl. rewrite repeat_length.
    split; reflexivity.
  - exact (rx_inv_step s s' (reachable_inv Hcfg s Hr) IH Hstep).
Qed.

(** X15. Between two calls of the foreground, and during a write, the receive
    ring of every reachable state is well formed: the array has its size
    and the write index lies [_rx_count] slots after the read index, so the
    callback and the reads see one queue. *)
Theorem rx_well_formed (s : System) :
  reachable s ->
  rx_adj (fg s) = 0 ->
  rx_wf (world s).
Proof.
  intros Hr Ha. destruct (reachable_rx s Hr) as (Lrx & Hwr).
  rewrite Ha, Z.sub_0_r in Hwr.
  split; [apply (reachable_inv Hcfg s Hr)|]. split; assumption.
Qed.

End RxInv.

(** ** The receive notification *)

Section Notify.
Context {cfg : Config}.
Hypothesis Hcfg : config_ok.

Lemma rx_pull_exact (n : Z) (w : World) :
  rx_ok (cdc w) ->
  1 <= n <= CDC_RX_BUFFER_SIZE - _rx_count (cdc w) ->
  let k := fst (rx_pull n w) in
  let w' := snd (rx_pull n w) in
  0 <= k
  /\ _rx_count (cdc w') = _rx_count (cdc w) + k
  /\ receive_calls w' = receive_calls w
  /\ (k = 0 -> rx_fifo (usbd w') = []).
Proof.
  destruct Hcfg as [Hrx Htx]. intros Hok Hn.
  unfold rx_pull, stm32l4_usbd_cdc_receive.
  match goal with
  | |- context [firstn (Z.to_nat ?k) ?l] => set (cap := k) in *
  end.
  destruct w as [c u rc tc yc].
  destruct c as [bl rxd rr rw rcn txd tr tw ts tcn tt tcb rcb].
  destruct u as [st ls fifo busy log].
  destruct Hok as (Hr & Hw & Hc). simpl in *.
  assert (Hcap : 1 <= cap <= n).
  { subst cap. rewrite Z.gtb_ltb. rewrite (u32_small (CDC_RX_BUFFER_SIZE - rw)) by lia.
    destruct (Z.ltb_spec (CDC_RX_BUFFER_SIZE - rw) n); lia. }
  pose proof (firstn_le_length (Z.to_nat cap) fifo) as Hle.
  clearbody cap.
  rewrite (u32_small (rcn + _)) by lia.
  split; [lia|]. split; [reflexivity|]. split; [reflexivity|].
  intros Hz. destruct fifo as [|b fifo]; [apply skipn_nil|].
  exfalso. destruct (Z.to_nat cap) eqn:Ec; [lia|]. simpl in Hz. lia.
Qed.

(** The inner loop counts what it adds to the ring, and is left with the
    ring full or the stack drained. *)
Lemma rx_drain_exact (fuel : nat) :
  forall (count : Z) (w : World) (count' : Z) (w' : World),
    rx_ok (cdc w) ->
    0 <= count <= _rx_count (cdc w) ->
    rx_drain fuel count w = Some (count', w') ->
    count' - count = _rx_count (cdc w') - _rx_count (cdc w)
    /\ receive_calls w' = receive_calls w
    /\ (_rx_count (cdc w') = CDC_RX_BUFFER_SIZE \/ rx_fifo (usbd w') = []).
Proof.
  destruct Hcfg as [Hrx Htx].
  induction fuel as [|fuel IH]; intros count w count' w' Hok Hcount E; [discriminate|].
  rewrite rx_drain_S in E. cbv zeta in E.
  pose proof Hok as (_ & _ & Hc).
  rewrite (u32_small (CDC_RX_BUFFER_SIZE - _rx_count (cdc w))) in E by lia.
  destruct (Z.eqb_spec (CDC_RX_BUFFER_SIZE - _rx_count (cdc w)) 0).
  { injection E as <- <-. split; [lia|]. split; [reflexivity|]. left. lia. }
  assert (Hn : 1 <= CDC_RX_BUFFER_SIZE - _rx_count (cdc w)
               <= CDC_RX_BUFFER_SIZE - _rx_count (cdc w)) by lia.
  assert (Hn0 : 0 <= CDC_RX_BUFFER_SIZE - _rx_count (cdc w)
                <= CDC_RX_BUFFER_SIZE - _rx_count (cdc w)) by lia.
  destruct (rx_pull_only Hcfg _ w Hok Hn0) as [(_ & _ & _ & Hok1) Hk].
  destruct (rx_pull_exact _ w Hok Hn) as (Hk0 & Hc1 & Hcalls1 & Hz1).
  destruct (rx_pull (CDC_RX_BUFFER_SIZE - _rx_count (cdc w)) w)
    as [rx_size w1]. simpl in *.
  rewrite (u32_small (count + rx_size)) in E by lia.
  destruct (Z.eqb_spec rx_size 0) as [Hz|Hnz].
  - injection E as <- <-. split; [lia|]. split; [exact Hcalls1|].
    right. apply Hz1. exact Hz.
  - assert (Hc1' : 0 <= count + rx_size <= _rx_count (cdc w1)) by lia.
    destruct (IH _ _ _ _ Hok1 Hc1' E) as (H1 & H2 & H3).
    split; [lia|]. split; [congruence | exact H3].
Qed.

Lemma rx_round_notifies (fuel : nat) (w w' : World) :
  rx_ok (cdc w) ->
  rx_round fuel w = (Returned, w') ->
  receive_calls w'
  = receive_calls w
    ++ (if (_rx_count (cdc w) =? 0) && _receiveCallback (cdc w)
        then [CDC_RX_BUFFER_SIZE] else []).
Proof.
  destruct Hcfg as [Hrx Htx]. intros Hok E.
  destruct fuel as [|fuel]; [discriminate E|]. simpl in E.
  pose proof Hok as (_ & _ & Hc).
  destruct (Z.eqb_spec (_rx_count (cdc w)) CDC_RX_BUFFER_SIZE) as [Hfull|Hnf].
  { injection E as <-.
    destruct (Z.eqb_spec (_rx_count (cdc w)) 0); [lia|].
    simpl. rewrite app_nil_r. reflexivity. }
  destruct (rx_drain fuel 0 w) as [[count w1]|] eqn:D; [|discriminate E].
  pose proof (rx_drain_only Hcfg _ _ _ _ _ Hok D) as (Ep & _ & _ & Hok1).
  assert (H0c : 0 <= 0 <= _rx_count (cdc w)) by lia.
  destruct (rx_drain_exact _ _ _ _ _ Hok H0c D) as (Hcount & Hcalls & Hexit).
  assert (Ecb : _receiveCallback (cdc w1) = _receiveCallback (cdc w)).
  { unfold tx_part in Ep. injection Ep as _ _ _ _ _ _ _ _ Ecb _ _ _ _ _ _. exact Ecb. }
  rewrite Ecb in E.
  set (w2 := if (_rx_count (cdc w) =? 0) && _receiveCallback (cdc w)
             then call_receiveCallback count w1 else w1) in *.
  assert (H2 : cdc w2 = cdc w1 /\ usbd w2 = usbd w1).
  { subst w2. destruct (_ && _); [destruct w1|]; split; reflexivity. }
  destruct H2 as [Ec2 Eu2].
  assert (Hfull1 : _rx_count (cdc w1) = CDC_RX_BUFFER_SIZE).
  { destruct Hexit as [H|Hempty]; [exact H|].
    destruct (Z.eq_dec (_rx_count (cdc w1)) CDC_RX_BUFFER_SIZE) as [H|Hlt];
      [exact H|exfalso].
    assert (Hok2 : rx_ok (cdc w2)) by (rewrite Ec2; exact Hok1).
    assert (Hb : rx_backlog w2 < CDC_RX_BUFFER_SIZE).
    { unfold rx_backlog. rewrite Ec2, Eu2, Hempty. simpl.
      destruct Hok1 as (_ & _ & Hc1). change (Z.of_nat 0) with 0. lia. }
    pose proof (rx_round_starved Hcfg fuel w2 Hok2 Hb) as Hsp.
    rewrite E in Hsp. discriminate Hsp. }
  destruct fuel as [|fuel']; [discriminate E|]. simpl in E.
  rewrite Ec2, Hfull1, Z.eqb_refl in E. injection E as <-.
  subst w2.
  destruct (Z.eqb_spec (_rx_count (cdc w)) 0) as [Hz|Hnz]; simpl.
  - destruct (_receiveCallback (cdc w)); simpl.
    + rewrite Hcalls. f_equal. f_equal. lia.
    + rewrite app_nil_r. exact Hcalls.
  - rewrite app_nil_r. exact Hcalls.
Qed.

Lemma tx_complete_receive_calls (w : World) :
  receive_calls (tx_complete w) = receive_calls w.
Proof.
  destruct w as [c u rc tc yc].
  unfold tx_complete, tx_notify, tx_next, tx_ack. simpl.
  repeat match goal with
  | |- context [if ?b then _ else _] => destruct b; simpl
  end; reflexivity.
Qed.

(** X14. A callback for a receive event that returns has called the receive
    callback at most once: once with the capacity of the ring when the
    ring was empty at the start and a callback is registered, and not at
    all otherwise. *)
Theorem receive_callback_on_return (fuel : nat) (events : Z) (w w' : World) :
  rx_ok (cdc w) ->
  Z.land events USBD_CDC_EVENT_RECEIVE <> 0 ->
  EventCallback fuel events w = (Returned, w') ->
  receive_calls w'
  = receive_calls w
    ++ (if (_rx_count (cdc w) =? 0) && _receiveCallback (cdc w)
        then [CDC_RX_BUFFER_SIZE] else []).
Proof.
  intros Hok Hev E. unfold EventCallback in E.
  destruct (Z.eqb_spec (Z.land events USBD_CDC_EVENT_RECEIVE) 0); [contradiction|].
  cbn [negb] in E.
  destruct (rx_round fuel w) as [o w1] eqn:R.
  destruct o; [|discriminate E]. injection E as <-.
  rewrite <- (rx_round_notifies fuel w w1 Hok R).
  destruct (negb _); [apply tx_complete_receive_calls | reflexivity].
Qed.

End Notify.

(** ** No empty packet *)

Section NoEmptyPacket.
Context {cfg : Config}.
Hypothesis Hcfg : config_ok.
Hypothesis Hev : events_ok.
Hypothesis Hfifo : fifo_ok.

Lemma write_step_lens (f : wr_frame) (w : World) :
  tx_lens (usbd (snd (write_step f w)))
  = tx_lens (usbd w)
    ++ match w_pc f with W226 | W270 => [w_tx_size f] | _ => [] end.
Proof.
  destruct (write_step f w) as [f' w'] eqn:E.
  destruct f as [pc ? ? ? ? ? ? ?]. unfold write_step in E. simpl in E. simpl.
  destruct pc; split_ifs_in E; injection E as <- <-;
    unfold transmit_from, stm32l4_usbd_cdc_transmit, tx_lens; simpl;
    rewrite ?map_app, ?app_nil_r; reflexivity.
Qed.

Lemma device_completes_lens (w : World) :
  tx_ok (cdc w) ->
  exists more,
    tx_lens (usbd (device_completes w)) = tx_lens (usbd w) ++ more
    /\ Forall (fun k => 1 <= k) more.
Proof.
  destruct Hcfg as [Hrx Htx]. pose proof (packet_size_pos Hfifo) as Hpkt.
  unfold device_completes. rewrite (usbd_callback_transmit Hev).
  destruct w as [c u rc tc yc].
  destruct c as [bl rxd rr rw rcn txd tr tw ts tcn tt tcb rcb].
  destruct u as [st ls fifo busy log].
  unfold tx_ok. simpl. intros (Hr & Hw & Hs & Hc).
  unfold tx_complete, tx_ack. simpl.
  match goal with |- context [tx_next ?x] => remember (tx_next x) as w2 eqn:E2 end.
  unfold tx_next in E2. simpl in E2.
  rewrite (u32_small (tcn - ts)) in E2 by lia.
  assert (Hm : 0 <= mask CDC_TX_BUFFER_SIZE (u32 (tr + ts)) < CDC_TX_BUFFER_SIZE)
    by (apply mask_range; [lia | apply u32_range]).
  set (m := mask CDC_TX_BUFFER_SIZE (u32 (tr + ts))) in *. clearbody m.
  assert (H3 : forall w2, exists k,
             tx_notify w2 = mkWorld (cdc w2) (usbd w2) (receive_calls w2) k (yield_calls w2)).
  { intros w3. unfold tx_notify. destruct (_ && _); [eexists; reflexivity|].
    destruct w3; eexists; reflexivity. }
  destruct (H3 w2) as [k ->]. simpl.
  destruct (Z.eqb_spec (tcn - ts) 0) as [Hz|Hz]; simpl in E2; subst w2;
    unfold transmit_from, stm32l4_usbd_cdc_transmit, tx_lens; simpl.
  - exists []. rewrite app_nil_r. split; [reflexivity | constructor].
  - pose proof (tx_clamp_pos Hcfg Hpkt (tcn - ts) m ltac:(lia) Hm).
    rewrite map_app. eexists. split; [reflexivity|].
    constructor; [assumption | constructor].
Qed.

Lemma drive_step_nonempty (bl0 : bool) (buffer : list byte) (rets0 lens0 : list Z)
    (s : System) :
  drive_ok bl0 buffer rets0 lens0 s ->
  (exists chunks, tx_lens (usbd (world s)) = lens0 ++ chunks
                  /\ Forall (fun k => 1 <= k) chunks) ->
  exists chunks, tx_lens (usbd (world (drive_step s))) = lens0 ++ chunks
                 /\ Forall (fun k => 1 <= k) chunks.
Proof.
  intros (Hinv & _ & _ & _ & Hfg) (chunks & Hch & Hpos).
  assert (Hdev : exists chunks',
             tx_lens (usbd (device_completes (world s))) = lens0 ++ chunks'
             /\ Forall (fun k => 1 <= k) chunks').
  { destruct (device_completes_lens (world s)) as (more & E & Hm);
      [apply Hinv|].
    exists (chunks ++ more). rewrite E, Hch, app_assoc. split; [reflexivity|].
    apply Forall_app. split; assumption. }
  destruct s as [w f rets]. unfold drive_step. simpl in *.
  destruct f as [|f|rf|rf]; try contradiction.
  - destruct (tx_busy (usbd w)); [exact Hdev|].
    exists chunks. split; assumption.
  - destruct (wr_returned f); [exists chunks; split; assumption|].
    destruct (spinning f w && tx_busy (usbd w)); [exact Hdev|]. simpl.
    rewrite write_step_lens, Hch, <- app_assoc.
    eexists. split; [reflexivity|].
    apply Forall_app. split; [exact Hpos|].
    destruct Hfg as (_ & _ & Hpc).
    destruct (w_pc f); try constructor; try lia; constructor.
Qed.

Lemma drive_nonempty (bl0 : bool) (buffer : list byte) (rets0 lens0 : list Z)
    (n : nat) :
  forall s : System,
    drive_ok bl0 buffer rets0 lens0 s ->
    (exists chunks, tx_lens (usbd (world s)) = lens0 ++ chunks
                    /\ Forall (fun k => 1 <= k) chunks) ->
    exists chunks, tx_lens (usbd (world (drive n s))) = lens0 ++ chunks
                   /\ Forall (fun k => 1 <= k) chunks.
Proof.
  pose proof (packet_size_pos Hfifo) as Hpkt.
  induction n as [|n IH]; intros s Hok Hp; [exact Hp|].
  simpl. destruct (settled s) eqn:Hs.
  - assert (E : drive_step s = s).
    { destruct s as [w f rets]. unfold drive_step, settled in *. simpl in *.
      destruct f; try discriminate Hs.
      destruct (tx_busy (usbd w)); [discriminate Hs | reflexivity]. }
    rewrite E. apply IH; assumption.
  - apply IH.
    + apply (drive_progress Hcfg Hev Hpkt bl0 buffer rets0 lens0 s Hok Hs).
    + apply (drive_step_nonempty bl0 buffer rets0 lens0 s Hok Hp).
Qed.

(** X4. A write on a ready device with RTS asserted, begun with nothing in
    flight and driven to its end by the device, hands no empty packet to
    the device: every length passed to the transmit call is at least 1. *)
Theorem driven_write_no_empty_packet (buffer : list byte) (s0 : System) :
  buffer_ok buffer ->
  reachable s0 ->
  fg s0 = Idle ->
  tx_busy (usbd (world s0)) = false ->
  USBD_CDC_STATE_READY <= usbd_state (usbd (world s0)) ->
  Z.land (lineState (usbd (world s0))) 2 <> 0 ->
  exists (n : nat) (chunks : list Z),
    let s := drive n (mkSys (world s0) (InWrite (write_call 0 buffer))
                            (write_returns s0)) in
    settled s = true
    /\ tx_lens (usbd (world s)) = tx_lens (usbd (world s0)) ++ chunks
    /\ Forall (fun k => 1 <= k) chunks.
Proof.
  intros Hbuf Hreach Hidle Hbusy Hst Hls.
  pose proof (packet_size_pos Hfifo) as Hpkt.
  destruct s0 as [w0 f0 rets0]. simpl in *. subst f0.
  set (s1 := mkSys w0 (InWrite (write_call 0 buffer)) rets0).
  assert (Hinv1 : sys_inv s1).
  { apply (reachable_inv Hcfg). apply (reach_step _ _ Hreach).
    apply step_call_write. exact Hbuf. }
  assert (Hok1 : drive_ok (_blocking (cdc w0)) buffer rets0 (tx_lens (usbd w0)) s1).
  { unfold drive_ok. simpl.
    split; [exact Hinv1|]. split; [reflexivity|].
    split; [rewrite Hbusy; intros H; discriminate H|].
    split; [exists []; rewrite app_nil_r; reflexivity|].
    repeat split; assumption. }
  set (n := Z.to_nat (drive_measure s1)).
  assert (Hn : drive_measure s1 <= Z.of_nat n) by lia.
  destruct (drive_terminates Hcfg Hev Hpkt _ _ _ _ n s1 Hok1 Hn) as [Hset _].
  destruct (drive_nonempty _ _ _ _ n s1 Hok1) as (chunks & Hch & Hpos).
  { exists []. simpl. rewrite app_nil_r. split; [reflexivity | constructor]. }
  exists n, chunks. cbv zeta. fold s1. split; [exact Hset|]. split; assumption.
Qed.

End NoEmptyPacket.

(** ** The two directions are independent *)

Section Sides.
Context {cfg : Config}.
Hypothesis Hcfg : config_ok.

Lemma write_step_rx_side (f : wr_frame) (w : World) :
  rx_fifo (usbd (snd (write_step f w))) = rx_fifo (usbd w)
  /\ receive_calls (snd (write_step f w)) = receive_calls w.
Proof.
  destruct (write_step f w) as [f' w'] eqn:E.
  destruct f as [pc ? ? ? ? ? ? ?]. unfold write_step in E. simpl in E. simpl.
  destruct pc; split_ifs_in E; injection E as <- <-; split; reflexivity.
Qed.

Lemma tx_complete_rx_side (w : World) :
  rx_fifo (usbd (tx_complete w)) = rx_fifo (usbd w)
  /\ receive_calls (tx_complete w) = receive_calls w.
Proof.
  destruct w as [c u rc tc yc].
  unfold tx_complete, tx_notify, tx_next, tx_ack. simpl.
  repeat match goal with
  | |- context [if ?b then _ else _] => destruct b; simpl
  end; split; reflexivity.
Qed.

(** The receive side of a world: ring, indices, count, what the stack
    holds, and the notifications made. *)
Lemma sides_write (f : wr_frame) (w : World) :
  let w' := snd (write_step f w) in
  (_rx_data (cdc w'), _rx_read (cdc w'), _rx_write (cdc w'), _rx_count (cdc w'),
   rx_fifo (usbd w'), receive_calls w')
  = (_rx_data (cdc w), _rx_read (cdc w), _rx_write (cdc w), _rx_count (cdc w),
     rx_fifo (usbd w), receive_calls w).
Proof.
  cbv zeta. pose proof (write_step_rx_fields f w) as E.
  destruct (write_step_rx_side f w) as [E1 E2].
  injection E as -> -> -> ->. rewrite E1, E2. reflexivity.
Qed.

(** X20. The two directions do not disturb each other.  No step of a write
    changes the receive side (ring, indices, count, the bytes the stack
    holds, the receive notifications); an event callback without the receive
    bit leaves the receive side as it is; and an event callback without the
    transmit bit, however far it runs, leaves the transmit side as it is
    (ring, indices, counts, the device log, the callbacks registered). *)
Theorem sides_independent (fuel : nat) (events : Z) (w : World) :
  (forall f : wr_frame,
      let w' := snd (write_step f w) in
      (_rx_data (cdc w'), _rx_read (cdc w'), _rx_write (cdc w'),
       _rx_count (cdc w'), rx_fifo (usbd w'), receive_calls w')
      = (_rx_data (cdc w), _rx_read (cdc w), _rx_write (cdc w),
         _rx_count (cdc w), rx_fifo (usbd w), receive_calls w))
  /\ (Z.land events USBD_CDC_EVENT_RECEIVE = 0 ->
      let w' := snd (EventCallback fuel events w) in
      (_rx_data (cdc w'), _rx_read (cdc w'), _rx_write (cdc w'),
       _rx_count (cdc w'), rx_fifo (usbd w'), receive_calls w')
      = (_rx_data (cdc w), _rx_read (cdc w), _rx_write (cdc w),
         _rx_count (cdc w), rx_fifo (usbd w), receive_calls w))
  /\ (rx_ok (cdc w) -> Z.land events USBD_CDC_EVENT_TRANSMIT = 0 ->
      tx_part (snd (EventCallback fuel events w)) = tx_part w).
Proof.
  split; [|split].
  - intros f. apply sides_write.
  - intros Hz. cbv zeta. unfold EventCallback. rewrite Hz. simpl.
    destruct (negb (Z.land events USBD_CDC_EVENT_TRANSMIT =? 0)); [|reflexivity].
    simpl. pose proof (tx_complete_rx_fields w) as E.
    destruct (tx_complete_rx_side w) as [E1 E2].
    injection E as -> -> -> ->. rewrite E1, E2. reflexivity.
  - intros Hok Hz. unfold EventCallback. rewrite Hz. simpl.
    destruct (negb (Z.land events USBD_CDC_EVENT_RECEIVE =? 0)); [|reflexivity].
    destruct (rx_round fuel w) as [o w1] eqn:R.
    pose proof (rx_round_only Hcfg _ _ _ _ Hok R) as (Ep & _).
    destruct o; exact Ep.
Qed.

End Sides.

(** ** What a write returns *)

Section Returned.
Context {cfg : Config}.
Hypothesis Hcfg : config_ok.

Lemma write_step_size (w : World) (f : wr_frame) (rets : list Z) :
  sys_inv (mkSys w (InWrite f) rets) ->
  size_inv (mkSys w (InWrite f) rets) ->
  size_inv (mkSys (snd (write_step f w)) (InWrite (fst (write_step f w))) rets).
Proof.
  destruct (write_step f w) as [f' w'] eqn:E.
  destruct w as [c u rc tc yc].
  destruct c as [bl rxd rr rw rcn txd tr tw ts tcn tt tcb rcb].
  destruct f as [pc ipsr buf size count ltc lts ltr].
  unfold sys_inv, fg_ok, wr_ok, size_inv. simpl.
  intros (_ & _ & _ & (Hip & _) & _) Hsz. subst ipsr.
  destruct pc; unfold write_step in E; simpl in E.
  all: split_ifs_in E; simpl in E; injection E as <- <-; simpl in *.
  all: try first [assumption | intros; assumption | intros; discriminate
                 | intros Hb; apply Hsz; exact Hb].
  intros Hb. subst bl. discriminate Heqb.
Qed.

Lemma size_inv_blocking (w w' : World) (f : frame) (rets rets' : list Z) :
  size_inv (mkSys w f rets) ->
  _blocking (cdc w') = _blocking (cdc w) ->
  size_inv (mkSys w' f rets').
Proof.
  unfold size_inv. simpl. intros H E. rewrite E. exact H.
Qed.

Lemma size_inv_step (s s' : System) :
  sys_inv s -> size_inv s -> step s s' -> size_inv s'.
Proof.
  intros Hinv Hsz Hstep. destruct Hstep; try exact I.
  - reflexivity.
  - apply write_step_size; assumption.
  - apply (size_inv_blocking w _ f rets); [exact Hsz|].
    destruct w as [c u ? ? ?]; destruct u; reflexivity.
  - rename H into Hbusy. rename H0 into E.
    apply (size_inv_blocking w _ f rets); [exact Hsz|].
    unfold EventCallback in E.
    set (w0 := with_usbd (usbd_event data events) w) in *.
    assert (Hok0 : rx_ok (cdc w0)).
    { subst w0. destruct Hinv as (Hr & _). destruct w; simpl in *. exact Hr. }
    assert (E0 : _blocking (cdc w0) = _blocking (cdc w))
      by (subst w0; destruct w; reflexivity).
    assert (Hc : forall w1, _blocking (cdc (tx_complete w1)) = _blocking (cdc w1)).
    { intros [c1 u1 ? ? ?]. unfold tx_complete, tx_notify, tx_next, tx_ack. simpl.
      repeat match goal with
      | |- context [if ?b then _ else _] => destruct b; simpl
      end; reflexivity. }
    rewrite <- E0.
    destruct (negb (Z.land events USBD_CDC_EVENT_RECEIVE =? 0)).
    + destruct (rx_round fuel w0) as [o w1] eqn:R.
      pose proof (rx_round_only Hcfg _ _ _ _ Hok0 R) as (Ep & _).
      assert (E1 : _blocking (cdc w1) = _blocking (cdc w0)).
      { unfold tx_part in Ep. injection Ep as Eb _ _ _ _ _ _ _ _ _ _ _ _ _ _.
        exact Eb. }
      destruct o; [|discriminate E]. injection E as <-.
      destruct (negb _); [rewrite Hc|]; exact E1.
    + injection E as <-. destruct (negb _); [apply Hc | reflexivity].
Qed.

Lemma reachable_size (s : System) : reachable s -> size_inv s.
Proof.
  induction 1 as [st ls|s s' Hr IH Hstep].
  - exact I.
  - exact (size_inv_step s s' (reachable_inv Hcfg s Hr) IH Hstep).
Qed.

(** X21. The writes of the interleavings are the foreground's, made from
    thread mode: the frame of each has IPSR zero.  Through every
    interleaving, what such a write returns lies between zero and the size
    of its buffer; and with blocking on, one that gets past the test of
    line 188 returns nothing less than the size of its buffer.  A write
    made from an interrupt handler is not covered: line 193 clamps it
    whatever the blocking flag. *)
Theorem write_returns_within_size (w : World) (f : wr_frame) (rets : list Z) :
  reachable (mkSys w (InWrite f) rets) ->
  wr_returned f = true ->
  w_ipsr f = 0
  /\ 0 <= wr_result f <= Z.of_nat (length (w_buffer f))
  /\ (_blocking (cdc w) = true -> w_pc f = W275 ->
      wr_result f = Z.of_nat (length (w_buffer f))).
Proof.
  intros Hr Hret.
  pose proof (reachable_inv Hcfg _ Hr) as (_ & _ & _ & Hfg & _).
  pose proof (reachable_size _ Hr) as Hsz.
  unfold fg_ok, wr_ok in Hfg. unfold size_inv in Hsz. simpl in Hfg, Hsz.
  destruct Hfg as (Hip & Hs & _ & Hpc).
  split; [exact Hip|].
  unfold wr_returned in Hret. unfold wr_result.
  destruct (w_pc f); try discriminate Hret.
  - split; [lia|]. intros _ H. discriminate H.
  - split; [lia|]. intros Hb _. specialize (Hsz Hb). lia.
Qed.

End Returned.

(** ** The further theorems at work *)

Lemma rx_pow2_cfg64 : rx_pow2 (cfg := cfg64).
Proof. reflexivity. Qed.

Lemma rx_wf_starved64 : rx_wf (cfg := cfg64) starved64.
Proof. unfold rx_wf, rx_ok. simpl. repeat split; try lia; reflexivity. Qed.

Lemma rx_wf_full64 : rx_wf (cfg := cfg64) rx_full64.
Proof. vm_compute. repeat split; try discriminate; reflexivity. Qed.

Lemma callback_keeps_received_witness :
  rx_wf (cfg := cfg64)
    (snd (usbd_callback (cfg := cfg64) 7 (bytes_from 6 70) 1 starved64))
  /\ rx_stream (cfg := cfg64)
       (snd (usbd_callback (cfg := cfg64) 7 (bytes_from 6 70) 1 starved64))
     = rx_stream (cfg := cfg64) starved64 ++ bytes_from 6 70.
Proof.
  apply (callback_keeps_received config_ok_cfg64 rx_pow2_cfg64 7 (bytes_from 6 70)
           1 starved64 rx_wf_starved64).
Defined.

Lemma receive_returns_iff_full_witness :
  ((exists fuel, fst (EventCallback (cfg := cfg64) fuel 1 starved64) = Returned)
   <-> 64 <= rx_backlog starved64)
  /\ forall fuel w', EventCallback (cfg := cfg64) fuel 1 starved64 = (Returned, w')
                     -> _rx_count (cdc w') = 64.
Proof.
  apply (receive_returns_iff_full config_ok_cfg64 rx_pow2_cfg64 1 starved64).
  - unfold rx_ok. simpl. lia.
  - simpl. discriminate.
Defined.

Lemma read1_takes_oldest_witness :
  exists w', read1 (cfg := cfg64) 4 rx_full64 = Some (1, w')
             /\ rx_ring (cfg := cfg64) w' = bytes_from 2 63
             /\ rx_wf (cfg := cfg64) w'
             /\ usbd w' = usbd rx_full64
             /\ tx_part w' = tx_part rx_full64.
Proof.
  exact (read1_takes_oldest config_ok_cfg64 rx_pow2_cfg64 rx_full64 rx_wf_full64).
Defined.

Lemma peek_shows_next_read_witness :
  option_map fst (read1 (cfg := cfg64) 4 rx_full64) = Some (peek rx_full64)
  /\ (SerialUSB_empty rx_full64 = true <-> peek rx_full64 = -1)
  /\ (SerialUSB_empty rx_full64 = false -> 0 <= peek rx_full64 <= 255).
Proof.
  apply (peek_shows_next_read rx_full64). vm_compute. split; [discriminate | reflexivity].
Defined.

Lemma read_takes_oldest_witness :
  exists w',
    read (cfg := cfg64) 10 3 rx_full64 = Some (64, bytes_from 1 64, w')
    /\ rx_ring (cfg := cfg64) w' = []
    /\ rx_wf (cfg := cfg64) w'
    /\ usbd w' = usbd rx_full64 /\ tx_part w' = tx_part rx_full64.
Proof.
  exact (read_takes_oldest config_ok_cfg64 rx_pow2_cfg64 eq_refl 3 rx_full64
           rx_wf_full64 ltac:(lia)).
Defined.

Lemma config_ok_uart16 : config_ok (cfg := cfg_uart16).
Proof. unfold config_ok. simpl. lia. Qed.

Lemma read_never_returns_witness :
  _rx_read (cdc rx_at16) = @UART_RX_BUFFER_SIZE cfg_uart16
  /\ forall fuel : nat, read (cfg := cfg_uart16) fuel 1 rx_at16 = None.
Proof.
  split; [reflexivity|].
  apply (read_never_returns config_ok_uart16 eq_refl 1 rx_at16).
  - reflexivity.
  - vm_compute. split; [discriminate | reflexivity].
  - vm_compute. split; [discriminate | reflexivity].
  - lia.
Defined.

Lemma done_stays_witness : done (world in_read64) = true.
Proof.
  apply (done_stays config_ok_cfg64 (mkSys ready64 Idle []) in_read64).
  - apply reach_new.
  - apply step_call_read1.
  - intros f H. discriminate H.
  - reflexivity.
Defined.

Lemma drive_reachable {cfg : Config} (Hev : events_ok) (n : nat) :
  forall s : System,
    reachable s ->
    match fg s with Idle | InWrite _ => True | _ => False end ->
    reachable (drive n s).
Proof.
  induction n as [|n IH]; intros s Hr Hfg; [exact Hr|].
  simpl. destruct (settled s) eqn:Hs.
  - assert (E : drive_step s = s).
    { destruct s as [w f rets]. unfold drive_step, settled in *. simpl in *.
      destruct f; try discriminate Hs.
      destruct (tx_busy (usbd w)); [discriminate Hs | reflexivity]. }
    rewrite E. apply IH; assumption.
  - apply IH.
    + apply (reach_step s); [exact Hr|].
      apply (drive_step_is_step Hev); assumption.
    + destruct s as [w f rets]. unfold drive_step. simpl in *.
      destruct f; try contradiction.
      * destruct (tx_busy (usbd w)); exact I.
      * destruct (wr_returned f); [exact I|].
        destruct (_ && _); exact I.
Qed.

Lemma reachable_in_flight64 : reachable (cfg := cfg64) in_flight64.
Proof.
  apply (drive_reachable events_ok_cfg64); [|exact I].
  apply (reach_step (mkSys (onTransmit true ready64) Idle [])).
  - apply (reach_step (mkSys ready64 Idle [])).
    + apply reach_new.
    + apply step_onTransmit.
  - apply step_call_write. unfold buffer_ok. simpl. lia.
Qed.

Lemma step_completed64 : step (cfg := cfg64) in_flight64 completed64.
Proof.
  apply (drive_step_is_step events_ok_cfg64); [exact I | reflexivity].
Qed.

Lemma transmit_callback_when_done_witness :
  transmit_calls (world completed64) = S (transmit_calls (world in_flight64))
  /\ _tx_total (cdc (world completed64)) = 0
  /\ done (world completed64) = true.
Proof.
  apply (transmit_callback_when_done config_ok_cfg64 in_flight64 completed64
           reachable_in_flight64 step_completed64).
  vm_compute. discriminate.
Defined.

Lemma write_needs_rts_witness :
  isEnabled (cfg := cfg64) ready64 = true /\ rts ready64 = true.
Proof.
  apply (write_needs_rts (cfg := cfg64) 30 0 (bytes_from 1 3) ready64 written64 3).
  - vm_compute. reflexivity.
  - discriminate.
Defined.

Lemma flush_completes_witness :
  exists (fuel : nat) (w' : World),
    flush_drive (cfg := cfg64) fuel (flush_call 0) written64 = Some w'
    /\ done w' = true
    /\ sum_Z (tx_lens (usbd w'))
       = sum_Z (tx_lens (usbd written64)) + _tx_count (cdc written64)
         - in_flight (cdc written64) (usbd written64).
Proof.
  apply (flush_completes config_ok_cfg64 events_ok_cfg64 fifo_ok_cfg64 written64).
  - vm_compute. repeat split; discriminate.
  - left. reflexivity.
Defined.

Lemma flush_without_device_witness :
  flush 1 1 written64 = Some written64
  /\ forall fuel, flush fuel 0 written64 = None.
Proof.
  destruct (flush_without_device written64) as [H1 H2].
  split.
  - apply H1. discriminate.
  - apply H2. vm_compute. discriminate.
Defined.

Lemma blocking_write_waits_witness :
  (forall fuel : nat,
      write (cfg := cfg64) fuel 0 (bytes_from 0 100) ready64 = None)
  /\ forall n : nat,
       wr_returned (fst (write_steps (cfg := cfg64) n
                           (write_call 0 (bytes_from 0 100)) ready64)) = false
       /\ _tx_count (cdc (snd (write_steps (cfg := cfg64) n
                                 (write_call 0 (bytes_from 0 100)) ready64)))
          <= 64.
Proof.
  apply (blocking_write_waits config_ok_cfg64 (bytes_from 0 100) ready64).
  - unfold buffer_ok. simpl. lia.
  - simpl. lia.
  - simpl. lia.
  - simpl. lia.
  - simpl. discriminate.
  - reflexivity.
  - simpl. lia.
Defined.

Lemma nonblocking_write_effect_witness :
  exists w' : World,
    write (cfg := cfg64) 30 0 (bytes_from 0 100) nonblocking64 = Some (64, w')
    /\ _tx_count (cdc w') = 0 + 64
    /\ _tx_total (cdc w') = 0 + 64
    /\ availableForWrite (cfg := cfg64) w'
       = availableForWrite (cfg := cfg64) nonblocking64 - 64
    /\ (0 <> 0 -> usbd w' = usbd nonblocking64)
    /\ (0 = 0 -> 1 <= 64 -> tx_busy (usbd w') = true).
Proof.
  apply (nonblocking_write_effect config_ok_cfg64 tx_pow2_cfg64 0 (bytes_from 0 100)
           nonblocking64).
  - unfold buffer_ok. simpl. lia.
  - simpl. lia.
  - simpl. lia.
  - simpl. lia.
  - simpl. lia.
  - simpl. discriminate.
  - left. reflexivity.
Defined.

Lemma copies_stay_in_arrays_witness :
  length (_rx_data (cdc (world in_flight64))) = 64%nat
  /\ length (_tx_data (cdc (world in_flight64))) = 64%nat
  /\ Forall (fun e => Z.of_nat (length (snd e)) = fst e)
            (tx_log (usbd (world in_flight64))).
Proof.
  apply (copies_stay_in_arrays config_ok_cfg64 tx_pow2_cfg64 in_flight64
           reachable_in_flight64).
Defined.

Lemma history_in_write64 : history (cfg := cfg64) in_write64 [].
Proof.
  apply (hist_step (mkSys ready64 (InWrite (write_call 0 (bytes_from 0 10))) [])
           in_write64 []).
  - apply (hist_step (mkSys ready64 Idle []) _ []).
    + apply hist_new.
    + apply step_call_write. unfold buffer_ok. simpl. lia.
  - exact (step_write (cfg := cfg64) ready64 (write_call 0 (bytes_from 0 10)) []
             eq_refl).
Qed.

Lemma transmit_in_order_witness :
  tx_stream (cfg := cfg64) (world in_write64) = [] ++ tx_queued (fg in_write64).
Proof.
  apply (transmit_in_order config_ok_cfg64 tx_pow2_cfg64 in_write64 []
           history_in_write64).
Defined.


Lemma rx_well_formed_witness : rx_wf (cfg := cfg64) (world in_flight64).
Proof.
  apply (rx_well_formed config_ok_cfg64 rx_pow2_cfg64 in_flight64
           reachable_in_flight64).
  reflexivity.
Defined.

Lemma receive_callback_on_return_witness :
  receive_calls notified64 = receive_calls notify64 ++ [64].
Proof.
  apply (receive_callback_on_return config_ok_cfg64 3 1
           (with_usbd (usbd_event (cfg := cfg64) (bytes_from 1 64) 1) notify64)
           notified64).
  - unfold rx_ok. simpl. lia.
  - simpl. discriminate.
  - vm_compute. reflexivity.
Defined.

Lemma driven_write_no_empty_packet_witness :
  exists (n : nat) (chunks : list Z),
    settled (drive (cfg := cfg64) n blocking_write64) = true
    /\ tx_lens (usbd (world (drive (cfg := cfg64) n blocking_write64)))
       = tx_lens (usbd ready64) ++ chunks
    /\ Forall (fun k => 1 <= k) chunks.
Proof.
  apply (driven_write_no_empty_packet config_ok_cfg64 events_ok_cfg64 fifo_ok_cfg64
           (bytes_from 0 100) (mkSys ready64 Idle [])).
  - unfold buffer_ok. simpl. lia.
  - apply reach_new.
  - reflexivity.
  - reflexivity.
  - simpl. lia.
  - simpl. discriminate.
Defined.

Lemma sides_independent_witness :
  (let w' := snd (EventCallback (cfg := cfg64) 0 2 written64) in
   (_rx_data (cdc w'), _rx_read (cdc w'), _rx_write (cdc w'),
    _rx_count (cdc w'), rx_fifo (usbd w'), receive_calls w')
   = (_rx_data (cdc written64), _rx_read (cdc written64),
      _rx_write (cdc written64), _rx_count (cdc written64),
      rx_fifo (usbd written64), receive_calls written64))
  /\ tx_part (snd (EventCallback (cfg := cfg64) 3 1 starved64))
     = tx_part starved64.
Proof.
  split.
  - apply (proj1 (proj2 (sides_independent config_ok_cfg64 0 2 written64))).
    reflexivity.
  - apply (proj2 (proj2 (sides_independent config_ok_cfg64 3 1 starved64))).
    + unfold rx_ok. simpl. lia.
    + reflexivity.
Defined.

Lemma reachable_returned64 :
  reachable (cfg := cfg64)
    (mkSys (world returned64) (InWrite returned_frame64)
           (write_returns returned64)).
Proof.
  change (reachable (cfg := cfg64) returned64).
  apply (drive_reachable events_ok_cfg64); [|exact I].
  apply (reach_step (mkSys (onTransmit true ready64) Idle [])).
  - apply (reach_step (mkSys ready64 Idle [])).
    + apply reach_new.
    + apply step_onTransmit.
  - apply step_call_write. unfold buffer_ok. simpl. lia.
Qed.

Lemma write_returns_within_size_witness :
  w_ipsr returned_frame64 = 0
  /\ 0 <= wr_result returned_frame64
    <= Z.of_nat (length (w_buffer returned_frame64))
  /\ (_blocking (cdc (world returned64)) = true ->
      w_pc returned_frame64 = W275 ->
      wr_result returned_frame64
      = Z.of_nat (length (w_buffer returned_frame64))).
Proof.
  apply (write_returns_within_size config_ok_cfg64 (world returned64)
           returned_frame64 (write_returns returned64) reachable_returned64).
  reflexivity.
Defined.
